(** * MyString: a shallow embedding of ex3/MyString.c

    The C library keeps a heap-allocated [MyString] struct that points to a
    heap-allocated char array and records its length.  The functions are
    embedded over an explicit store (char arrays, structs and output
    streams, each addressed by an index) in a state-and-fault monad: a C
    operation whose behaviour is undefined (reading outside an allocation,
    using a freed block, ...) ends the run with a [Fault]. *)

From Stdlib Require Import ZArith Lia String Ascii Bool DecimalString.
From stdpp Require Import base list.

Local Open Scope Z_scope.

(** ** Constants of MyString.h *)

(** The header MyString.h is not part of the sources.  Its macros and the
    enumerators of [MyStringRetVal] get the values that the unit tests of
    MyString.c expect and print. *)

(** Modelled from the spec: MYSTR_ERROR_CODE of the missing MyString.h, the
    "distinguished negative sentinel" of the integer-returning queries; the
    tests print it as -999. *)
Definition MYSTR_ERROR_CODE : Z := -999.

(** Modelled from the spec: the success/error flag MyStringRetVal of the
    missing MyString.h; the tests compare a success with 0 and print a
    failure as -1. *)
Definition MYSTRING_SUCCESS : Z := 0.
Definition MYSTRING_ERROR : Z := -1.

(** Modelled from the spec: the results "a bigger", "b bigger" and "equal"
    of the comparisons in the missing MyString.h; the tests expect 1, -1
    and 0. *)
Definition STR1_BIGGER : Z := 1.
Definition STR2_BIGGER : Z := -1.
Definition EQUAL_STRINGS : Z := 0.

(** Modelled from the spec: the boolean-like results of the equality
    queries in the missing MyString.h; the tests expect 1 and 0. *)
Definition TRUE : Z := 1.
Definition FALSE : Z := 0.

(** Modelled from the spec: further macros of the missing MyString.h: the
    length of the empty string, the terminator of a C string, the base of
    the decimal conversion, the memory usage of an absent instance. *)
Definition EMPTY_STRING_LENGTH : Z := 0.
Definition END_OF_C_STRING : Z := 0.
Definition DIGIT_DIVIDER : Z := 10.
Definition NO_MEMORY_USAGE : Z := 0.

(** ** Machine integers *)

(** [unsigned long] is 64 bits wide, [int] is 32 bits wide. *)
Definition ULONG_MOD : Z := 2 ^ 64.
Definition INT_MIN : Z := - 2 ^ 31.
Definition INT_MAX : Z := 2 ^ 31 - 1.

Definition wrap_ulong (z : Z) : Z := z mod ULONG_MOD.
Definition ulong_add (a b : Z) : Z := wrap_ulong (a + b).
Definition in_int (n : Z) : bool := (INT_MIN <=? n) && (n <=? INT_MAX).
Definition wrap_int (z : Z) : Z := (z + 2 ^ 31) mod 2 ^ 32 - 2 ^ 31.

(** The value of a [char] read from a byte (plain [char] is signed). *)
Definition char_of_byte (b : Z) : Z := if b <? 128 then b else b - 256.

(** ** The store *)

(** A pointer to char: [None] is NULL, [Some (b, off)] points [off] bytes
    into the char array number [b]. *)
Definition cptr : Type := option (nat * nat).
(** A pointer to a [MyString] struct or to a [FILE]. *)
Definition sptr : Type := option nat.
Definition fptr : Type := option nat.

(** typedef struct _MyString { char *_chars; unsigned long _length; } *)
Record MyString : Type := mkMyString {
  _chars : cptr;
  _length : Z
}.

(** An output stream: whether it is open, whether writing to it fails, and
    the bytes written so far. *)
Record File : Type := mkFile {
  f_open : bool;
  f_bad : bool;
  f_data : list Z
}.

(** [bufs] and [strs] hold one entry per allocation ever made; the entry is
    [None] once the block has been freed.  [oracle] lists the outcomes of
    the coming allocation requests ([false]: the request is refused; when
    the list is exhausted, requests are granted).  [junk] is the value of
    bytes that were allocated and never written. *)
Record State : Type := mkState {
  bufs : list (option (list Z));
  strs : list (option MyString);
  files : list File;
  oracle : list bool;
  junk : Z
}.

Inductive Fault : Type :=
  | NullDeref
  | OutOfBounds
  | UseAfterFree
  | InvalidPointer
  | Overlap
  | BadStream.

Inductive Res (A : Type) : Type :=
  | Ok (a : A) (st : State)
  | Err (f : Fault).
Arguments Ok {A} a st.
Arguments Err {A} f.

Definition M (A : Type) : Type := State -> Res A.

Definition ret {A} (a : A) : M A := fun st => Ok a st.
Definition bind {A B} (m : M A) (k : A -> M B) : M B :=
  fun st => match m st with
            | Ok a st' => k a st'
            | Err f => Err f
            end.
Definition fault {A} (f : Fault) : M A := fun _ => Err f.

Notation "'let*' x ':=' m 'in' k" := (bind m (fun x => k))
  (at level 10, x name, m at level 100, k at level 200).

(** *** Char arrays *)

Definition set_bufs (st : State) (bs : list (option (list Z))) : State :=
  mkState bs (strs st) (files st) (oracle st) (junk st).
Definition set_strs (st : State) (ss : list (option MyString)) : State :=
  mkState (bufs st) ss (files st) (oracle st) (junk st).
Definition set_files (st : State) (fs : list File) : State :=
  mkState (bufs st) (strs st) fs (oracle st) (junk st).
Definition set_oracle (st : State) (o : list bool) : State :=
  mkState (bufs st) (strs st) (files st) o (junk st).

(** The live char array number [b]. *)
Definition get_buf (b : nat) : M (list Z) := fun st =>
  match bufs st !! b with
  | Some (Some bytes) => Ok bytes st
  | Some None => Err UseAfterFree
  | None => Err InvalidPointer
  end.

Definition put_buf (b : nat) (bytes : list Z) : M unit := fun st =>
  Ok tt (set_bufs st (<[b := Some bytes]> (bufs st))).

(** [*p] *)
Definition load (p : cptr) : M Z :=
  match p with
  | None => fault NullDeref
  | Some (b, off) =>
      let* bytes := get_buf b in
      match bytes !! off with
      | Some v => ret v
      | None => fault OutOfBounds
      end
  end.

(** [*p = v] *)
Definition store (p : cptr) (v : Z) : M unit :=
  match p with
  | None => fault NullDeref
  | Some (b, off) =>
      let* bytes := get_buf b in
      if decide (off < length bytes)%nat
      then put_buf b (<[off := v]> bytes)
      else fault OutOfBounds
  end.

(** [p + k] *)
Definition ptr_add (p : cptr) (k : Z) : cptr :=
  match p with
  | None => None
  | Some (b, off) => Some (b, (off + Z.to_nat k)%nat)
  end.

(** The [n] bytes at [p]. *)
Definition read_bytes (p : cptr) (n : nat) : M (list Z) :=
  match p with
  | None => fault NullDeref
  | Some (b, off) =>
      let* bytes := get_buf b in
      if decide (off + n <= length bytes)%nat
      then ret (take n (drop off bytes))
      else fault OutOfBounds
  end.

(** Overwrite the bytes at [p] with [data]. *)
Definition write_bytes (p : cptr) (data : list Z) : M unit :=
  match p with
  | None => fault NullDeref
  | Some (b, off) =>
      let* bytes := get_buf b in
      if decide (off + length data <= length bytes)%nat
      then put_buf b (take off bytes ++ data ++ drop (off + length data) bytes)
      else fault OutOfBounds
  end.

(** Whether the next allocation request is granted; the request is consumed. *)
Definition next_request : M bool := fun st =>
  Ok (hd true (oracle st)) (set_oracle st (tl (oracle st))).

(** [malloc(size)]: a new array of [size] unwritten bytes, or NULL. *)
Definition malloc (size : Z) : M cptr :=
  let* granted := next_request in
  if granted
  then fun st =>
         Ok (Some (length (bufs st), 0%nat))
            (set_bufs st (bufs st ++ [Some (replicate (Z.to_nat size) (junk st))]))
  else ret None.

(** [free(p)]: nothing for NULL; otherwise [p] must be the start of a live
    array, which is released. *)
Definition free (p : cptr) : M unit :=
  match p with
  | None => ret tt
  | Some (b, off) =>
      let* _ := get_buf b in
      if decide (off = 0)%nat
      then fun st => Ok tt (set_bufs st (<[b := None]> (bufs st)))
      else fault InvalidPointer
  end.

(** [realloc(p, size)]: [malloc(size)] for NULL; otherwise [p] must be the
    start of a live array; when the request is granted the contents move to
    a new array of [size] bytes (the common prefix is kept, further bytes
    are unwritten) and the old array is released; when it is refused the old
    array stays as it is and NULL is returned. *)
Definition realloc (p : cptr) (size : Z) : M cptr :=
  match p with
  | None => malloc size
  | Some (b, off) =>
      let* old := get_buf b in
      if decide (off = 0)%nat
      then
        let* granted := next_request in
        if granted
        then fun st =>
               let n := Z.to_nat size in
               let fresh := take n old ++ replicate (n - length old) (junk st) in
               Ok (Some (length (bufs st), 0%nat))
                  (set_bufs st (<[b := None]> (bufs st) ++ [Some fresh]))
        else ret None
      else fault InvalidPointer
  end.

(** [memcpy(dst, src, n)]: the two ranges must lie inside live arrays and
    must not overlap. *)
Definition ranges_overlap (p q : cptr) (n : nat) : bool :=
  match p, q with
  | Some (b1, o1), Some (b2, o2) =>
      bool_decide (b1 = b2) && bool_decide (o1 < o2 + n)%nat
        && bool_decide (o2 < o1 + n)%nat
  | _, _ => false
  end.

Definition memcpy (dst src : cptr) (n : Z) : M unit :=
  let* data := read_bytes src (Z.to_nat n) in
  let* _ := read_bytes dst (Z.to_nat n) in
  if ranges_overlap dst src (Z.to_nat n)
  then fault Overlap
  else write_bytes dst data.

(** The result of comparing two byte sequences of the same length: the
    difference of the first two bytes that differ (as unsigned chars), 0 when
    there are none.  C only fixes the sign of the result of memcmp. *)
Fixpoint cmp_bytes (xs ys : list Z) : Z :=
  match xs, ys with
  | x :: xs', y :: ys' => if x =? y then cmp_bytes xs' ys' else x - y
  | _, _ => 0
  end.

(** [memcmp(p, q, n)] *)
Definition memcmp (p q : cptr) (n : Z) : M Z :=
  let* xs := read_bytes p (Z.to_nat n) in
  let* ys := read_bytes q (Z.to_nat n) in
  ret (cmp_bytes xs ys).

(** *** Structs *)

Definition get_str (s : nat) : M MyString := fun st =>
  match strs st !! s with
  | Some (Some v) => Ok v st
  | Some None => Err UseAfterFree
  | None => Err InvalidPointer
  end.

Definition put_str (s : nat) (v : MyString) : M unit :=
  let* _ := get_str s in
  fun st => Ok tt (set_strs st (<[s := Some v]> (strs st))).

(** [malloc(sizeof(MyString))]: a new struct whose fields are unwritten. *)
Definition malloc_str : M sptr :=
  let* granted := next_request in
  if granted
  then fun st =>
         Ok (Some (length (strs st)))
            (set_strs st (strs st ++ [Some (mkMyString None (junk st))]))
  else ret None.

(** [free(str)] for a non-null struct pointer. *)
Definition free_str (s : nat) : M unit :=
  let* _ := get_str s in
  fun st => Ok tt (set_strs st (<[s := None]> (strs st))).

Definition deref (p : sptr) : M MyString :=
  match p with
  | None => fault NullDeref
  | Some s => get_str s
  end.

(** [p->_chars = c] and [p->_length = n] *)
Definition set_chars (p : sptr) (c : cptr) : M unit :=
  match p with
  | None => fault NullDeref
  | Some s => let* v := get_str s in put_str s (mkMyString c (_length v))
  end.

Definition set_length (p : sptr) (n : Z) : M unit :=
  match p with
  | None => fault NullDeref
  | Some s => let* v := get_str s in put_str s (mkMyString (_chars v) n)
  end.

(** *** Streams *)

Definition get_file (f : nat) : M File := fun st =>
  match files st !! f with
  | Some v => if f_open v then Ok v st else Err BadStream
  | None => Err BadStream
  end.

Definition put_file (f : nat) (v : File) : M unit := fun st =>
  Ok tt (set_files st (<[f := v]> (files st))).

(** [fclose(stream)] *)
Definition fclose (stream : fptr) : M Z :=
  match stream with
  | None => fault NullDeref
  | Some f =>
      let* v := get_file f in
      let* _ := put_file f (mkFile false (f_bad v) (f_data v)) in
      ret 0
  end.

(** ** Functions of the C library used by MyString.c *)

(** The decimal digits of a non-negative number, most significant first. *)
Fixpoint decimal_loop (fuel : nat) (n : Z) (acc : list Z) : list Z :=
  let acc' := (48 + n mod 10) :: acc in
  if n / 10 =? 0 then acc'
  else match fuel with
       | O => acc'
       | S fuel' => decimal_loop fuel' (n / 10) acc'
       end.

Definition digit_fuel (n : Z) : nat := S (Z.to_nat (Z.log2 (Z.abs n))).

(** The text that the conversion [%d] prints for [n]. *)
Definition decimal (n : Z) : list Z :=
  if n <? 0 then 45 :: decimal_loop (digit_fuel n) (- n) []
  else decimal_loop (digit_fuel n) n [].

(** [sprintf(dst, "%d", n)]: writes the text and a terminating NUL, and
    returns the number of characters of the text. *)
Definition sprintf_d (dst : cptr) (n : Z) : M Z :=
  let* _ := write_bytes dst (decimal n ++ [0]) in
  ret (Z.of_nat (length (decimal n))).

Definition is_space (c : Z) : bool := (c =? 32) || ((9 <=? c) && (c <=? 13)).
Definition is_digit (c : Z) : bool := (48 <=? c) && (c <=? 57).

Fixpoint skip_spaces (text : list Z) : list Z :=
  match text with
  | c :: rest => if is_space c then skip_spaces rest else text
  | [] => []
  end.

(** The value of the leading digits of [text], after [acc], and whether
    there was a digit. *)
Fixpoint scan_digits (text : list Z) (acc : Z) (seen : bool) : Z * bool :=
  match text with
  | c :: rest =>
      if is_digit c then scan_digits rest (10 * acc + (c - 48)) true
      else (acc, seen)
  | [] => (acc, seen)
  end.

(** The conversion [%d] on a text: the number of converted items (-1, EOF,
    when the text ends before anything else than white space was seen) and
    the converted value.  A value outside [int] wraps around here; C leaves
    this case undefined. *)
Definition scan_int (text : list Z) : Z * Z :=
  match skip_spaces text with
  | [] => (-1, 0)
  | c :: rest =>
      let '(sign, body) :=
        if c =? 45 then (-1, rest)
        else if c =? 43 then (1, rest) else (1, c :: rest) in
      match scan_digits body 0 false with
      | (v, true) => (1, wrap_int (sign * v))
      | (_, false) => (0, 0)
      end
  end.

(** ** MyString.c *)

(** static unsigned long getCStringLength(const char *str).  The index of
    the loop stays inside the array it scans, whose size bounds the number
    of iterations: the scan stops at the first NUL or leaves the array. *)
Fixpoint getCStringLength_loop (fuel : nat) (str : cptr) (length : Z) : M Z :=
  let* c := load (ptr_add str length) in
  if c =? END_OF_C_STRING then ret length
  else match fuel with
       | O => fault OutOfBounds
       | S fuel' => getCStringLength_loop fuel' str (length + 1)
       end.

Definition buf_size (st : State) (p : cptr) : nat :=
  match p with
  | Some (b, _) =>
      match bufs st !! b with
      | Some (Some bytes) => length bytes
      | _ => O
      end
  | None => O
  end.

Definition getCStringLength (str : cptr) : M Z := fun st =>
  getCStringLength_loop (buf_size st str) str 0 st.

(** static MyStringRetVal adjustMyStringLength(char **chars,
    unsigned long *length, unsigned long newSize); every caller passes the
    addresses of the two fields of one struct, [str]. *)
Definition adjustMyStringLength (str : sptr) (newSize : Z) : M Z :=
  let* v := deref str in
  let* c := realloc (_chars v) newSize in
  let* _ := set_chars str c in
  match c with
  | None => ret MYSTRING_ERROR
  | Some _ =>
      let* _ := set_length str newSize in
      ret MYSTRING_SUCCESS
  end.

(** static int getNumOfDigits(int n) *)
Fixpoint getNumOfDigits_loop (fuel : nat) (n numOfDigits : Z) : Z :=
  if n =? 0 then numOfDigits
  else match fuel with
       | O => numOfDigits
       | S fuel' =>
           getNumOfDigits_loop fuel' (Z.quot n DIGIT_DIVIDER) (numOfDigits + 1)
       end.

Definition getNumOfDigits (n : Z) : Z :=
  let numOfDigits := 0 in
  let numOfDigits := if n <=? 0 then numOfDigits + 1 else numOfDigits in
  if n =? 0 then numOfDigits
  else getNumOfDigits_loop (digit_fuel n) n numOfDigits.

(** static char* emptyStringAlloc(MyString *p_myString) *)
Definition emptyStringAlloc (p_myString : sptr) : M cptr :=
  let* c := malloc 1 in
  let* _ := set_chars p_myString c in
  match c with
  | None => ret None
  | Some _ =>
      let* _ := store c END_OF_C_STRING in
      let* _ := set_length p_myString EMPTY_STRING_LENGTH in
      ret c
  end.

(** MyString * myStringAlloc() *)
Definition myStringAlloc : M sptr :=
  let* p_myString := malloc_str in
  match p_myString with
  | None => ret None
  | Some _ =>
      let* c := emptyStringAlloc p_myString in
      match c with
      | None => ret None
      | Some _ => ret p_myString
      end
  end.

(** void myStringFree(MyString *str) *)
Definition myStringFree (str : sptr) : M unit :=
  match str with
  | None => ret tt
  | Some s =>
      let* v := get_str s in
      let* _ := free (_chars v) in
      let* _ := set_chars str None in
      free_str s
  end.

(** unsigned long myStringLen(const MyString *str1) *)
Definition myStringLen (str1 : sptr) : M Z :=
  match str1 with
  | None => ret (wrap_ulong MYSTRING_ERROR)
  | Some s => let* v := get_str s in ret (_length v)
  end.

(** MyStringRetVal myStringSetFromMyString(MyString *str, const MyString *other) *)
Definition myStringSetFromMyString (str other : sptr) : M Z :=
  match str, other with
  | Some _, Some _ =>
      let* o := deref other in
      if _length o =? EMPTY_STRING_LENGTH
      then
        let* c := emptyStringAlloc str in
        match c with
        | None => ret MYSTRING_ERROR
        | Some _ => ret MYSTRING_SUCCESS
        end
      else
        let* otherStringLength := myStringLen other in
        let* adjustLengthRetVal := adjustMyStringLength str otherStringLength in
        if adjustLengthRetVal =? MYSTRING_ERROR then ret MYSTRING_ERROR
        else
          let* s := deref str in
          let* o := deref other in
          let* _ := memcpy (_chars s) (_chars o) otherStringLength in
          ret MYSTRING_SUCCESS
  | _, _ => ret MYSTRING_ERROR
  end.

(** MyString * myStringClone(const MyString *str) *)
Definition myStringClone (str : sptr) : M sptr :=
  match str with
  | None => ret None
  | Some _ =>
      let* newMyString := myStringAlloc in
      let* retVal := myStringSetFromMyString newMyString str in
      if retVal =? MYSTRING_ERROR then ret None else ret newMyString
  end.

(** A filter, [bool (*filt)(const char *)], receives a pointer into the
    string, and a comparator, [int (*comparator)(const MyString *,
    const MyString *)], two struct pointers; both run in the store. *)
Definition filter_fn : Type := cptr -> M bool.
Definition comparator_fn : Type := sptr -> sptr -> M Z.

(** static unsigned long getFilteredStringLength(const char *str,
    bool (*filt)(const char *)) *)
Fixpoint getFilteredStringLength_loop (n : nat) (str : cptr) (filt : filter_fn)
    (filteredLength : Z) : M Z :=
  match n with
  | O => ret filteredLength
  | S n' =>
      let* keep := filt str in
      getFilteredStringLength_loop n' (ptr_add str 1) filt
        (if keep then filteredLength + 1 else filteredLength)
  end.

Definition getFilteredStringLength (str : cptr) (filt : filter_fn) : M Z :=
  let* unfilteredLength := getCStringLength str in
  getFilteredStringLength_loop (Z.to_nat unfilteredLength) str filt 0.

(** static void createFilteredString(char *filteredString,
    const char *unfilteredString, bool (*filt)(const char *)) *)
Fixpoint createFilteredString_loop (n : nat) (filteredString unfilteredString : cptr)
    (filt : filter_fn) : M unit :=
  match n with
  | O => ret tt
  | S n' =>
      let* keep := filt unfilteredString in
      if keep
      then
        let* c := load unfilteredString in
        let* _ := store filteredString c in
        createFilteredString_loop n' (ptr_add filteredString 1)
          (ptr_add unfilteredString 1) filt
      else
        createFilteredString_loop n' filteredString
          (ptr_add unfilteredString 1) filt
  end.

Definition createFilteredString (filteredString unfilteredString : cptr)
    (filt : filter_fn) : M unit :=
  let* unfilteredStringLength := getCStringLength unfilteredString in
  createFilteredString_loop (Z.to_nat unfilteredStringLength)
    filteredString unfilteredString filt.

(** MyStringRetVal myStringFilter(MyString *str, bool (*filt)(const char *)) *)
Definition myStringFilter (str : sptr) (filt : option filter_fn) : M Z :=
  match str, filt with
  | Some _, Some filt =>
      let* s := deref str in
      if _length s =? EMPTY_STRING_LENGTH then ret MYSTRING_SUCCESS
      else
        let* filteredStringLength := getFilteredStringLength (_chars s) filt in
        let* filteredString := myStringAlloc in
        let* adjustLengthRetVal :=
          adjustMyStringLength filteredString filteredStringLength in
        if adjustLengthRetVal =? MYSTRING_ERROR then ret MYSTRING_ERROR
        else
          let* f := deref filteredString in
          let* s := deref str in
          let* _ := createFilteredString (_chars f) (_chars s) filt in
          let* f := deref filteredString in
          let* _ := set_chars str (_chars f) in
          let* f := deref filteredString in
          let* _ := set_length str (_length f) in
          let* _ := myStringFree filteredString in
          ret MYSTRING_SUCCESS
  | _, _ => ret MYSTRING_ERROR
  end.

(** MyStringRetVal myStringSetFromCString(MyString *str, const char * cString) *)
Definition myStringSetFromCString (str : sptr) (cString : cptr) : M Z :=
  match str, cString with
  | Some _, Some _ =>
      let* cStringLength := getCStringLength cString in
      let* c := load (ptr_add cString cStringLength) in
      if negb (c =? END_OF_C_STRING) then ret MYSTRING_ERROR
      else
        let* early :=
          (if cStringLength =? 0
           then
             let* e := emptyStringAlloc str in
             match e with
             | None => ret true
             | Some _ => ret false
             end
           else ret false) in
        if early : bool then ret MYSTRING_ERROR
        else
          let* adjustLengthRetVal := adjustMyStringLength str cStringLength in
          if adjustLengthRetVal =? MYSTRING_ERROR then ret MYSTRING_ERROR
          else
            let* s := deref str in
            let* _ := memcpy (_chars s) cString cStringLength in
            ret MYSTRING_SUCCESS
  | _, _ => ret MYSTRING_ERROR
  end.

(** MyStringRetVal myStringSetFromInt(MyString *str, int n) *)
Definition myStringSetFromInt (str : sptr) (n : Z) : M Z :=
  match str with
  | None => ret MYSTRING_ERROR
  | Some _ =>
      let numOfDigits := wrap_ulong (getNumOfDigits n) in
      let* adjustLengthRetVal := adjustMyStringLength str numOfDigits in
      if adjustLengthRetVal =? MYSTRING_ERROR then ret MYSTRING_ERROR
      else
        let* s := deref str in
        let* setIndicator := sprintf_d (_chars s) n in
        if setIndicator <? 0 then ret MYSTRING_ERROR
        else ret MYSTRING_SUCCESS
  end.

(** [sscanf(src, "%d", &value)]: [src] is read as a C string, up to its NUL. *)
Definition sscanf_d (src : cptr) : M (Z * Z) :=
  let* n := getCStringLength src in
  let* text := read_bytes src (Z.to_nat n) in
  ret (scan_int text).

(** int myStringToInt(const MyString *str); the line that the function
    prints on the standard output is not part of the store. *)
Definition myStringToInt (str : sptr) : M Z :=
  match str with
  | None => ret MYSTRING_ERROR
  | Some _ =>
      let* s := deref str in
      let* scanned := sscanf_d (_chars s) in
      let '(numberOfDigits, value) := scanned in
      if numberOfDigits <=? 0 then ret MYSTR_ERROR_CODE
      else ret value
  end.

(** char * myStringToCString(const MyString *str) *)
Definition myStringToCString (str : sptr) : M cptr :=
  match str with
  | None => ret None
  | Some _ =>
      let* oldLength := myStringLen str in
      let* newString := malloc (ulong_add oldLength 1) in
      match newString with
      | None => ret None
      | Some _ =>
          let* s := deref str in
          let* _ := memcpy newString (_chars s) oldLength in
          let* _ := store (ptr_add newString oldLength) END_OF_C_STRING in
          ret newString
      end
  end.

(** MyStringRetVal myStringCat(MyString * dest, const MyString * src) *)
Definition myStringCat (dest src : sptr) : M Z :=
  match dest, src with
  | Some _, Some _ =>
      let* s := deref src in
      if _length s =? EMPTY_STRING_LENGTH then ret MYSTRING_SUCCESS
      else
        let* srcLength := myStringLen src in
        let* destLength := myStringLen dest in
        let* adjustLengthRetVal :=
          adjustMyStringLength dest (ulong_add srcLength destLength) in
        if adjustLengthRetVal =? MYSTRING_ERROR then ret MYSTRING_ERROR
        else
          let* d := deref dest in
          let* s := deref src in
          let* _ := memcpy (ptr_add (_chars d) destLength) (_chars s) srcLength in
          ret MYSTRING_SUCCESS
  | _, _ => ret MYSTRING_ERROR
  end.

(** int myStringCompare(const MyString *str1, const MyString *str2) *)
Definition myStringCompare (str1 str2 : sptr) : M Z :=
  match str1, str2 with
  | Some _, Some _ =>
      let* strLength1 := myStringLen str1 in
      let* strLength2 := myStringLen str2 in
      let* s1 := deref str1 in
      let* s2 := deref str2 in
      if strLength1 >? strLength2
      then
        let* equalUntilLength2 := memcmp (_chars s1) (_chars s2) strLength2 in
        ret (if equalUntilLength2 >=? EQUAL_STRINGS then STR1_BIGGER else STR2_BIGGER)
      else if strLength1 <? strLength2
      then
        let* equalUntilLength1 := memcmp (_chars s1) (_chars s2) strLength1 in
        ret (if equalUntilLength1 <=? EQUAL_STRINGS then STR2_BIGGER else STR1_BIGGER)
      else memcmp (_chars s1) (_chars s2) strLength1
  | _, _ => ret MYSTR_ERROR_CODE
  end.

(** The loop of myStringCustomCompare: [Some r] when an iteration returns
    [r], [None] when the loop runs to its end.  [n] iterations remain. *)
Fixpoint myStringCustomCompare_loop (n : nat) (str1 str2 : sptr)
    (comparator : comparator_fn) : M (option Z) :=
  match n with
  | O => ret None
  | S n' =>
      let* r1 := comparator str1 str2 in
      if r1 >? EQUAL_STRINGS then ret (Some STR1_BIGGER)
      else
        let* r2 := comparator str1 str2 in
        if r2 <? EQUAL_STRINGS then ret (Some STR2_BIGGER)
        else myStringCustomCompare_loop n' str1 str2 comparator
  end.

(** int myStringCustomCompare(const MyString *str1, const MyString *str2,
    int (*comparator) (const MyString *, const MyString *)) *)
Definition myStringCustomCompare (str1 str2 : sptr)
    (comparator : option comparator_fn) : M Z :=
  match str1, str2, comparator with
  | Some _, Some _, Some comparator =>
      let* strLength1 := myStringLen str1 in
      let* strLength2 := myStringLen str2 in
      let* returned :=
        myStringCustomCompare_loop
          (Z.to_nat (Z.min strLength1 strLength2)) str1 str2 comparator in
      match returned with
      | Some r => ret r
      | None =>
          if strLength1 >? strLength2 then ret STR1_BIGGER
          else if strLength1 <? strLength2 then ret STR2_BIGGER
          else ret EQUAL_STRINGS
      end
  | _, _, _ => ret MYSTR_ERROR_CODE
  end.

(** int myStringEqual(const MyString *str1, const MyString *str2) *)
Definition myStringEqual (str1 str2 : sptr) : M Z :=
  match str1, str2 with
  | Some _, Some _ =>
      let* areEqual := myStringCompare str1 str2 in
      ret (if areEqual =? EQUAL_STRINGS then TRUE else FALSE)
  | _, _ => ret MYSTR_ERROR_CODE
  end.

(** int myStringCustomEqual(const MyString *str1, const MyString *str2,
    int (*comparator) (const MyString *, const MyString *)) *)
Definition myStringCustomEqual (str1 str2 : sptr)
    (comparator : option comparator_fn) : M Z :=
  match str1, str2 with
  | Some _, Some _ =>
      let* areEqual := myStringCustomCompare str1 str2 comparator in
      ret (if areEqual =? EQUAL_STRINGS then TRUE else FALSE)
  | _, _ => ret MYSTR_ERROR_CODE
  end.

(** MyStringRetVal myStringCatTo(const MyString *str1, const MyString *str2,
    MyString *result) *)
Definition myStringCatTo (str1 str2 result : sptr) : M Z :=
  match str1, str2, result with
  | Some _, Some _, Some _ =>
      let* s1 := deref str1 in
      let* bothEmpty :=
        (if _length s1 =? EMPTY_STRING_LENGTH
         then let* s2 := deref str2 in ret (_length s2 =? EMPTY_STRING_LENGTH)
         else ret false) in
      if bothEmpty : bool
      then
        let* c := emptyStringAlloc result in
        match c with
        | Some _ => ret MYSTRING_SUCCESS
        | None => ret MYSTRING_ERROR
        end
      else
        let* strLength1 := myStringLen str1 in
        let* strLength2 := myStringLen str2 in
        let* adjustLengthRetVal :=
          adjustMyStringLength result (ulong_add strLength1 strLength2) in
        if adjustLengthRetVal =? MYSTRING_ERROR then ret MYSTRING_ERROR
        else
          let* r := deref result in
          let* s1 := deref str1 in
          let* _ := memcpy (_chars r) (_chars s1) strLength1 in
          let* r := deref result in
          let* s2 := deref str2 in
          let* _ := memcpy (ptr_add (_chars r) strLength1) (_chars s2) strLength2 in
          ret MYSTRING_SUCCESS
  | _, _, _ => ret MYSTRING_ERROR
  end.

(** unsigned long myStringMemUsage(const MyString *str1); [sizeof(MyString)]
    is 16: a pointer and an unsigned long of 8 bytes each. *)
Definition SIZEOF_MYSTRING : Z := 16.

Definition myStringMemUsage (str1 : sptr) : M Z :=
  match str1 with
  | None => ret NO_MEMORY_USAGE
  | Some s =>
      let* v := get_str s in
      ret (ulong_add SIZEOF_MYSTRING (_length v))
  end.

(** [fprintf(stream, "%s", s)]: [s] is read as a C string; the result is
    negative when the stream refuses the output. *)
Definition fprintf_s (stream : fptr) (s : cptr) : M Z :=
  match stream with
  | None => fault NullDeref
  | Some f =>
      let* v := get_file f in
      let* n := getCStringLength s in
      let* text := read_bytes s (Z.to_nat n) in
      if f_bad v then ret (-1)
      else
        let* _ := put_file f (mkFile (f_open v) (f_bad v) (f_data v ++ text)) in
        ret n
  end.

(** MyStringRetVal myStringWrite(const MyString *str, FILE *stream) *)
Definition myStringWrite (str : sptr) (stream : fptr) : M Z :=
  match stream, str with
  | Some _, Some _ =>
      let* cStr := myStringToCString str in
      let* writingIndicator := fprintf_s stream cStr in
      if writingIndicator <? 0 then ret MYSTRING_ERROR
      else
        let* _ := free cStr in
        let* _ := fclose stream in
        ret MYSTRING_SUCCESS
  | _, _ => ret MYSTRING_ERROR
  end.

(** ** Reading a store *)

(** The bytes that the instance [p] holds: the first [_length] bytes of its
    char array, when the struct is live and its [_chars] is the start of a
    live array of at least [_length] bytes. *)
Definition contents (st : State) (p : sptr) : option (list Z) :=
  match p with
  | None => None
  | Some s =>
      match strs st !! s with
      | Some (Some v) =>
          match _chars v with
          | Some (b, O) =>
              match bufs st !! b with
              | Some (Some buf) =>
                  if decide (0 <= _length v /\ (Z.to_nat (_length v) <= length buf)%nat)
                  then Some (take (Z.to_nat (_length v)) buf)
                  else None
              | _ => None
              end
          | _ => None
          end
      | _ => None
      end
  end.

(** The char array that the instance [p] points to. *)
Definition chars_block (st : State) (p : sptr) : option nat :=
  match p with
  | None => None
  | Some s =>
      match strs st !! s with
      | Some (Some v) =>
          match _chars v with
          | Some (b, _) => Some b
          | None => None
          end
      | _ => None
      end
  end.

(** The text of the C string at [p]: the bytes before the first NUL. *)
Fixpoint until_nul (bytes : list Z) : option (list Z) :=
  match bytes with
  | [] => None
  | c :: rest =>
      if c =? END_OF_C_STRING then Some []
      else match until_nul rest with
           | Some text => Some (c :: text)
           | None => None
           end
  end.

Definition c_string (st : State) (p : cptr) : option (list Z) :=
  match p with
  | None => None
  | Some (b, off) =>
      match bufs st !! b with
      | Some (Some buf) => until_nul (drop off buf)
      | _ => None
      end
  end.

(** Every coming allocation request is granted. *)
Definition all_granted (st : State) : Prop :=
  Forall (fun b => b = true) (oracle st).

(** ** Reference definitions, written from the specification *)

(** The length tiebreak of the comparisons: the longer string is bigger. *)
Definition length_tiebreak (length1 length2 : Z) : Z :=
  if length1 >? length2 then STR1_BIGGER
  else if length1 <? length2 then STR2_BIGGER
  else EQUAL_STRINGS.

(** Custom compare as the specification describes it, for a comparator that
    yields [c] on the whole pair: when both strings are non-empty the sign
    of [c] decides, and the length tiebreak when [c] is 0; when one of the
    strings is empty the comparator is not consulted. *)
Definition custom_compare_reference (length1 length2 c : Z) : Z :=
  if (length1 =? 0) || (length2 =? 0) then length_tiebreak length1 length2
  else if c >? 0 then 1
  else if c <? 0 then -1
  else length_tiebreak length1 length2.

(** A comparator that only inspects the store. *)
Definition pure_comparator (f : State -> sptr -> sptr -> Z) : comparator_fn :=
  fun str1 str2 st => Ok (f st str1 str2) st.

(** A filter that only inspects the character it is given. *)
Definition char_filter (p : Z -> bool) : filter_fn :=
  fun c => let* b := load c in ret (p (char_of_byte b)).

(** static bool filt(const char *c) of the unit tests: the lowercase
    letters strictly between 'a' and 'g'. *)
Definition filt : filter_fn :=
  char_filter (fun c => (c <? 103) && (97 <? c)).

(** The mutators of the library, applied to one instance. *)
Inductive mutation : Type :=
  | SetFromCString (cString : cptr)
  | SetFromInt (n : Z)
  | SetFromMyString (other : sptr)
  | Filter (p : Z -> bool)
  | Cat (src : sptr).

Definition mutate (str : sptr) (m : mutation) : M Z :=
  match m with
  | SetFromCString cString => myStringSetFromCString str cString
  | SetFromInt n => myStringSetFromInt str n
  | SetFromMyString other => myStringSetFromMyString str other
  | Filter p => myStringFilter str (Some (char_filter p))
  | Cat src => myStringCat str src
  end.

Fixpoint mutate_all (str : sptr) (ms : list mutation) : M unit :=
  match ms with
  | [] => ret tt
  | m :: ms' => let* _ := mutate str m in mutate_all str ms'
  end.

(** The result of myStringCompare on two instances that hold [xs] and [ys]. *)
Definition compare_result (xs ys : list Z) : Z :=
  let m := Nat.min (length xs) (length ys) in
  let c := cmp_bytes (take m xs) (take m ys) in
  if (length ys <? length xs)%nat
  then (if c >=? EQUAL_STRINGS then STR1_BIGGER else STR2_BIGGER)
  else if (length xs <? length ys)%nat
  then (if c <=? EQUAL_STRINGS then STR2_BIGGER else STR1_BIGGER)
  else c.

(** ** Predicates on stores and on computations *)

(** [preserves I m Q]: a run of [m] from a store in [I] that does not fault
    ends in a store in [I], with a result in [Q]. *)
Definition preserves {A} (I : State -> Prop) (m : M A) (Q : A -> Prop) : Prop :=
  forall st r st', I st -> m st = Ok r st' -> I st' /\ Q r.

(** A computation that only reads the store. *)
Definition read_only {A} (m : M A) : Prop :=
  forall st r st', m st = Ok r st' -> st' = st.

(** The char pointer [p] does not point into the array [ba]. *)
Definition apart (ba : nat) (p : cptr) : Prop :=
  forall b o, p = Some (b, o) -> b <> ba.

(** The struct pointer [p] is NULL or one of the structs from [n0] on. *)
Definition later_struct (n0 : nat) (p : sptr) : Prop :=
  forall s, p = Some s -> (n0 <= s)%nat.

(** The instance [a], an earlier struct than [n0], is [va], its array [ba]
    holds [bufa], and no struct from [n0] on points into [ba]. *)
Definition separate (a ba n0 : nat) (va : MyString) (bufa : list Z)
    (st : State) : Prop :=
  strs st !! a = Some (Some va) /\
  bufs st !! ba = Some (Some bufa) /\
  (a < n0)%nat /\
  (n0 <= length (strs st))%nat /\
  (forall s v, (n0 <= s)%nat -> strs st !! s = Some (Some v) ->
               apart ba (_chars v)).

(** ** Stores of the unit tests *)

(** The store at the start of a test: no instance yet, and the string
    literal ["abcz"] of myStringFilterNormal in the array 0. *)
Definition abcz_literal : State :=
  mkState [Some [97; 98; 99; 122; 0]] [] [] [] 0.

(** An instance that holds ["abcz"] in an array where a NUL byte happens to
    follow the four characters. *)
Definition abcz_padded : State :=
  mkState [Some [97; 98; 99; 122; 0]] [Some (mkMyString (Some (O, O)) 4)] [] [] 0.

(** Three instances, ["abd"], ["abcz"] and the empty string, an open
    stream, and the string literal ["Hey"] in the array 2. *)
Definition test_store : State :=
  mkState
    [Some [97; 98; 100]; Some [97; 98; 99; 122]; Some [72; 101; 121; 0]; Some [0]]
    [Some (mkMyString (Some (O, O)) 3); Some (mkMyString (Some (1%nat, O)) 4);
     Some (mkMyString (Some (3%nat, O)) 0)]
    [mkFile true false []] [] 0.

(** The codes of the decimal digits. *)
Definition is_digit_char (c : Z) : Prop := 48 <= c <= 57.

(** The bytes of a string. *)
Definition bytes_of_string (s : string) : list Z :=
  map (fun c => Z.of_nat (nat_of_ascii c)) (list_ascii_of_string s).

(** ** The unit tests of MyString.c *)

(** static int reverseMyStringCompare(const MyString *str1,
    const MyString *str2), the comparator of the unit tests. *)
Definition reverseMyStringCompare : comparator_fn := fun str1 str2 =>
  match str1, str2 with
  | Some _, Some _ =>
      let* result := myStringCompare str1 str2 in
      if result =? STR1_BIGGER then ret STR2_BIGGER
      else if result =? STR2_BIGGER then ret STR1_BIGGER
      else ret EQUAL_STRINGS
  | _, _ => ret MYSTR_ERROR_CODE
  end.

(** A store that holds the string literals of a test, the literal [i] in
    the array [i], and an open stream. *)
Definition literals (texts : list string) : State :=
  mkState (map (fun s => Some (bytes_of_string s ++ [END_OF_C_STRING])) texts)
    [] [mkFile true false []] [] 0.

Definition literal (i : nat) : cptr := Some (i, O).

(** The text of the C string at [p], for the [strcmp] of the tests. *)
Definition text_at (p : cptr) : M (list Z) :=
  let* n := getCStringLength p in read_bytes p (Z.to_nat n).

(** myStringSetFromCStringNormal *)
Definition test_set_from_c_string : M (list Z) :=
  let* str := myStringAlloc in
  let* _ := myStringSetFromCString str (literal 0) in
  let* newChars := myStringToCString str in
  text_at newChars.

(** myStringCloneNormal *)
Definition test_clone : M (list Z * list Z) :=
  let* str := myStringAlloc in
  let* _ := myStringSetFromCString str (literal 0) in
  let* clonedStr := myStringClone str in
  let* clonedChars := myStringToCString clonedStr in
  let* oldChars := myStringToCString str in
  let* c := text_at clonedChars in
  let* o := text_at oldChars in
  ret (c, o).

(** myStringCompareNormal: "abc" against "abcd", "ab" and "abc" *)
Definition test_compare (compare : sptr -> sptr -> M Z) : M (Z * Z * Z) :=
  let* str1 := myStringAlloc in
  let* _ := myStringSetFromCString str1 (literal 0) in
  let* str2 := myStringAlloc in
  let* _ := myStringSetFromCString str2 (literal 1) in
  let* r1 := compare str1 str2 in
  let* _ := myStringSetFromCString str2 (literal 2) in
  let* r2 := compare str1 str2 in
  let* _ := myStringSetFromCString str2 (literal 0) in
  let* r3 := compare str1 str2 in
  ret (r1, r2, r3).

(** myStringCatNormal, with the resulting text *)
Definition test_cat : M (Z * list Z) :=
  let* dest := myStringAlloc in
  let* _ := myStringSetFromCString dest (literal 0) in
  let* src := myStringAlloc in
  let* _ := myStringSetFromCString src (literal 1) in
  let* result := myStringCat dest src in
  let* chars := myStringToCString dest in
  let* text := text_at chars in
  ret (result, text).

(** myStringCatToNormal, with the resulting text *)
Definition test_cat_to : M (Z * list Z) :=
  let* str1 := myStringAlloc in
  let* _ := myStringSetFromCString str1 (literal 0) in
  let* str2 := myStringAlloc in
  let* _ := myStringSetFromCString str2 (literal 1) in
  let* str3 := myStringAlloc in
  let* result := myStringCatTo str1 str2 str3 in
  let* chars := myStringToCString str3 in
  let* text := text_at chars in
  ret (result, text).

(** myStringMemUsageNormal and myStringLenNormal *)
Definition test_mem_usage_len : M (Z * Z) :=
  let* str := myStringAlloc in
  let* _ := myStringSetFromCString str (literal 0) in
  let* usage := myStringMemUsage str in
  let* length := myStringLen str in
  ret (usage, length).

(** A clone of the instance 1 of [test_store] is appended to, set from a
    literal and set from another instance; the bytes of the original and of
    the clone afterwards. *)
Definition test_clone_mutate : M (option (list Z) * option (list Z)) :=
  let* clone := myStringClone (Some 1%nat) in
  let* _ :=
    mutate_all clone
      [Cat (Some O); SetFromCString (literal 2); Cat clone;
       SetFromMyString (Some O); Cat (Some 1%nat)] in
  fun st => Ok (contents st (Some 1%nat), contents st clone) st.

(** myStringFilterNormal *)
Definition test_filter : M (list Z) :=
  let* str := myStringAlloc in
  let* _ := myStringSetFromCString str (literal 0) in
  let* _ := myStringFilter str (Some filt) in
  let* newChars := myStringToCString str in
  text_at newChars.

(** myStringSetFromIntNormal *)
Definition test_set_from_int (n : Z) : M (list Z) :=
  let* str := myStringAlloc in
  let* _ := myStringSetFromInt str n in
  let* chars := myStringToCString str in
  text_at chars.

(** myStringToIntNormal *)
Definition test_to_int : M Z :=
  let* str := myStringAlloc in
  let* _ := myStringSetFromCString str (literal 0) in
  myStringToInt str.

(** myStringWriteNormal *)
Definition test_write : M Z :=
  let* str := myStringAlloc in
  let* _ := myStringSetFromCString str (literal 0) in
  myStringWrite str (Some O).

Definition result_of {A} (r : Res A) : option A :=
  match r with
  | Ok a _ => Some a
  | Err _ => None
  end.


(** ** The lexicographic order of byte sequences *)

(** The usual lexicographic comparison: the first pair of bytes that differ
    decides, and a proper prefix is smaller. *)
Fixpoint lex_compare (xs ys : list Z) : comparison :=
  match xs, ys with
  | [], [] => Eq
  | [], _ :: _ => Lt
  | _ :: _, [] => Gt
  | x :: xs', y :: ys' =>
      match x ?= y with
      | Eq => lex_compare xs' ys'
      | c => c
      end
  end.

Definition sign_of (c : comparison) : Z :=
  match c with
  | Eq => 0
  | Lt => -1
  | Gt => 1
  end.

Definition lex_le (xs ys : list Z) : Prop := lex_compare xs ys <> Gt.

(** The bytes of [text] whose character satisfies [p], in their order. *)
Definition kept_chars (p : Z -> bool) (text : list Z) : list Z :=
  List.filter (fun b => p (char_of_byte b)) text.

(** * Proofs *)

(** ** Running a computation *)

Lemma bind_ok {A B} (m : M A) (k : A -> M B) st a st' :
  m st = Ok a st' -> bind m k st = k a st'.
Proof. intros H. unfold bind. now rewrite H. Qed.

Lemma bind_fail {A B} (m : M A) (k : A -> M B) st f :
  m st = Err f -> bind m k st = Err f.
Proof. intros H. unfold bind. now rewrite H. Qed.

Lemma get_buf_ok st b buf :
  bufs st !! b = Some (Some buf) -> get_buf b st = Ok buf st.
Proof. intros H. unfold get_buf. now rewrite H. Qed.

Lemma get_str_ok st s v :
  strs st !! s = Some (Some v) -> get_str s st = Ok v st.
Proof. intros H. unfold get_str. now rewrite H. Qed.

Lemma read_bytes_ok st b off n buf :
  bufs st !! b = Some (Some buf) -> (off + n <= length buf)%nat ->
  read_bytes (Some (b, off)) n st = Ok (take n (drop off buf)) st.
Proof.
  intros H Hn. unfold read_bytes. rewrite (bind_ok _ _ _ _ _ (get_buf_ok _ _ _ H)).
  destruct (decide (off + n <= length buf)%nat); [reflexivity | lia].
Qed.

Lemma contents_inv st s xs :
  contents st (Some s) = Some xs ->
  exists v b buf,
    strs st !! s = Some (Some v) /\ _chars v = Some (b, O) /\
    bufs st !! b = Some (Some buf) /\ 0 <= _length v /\
    (Z.to_nat (_length v) <= length buf)%nat /\
    xs = take (Z.to_nat (_length v)) buf.
Proof.
  unfold contents. intros H.
  destruct (strs st !! s) as [[v|]|] eqn:Hs; try discriminate.
  destruct (_chars v) as [[b [|off]]|] eqn:Hc; try discriminate.
  destruct (bufs st !! b) as [[buf|]|] eqn:Hb; try discriminate.
  destruct (decide _) as [[H0 H1]|]; try discriminate.
  inversion H; subst. exists v, b, buf. repeat split; auto.
Qed.

Lemma contents_length st s xs v :
  contents st (Some s) = Some xs -> strs st !! s = Some (Some v) ->
  _length v = Z.of_nat (length xs).
Proof.
  intros H Hs. apply contents_inv in H as (v' & b & buf & Hs' & _ & _ & H0 & H1 & ->).
  rewrite Hs in Hs'. inversion Hs'; subst. rewrite length_take. lia.
Qed.

Lemma cmp_bytes_refl xs : cmp_bytes xs xs = 0.
Proof. induction xs as [|x xs IH]; simpl; [reflexivity|]. now rewrite Z.eqb_refl. Qed.

Lemma cmp_bytes_first_diff xs ys i x y :
  take i xs = take i ys -> xs !! i = Some x -> ys !! i = Some y -> x <> y ->
  cmp_bytes xs ys = x - y.
Proof.
  revert xs ys. induction i as [|i IH]; intros [|a xs] [|b ys] Ht Hx Hy Hne;
    simpl in *; try discriminate.
  - inversion Hx; inversion Hy; subst. destruct (Z.eqb_spec x y); [contradiction|reflexivity].
  - inversion Ht; subst. rewrite Z.eqb_refl. now apply IH.
Qed.

Lemma cmp_bytes_zero xs ys :
  length xs = length ys -> cmp_bytes xs ys = 0 -> xs = ys.
Proof.
  revert ys. induction xs as [|x xs IH]; intros [|y ys] Hl Hc; simpl in *; try discriminate; auto.
  destruct (Z.eqb_spec x y); [subst; f_equal; apply IH; auto; lia | lia].
Qed.

Lemma cmp_bytes_take m xs ys i x y :
  (i < m)%nat ->
  take i xs = take i ys -> xs !! i = Some x -> ys !! i = Some y -> x <> y ->
  cmp_bytes (take m xs) (take m ys) = x - y.
Proof.
  intros Hi Ht Hx Hy Hne. apply (cmp_bytes_first_diff _ _ i).
  - rewrite !take_take. replace (i `min` m)%nat with i by lia. exact Ht.
  - rewrite lookup_take_lt; auto.
  - rewrite lookup_take_lt; auto.
  - exact Hne.
Qed.


(** ** Runs of the store operations *)

Lemma bind_assoc {A B C} (m : M A) (k : A -> M B) (k' : B -> M C) st :
  bind (bind m k) k' st = bind m (fun a => bind (k a) k') st.
Proof. unfold bind. destruct (m st); reflexivity. Qed.

Lemma lookup_snoc_new {A} (l : list A) x : (l ++ [x]) !! length l = Some x.
Proof. rewrite lookup_app_r by lia. now rewrite Nat.sub_diag. Qed.

Lemma lookup_snoc_old {A} (l : list A) x i y :
  l !! i = Some y -> (l ++ [x]) !! i = Some y.
Proof. intros H. rewrite lookup_app_l; [exact H | eapply lookup_lt_Some; eauto]. Qed.

Lemma lookup_insert_same {A} (l : list A) i x y :
  l !! i = Some y -> <[i := x]> l !! i = Some x.
Proof. intros H. apply list_lookup_insert_eq. eapply lookup_lt_Some; eauto. Qed.

Lemma lookup_insert_other {A} (l : list A) i j x y :
  i <> j -> l !! j = Some y -> <[i := x]> l !! j = Some y.
Proof. intros Hne H. now rewrite list_lookup_insert_ne. Qed.

Lemma lookup_snoc_at {A} (l : list A) x i :
  i = length l -> (l ++ [x]) !! i = Some x.
Proof. intros ->. apply lookup_snoc_new. Qed.

(** Arithmetic on the sizes of updated lists. *)
Ltac len :=
  cbn [bufs strs files oracle junk] in *;
  repeat (progress (rewrite ?length_insert, ?length_app, ?length_take,
                     ?length_drop, ?length_replicate in * ));
  cbn [length] in *; lia.

(** Solving a lookup in a store that was built by appending and updating. *)
Ltac look :=
  cbn [bufs strs files oracle junk];
  first
    [ eassumption
    | apply lookup_snoc_at; len
    | eapply lookup_insert_same; look
    | eapply lookup_insert_other; [len | look]
    | eapply lookup_snoc_old; look ].

Lemma malloc_run st n :
  hd true (oracle st) = true ->
  malloc n st =
  Ok (Some (length (bufs st), O))
     (mkState (bufs st ++ [Some (replicate (Z.to_nat n) (junk st))])
        (strs st) (files st) (tl (oracle st)) (junk st)).
Proof. intros H. unfold malloc, next_request, bind. rewrite H. reflexivity. Qed.

Lemma malloc_str_run st :
  hd true (oracle st) = true ->
  malloc_str st =
  Ok (Some (length (strs st)))
     (mkState (bufs st) (strs st ++ [Some (mkMyString None (junk st))])
        (files st) (tl (oracle st)) (junk st)).
Proof. intros H. unfold malloc_str, next_request, bind. rewrite H. reflexivity. Qed.

Lemma realloc_run st b old n :
  bufs st !! b = Some (Some old) -> hd true (oracle st) = true ->
  realloc (Some (b, O)) n st =
  Ok (Some (length (bufs st), O))
     (mkState
        (<[b := None]> (bufs st) ++
         [Some (take (Z.to_nat n) old ++
                replicate (Z.to_nat n - length old) (junk st))])
        (strs st) (files st) (tl (oracle st)) (junk st)).
Proof.
  intros Hb H. unfold realloc. rewrite (bind_ok _ _ _ _ _ (get_buf_ok _ _ _ Hb)).
  destruct (decide (0%nat = 0%nat)); [|congruence].
  unfold next_request, bind. rewrite H. reflexivity.
Qed.

Lemma store_run st b off bytes v :
  bufs st !! b = Some (Some bytes) -> (off < length bytes)%nat ->
  store (Some (b, off)) v st =
  Ok tt (mkState (<[b := Some (<[off := v]> bytes)]> (bufs st))
           (strs st) (files st) (oracle st) (junk st)).
Proof.
  intros Hb H. unfold store. rewrite (bind_ok _ _ _ _ _ (get_buf_ok _ _ _ Hb)).
  destruct (decide _); [reflexivity | lia].
Qed.

Lemma write_bytes_run st b off bytes data :
  bufs st !! b = Some (Some bytes) -> (off + length data <= length bytes)%nat ->
  write_bytes (Some (b, off)) data st =
  Ok tt (mkState
           (<[b := Some (take off bytes ++ data ++ drop (off + length data) bytes)]>
              (bufs st))
           (strs st) (files st) (oracle st) (junk st)).
Proof.
  intros Hb H. unfold write_bytes. rewrite (bind_ok _ _ _ _ _ (get_buf_ok _ _ _ Hb)).
  destruct (decide _); [reflexivity | lia].
Qed.

Lemma free_run st b bytes :
  bufs st !! b = Some (Some bytes) ->
  free (Some (b, O)) st =
  Ok tt (mkState (<[b := None]> (bufs st)) (strs st) (files st) (oracle st) (junk st)).
Proof.
  intros Hb. unfold free. rewrite (bind_ok _ _ _ _ _ (get_buf_ok _ _ _ Hb)).
  destruct (decide (0%nat = 0%nat)); [reflexivity|congruence].
Qed.

Lemma memcpy_run st bd od dst bs os src n :
  bufs st !! bd = Some (Some dst) -> bufs st !! bs = Some (Some src) ->
  (od + Z.to_nat n <= length dst)%nat -> (os + Z.to_nat n <= length src)%nat ->
  bd <> bs \/ (os + Z.to_nat n <= od)%nat \/ (od + Z.to_nat n <= os)%nat ->
  memcpy (Some (bd, od)) (Some (bs, os)) n st =
  Ok tt (mkState
           (<[bd := Some (take od dst ++ take (Z.to_nat n) (drop os src) ++
                          drop (od + Z.to_nat n) dst)]> (bufs st))
           (strs st) (files st) (oracle st) (junk st)).
Proof.
  intros Hd Hs Hnd Hns Hdis. unfold memcpy.
  rewrite (bind_ok _ _ _ _ _ (read_bytes_ok _ _ _ _ _ Hs Hns)).
  rewrite (bind_ok _ _ _ _ _ (read_bytes_ok _ _ _ _ _ Hd Hnd)).
  assert (Hov : ranges_overlap (Some (bd, od)) (Some (bs, os)) (Z.to_nat n) = false).
  { unfold ranges_overlap. rewrite !andb_false_iff, !bool_decide_eq_false. 
    destruct Hdis as [H|[H|H]]; [left; left; exact H | left; right; lia | right; lia]. }
  rewrite Hov.
  assert (Hlen : length (take (Z.to_nat n) (drop os src)) = Z.to_nat n).
  { rewrite length_take, length_drop. lia. }
  rewrite (write_bytes_run _ _ _ _ _ Hd) by (rewrite Hlen; lia).
  now rewrite Hlen.
Qed.

Lemma put_str_run st s v0 v :
  strs st !! s = Some (Some v0) ->
  put_str s v st =
  Ok tt (mkState (bufs st) (<[s := Some v]> (strs st)) (files st) (oracle st) (junk st)).
Proof.
  intros Hs. unfold put_str. rewrite (bind_ok _ _ _ _ _ (get_str_ok _ _ _ Hs)). reflexivity.
Qed.

Lemma set_chars_run st s v0 c :
  strs st !! s = Some (Some v0) ->
  set_chars (Some s) c st =
  Ok tt (mkState (bufs st) (<[s := Some (mkMyString c (_length v0))]> (strs st))
           (files st) (oracle st) (junk st)).
Proof.
  intros Hs. unfold set_chars. rewrite (bind_ok _ _ _ _ _ (get_str_ok _ _ _ Hs)).
  now rewrite (put_str_run _ _ _ _ Hs).
Qed.

Lemma set_length_run st s v0 n :
  strs st !! s = Some (Some v0) ->
  set_length (Some s) n st =
  Ok tt (mkState (bufs st) (<[s := Some (mkMyString (_chars v0) n)]> (strs st))
           (files st) (oracle st) (junk st)).
Proof.
  intros Hs. unfold set_length. rewrite (bind_ok _ _ _ _ _ (get_str_ok _ _ _ Hs)).
  now rewrite (put_str_run _ _ _ _ Hs).
Qed.

Lemma myStringLen_run st s v :
  strs st !! s = Some (Some v) -> myStringLen (Some s) st = Ok (_length v) st.
Proof.
  intros Hs. unfold myStringLen. now rewrite (bind_ok _ _ _ _ _ (get_str_ok _ _ _ Hs)).
Qed.

Lemma deref_run st s v :
  strs st !! s = Some (Some v) -> deref (Some s) st = Ok v st.
Proof. apply get_str_ok. Qed.

Lemma all_granted_hd st : all_granted st -> hd true (oracle st) = true.
Proof. unfold all_granted. destruct (oracle st); simpl; [auto | inversion 1; auto]. Qed.

Lemma Forall_tl {A} (P : A -> Prop) l : Forall P l -> Forall P (tl l).
Proof. destruct l; simpl; [auto | inversion 1; auto]. Qed.

Lemma granted_hd o : Forall (fun b => b = true) o -> hd true o = true.
Proof. destruct o; simpl; [auto | inversion 1; auto]. Qed.


(** ** C strings *)

Lemma load_ok st b off buf c :
  bufs st !! b = Some (Some buf) -> buf !! off = Some c ->
  load (Some (b, off)) st = Ok c st.
Proof.
  intros Hb Hc. unfold load. rewrite (bind_ok _ _ _ _ _ (get_buf_ok _ _ _ Hb)).
  now rewrite Hc.
Qed.

Lemma load_state p st c st' : load p st = Ok c st' -> st' = st.
Proof.
  unfold load, bind, get_buf. destruct p as [[b off]|]; [|discriminate].
  destruct (bufs st !! b) as [[buf|]|]; try discriminate.
  destruct (buf !! off); [|discriminate]. unfold ret. now inversion 1.
Qed.

Lemma until_nul_length l t : until_nul l = Some t -> (length t < length l)%nat.
Proof.
  revert t. induction l as [|c l IH]; intros t; simpl; [discriminate|].
  destruct (c =? END_OF_C_STRING).
  - inversion 1. simpl. lia.
  - destruct (until_nul l) as [t'|]; [|discriminate]. inversion 1. simpl.
    specialize (IH t' eq_refl). lia.
Qed.

Lemma getCStringLength_loop_ok st b off buf text :
  bufs st !! b = Some (Some buf) ->
  forall fuel k,
    0 <= k ->
    until_nul (drop (off + Z.to_nat k) buf) = Some text ->
    (length text <= fuel)%nat ->
    getCStringLength_loop fuel (Some (b, off)) k st =
    Ok (k + Z.of_nat (length text)) st.
Proof.
  intros Hb. induction text as [|c text IH]; intros fuel k Hk Hu Hf.
  - destruct (drop (off + Z.to_nat k) buf) as [|c rest] eqn:Hd; [discriminate|].
    simpl in Hu. destruct (Z.eqb_spec c END_OF_C_STRING) as [Hc|Hc].
    + assert (Hl : buf !! (off + Z.to_nat k)%nat = Some c).
      { rewrite <- (Nat.add_0_r (off + Z.to_nat k)), <- lookup_drop, Hd. reflexivity. }
      destruct fuel; simpl; rewrite (bind_ok _ _ _ _ _ (load_ok _ _ _ _ _ Hb Hl));
        rewrite Hc; simpl; unfold ret; f_equal; lia.
    + destruct (until_nul rest); discriminate.
  - destruct (drop (off + Z.to_nat k) buf) as [|c' rest] eqn:Hd; [discriminate|].
    simpl in Hu. destruct (Z.eqb_spec c' END_OF_C_STRING) as [Hc|Hc]; [discriminate|].
    destruct (until_nul rest) as [t|] eqn:Hr; [|discriminate].
    inversion Hu; subst c' t.
    assert (Hl : buf !! (off + Z.to_nat k)%nat = Some c).
    { rewrite <- (Nat.add_0_r (off + Z.to_nat k)), <- lookup_drop, Hd. reflexivity. }
    destruct fuel as [|fuel]; [simpl in Hf; lia|].
    simpl. rewrite (bind_ok _ _ _ _ _ (load_ok _ _ _ _ _ Hb Hl)).
    destruct (Z.eqb_spec c END_OF_C_STRING) as [|_]; [contradiction|].
    rewrite IH.
    + f_equal. simpl length. lia.
    + lia.
    + replace (off + Z.to_nat (k + 1))%nat with (S (off + Z.to_nat k)) by lia.
      rewrite <- Hr. f_equal.
      change (S (off + Z.to_nat k)) with (1 + (off + Z.to_nat k))%nat.
      rewrite Nat.add_comm, <- drop_drop, Hd. reflexivity.
    + simpl in Hf. lia.
Qed.

Lemma c_string_inv st p text :
  c_string st p = Some text ->
  exists b off buf, p = Some (b, off) /\ bufs st !! b = Some (Some buf) /\
    until_nul (drop off buf) = Some text.
Proof.
  unfold c_string. destruct p as [[b off]|]; [|discriminate].
  destruct (bufs st !! b) as [[buf|]|] eqn:Hb; try discriminate.
  intros H. now exists b, off, buf.
Qed.

Lemma getCStringLength_ok st p text :
  c_string st p = Some text ->
  getCStringLength p st = Ok (Z.of_nat (length text)) st.
Proof.
  intros H. apply c_string_inv in H as (b & off & buf & -> & Hb & Hu).
  unfold getCStringLength, buf_size. rewrite Hb.
  rewrite (getCStringLength_loop_ok st b off buf text Hb); [reflexivity | lia | | ].
  - now rewrite Nat.add_0_r.
  - apply until_nul_length in Hu. rewrite length_drop in Hu. lia.
Qed.

(** Whatever the scan returns, the byte at the returned index is NUL. *)
Lemma getCStringLength_loop_nul st p fuel k n st' :
  getCStringLength_loop fuel p k st = Ok n st' ->
  st' = st /\ load (ptr_add p n) st = Ok END_OF_C_STRING st.
Proof.
  intros Hrun.
  assert (Hstep : forall j (rest : M Z),
            (rest st = Ok n st' -> st' = st /\ load (ptr_add p n) st = Ok END_OF_C_STRING st) ->
            (let* c := load (ptr_add p j) in
             if c =? END_OF_C_STRING then ret j else rest) st = Ok n st' ->
            st' = st /\ load (ptr_add p n) st = Ok END_OF_C_STRING st).
  { intros j rest Hrest. unfold bind.
    destruct (load (ptr_add p j) st) as [c st1|] eqn:Hl; [|discriminate].
    pose proof (load_state _ _ _ _ Hl) as ->.
    destruct (Z.eqb_spec c END_OF_C_STRING) as [Hc|Hc]; [|exact Hrest].
    unfold ret. inversion 1; subst. now split. }
  revert k Hrun. induction fuel as [|fuel IH]; intros k; simpl; apply Hstep.
  - discriminate.
  - apply IH.
Qed.

Lemma getCStringLength_nul st p n st' :
  getCStringLength p st = Ok n st' ->
  st' = st /\ load (ptr_add p n) st = Ok END_OF_C_STRING st.
Proof. apply getCStringLength_loop_nul. Qed.

Lemma until_nul_take l t : until_nul l = Some t -> take (length t) l = t.
Proof.
  revert t. induction l as [|c l IH]; intros t; simpl; [discriminate|].
  destruct (c =? END_OF_C_STRING).
  - inversion 1. reflexivity.
  - destruct (until_nul l) as [t'|]; [|discriminate]. inversion 1. simpl.
    f_equal. now apply IH.
Qed.

Lemma until_nul_lookup l t : until_nul l = Some t -> l !! length t = Some END_OF_C_STRING.
Proof.
  revert t. induction l as [|c l IH]; intros t; simpl; [discriminate|].
  destruct (Z.eqb_spec c END_OF_C_STRING).
  - inversion 1. simpl. now subst.
  - destruct (until_nul l) as [t'|]; [|discriminate]. inversion 1. simpl.
    now apply IH.
Qed.

Lemma until_nul_app t rest :
  Forall (fun c => c <> END_OF_C_STRING) t ->
  until_nul (t ++ END_OF_C_STRING :: rest) = Some t.
Proof.
  induction 1 as [|c t Hc _ IH]; simpl.
  - reflexivity.
  - destruct (Z.eqb_spec c END_OF_C_STRING); [contradiction|]. now rewrite IH.
Qed.


(** ** Runs of the library functions *)

Lemma insert_snoc {A} (l : list A) x y : <[length l := y]> (l ++ [x]) = l ++ [y].
Proof. rewrite insert_app_r_alt by lia. now rewrite Nat.sub_diag. Qed.

Lemma insert_snoc_old {A} (l : list A) i x y :
  (i < length l)%nat -> <[i := y]> (l ++ [x]) = <[i := y]> l ++ [x].
Proof. intros H. now rewrite insert_app_l. Qed.

Lemma emptyStringAlloc_run st s v0 :
  strs st !! s = Some (Some v0) -> hd true (oracle st) = true ->
  emptyStringAlloc (Some s) st =
  Ok (Some (length (bufs st), O))
     (mkState (bufs st ++ [Some [END_OF_C_STRING]])
        (<[s := Some (mkMyString (Some (length (bufs st), O)) EMPTY_STRING_LENGTH)]> (strs st))
        (files st) (tl (oracle st)) (junk st)).
Proof.
  intros Hs Ho. unfold emptyStringAlloc.
  rewrite (bind_ok _ _ _ _ _ (malloc_run _ _ Ho)).
  erewrite (bind_ok (set_chars _ _)) by (apply set_chars_run; look).
  erewrite (bind_ok (store _ _)) by (eapply store_run; [look | simpl; lia]).
  erewrite (bind_ok (set_length _ _)) by (eapply set_length_run; look).
  unfold ret. cbn [bufs strs files oracle junk _chars _length].
  rewrite insert_snoc, list_insert_insert_eq. reflexivity.
Qed.

Lemma myStringAlloc_run st :
  hd true (oracle st) = true -> hd true (tl (oracle st)) = true ->
  myStringAlloc st =
  Ok (Some (length (strs st)))
     (mkState (bufs st ++ [Some [END_OF_C_STRING]])
        (strs st ++ [Some (mkMyString (Some (length (bufs st), O)) EMPTY_STRING_LENGTH)])
        (files st) (tl (tl (oracle st))) (junk st)).
Proof.
  intros H1 H2. unfold myStringAlloc.
  rewrite (bind_ok _ _ _ _ _ (malloc_str_run _ H1)).
  erewrite (bind_ok (emptyStringAlloc _)) by (eapply emptyStringAlloc_run; [look | exact H2]).
  unfold ret. cbn [bufs strs files oracle junk]. now rewrite insert_snoc.
Qed.

Lemma adjustMyStringLength_run st s v b old n :
  strs st !! s = Some (Some v) -> _chars v = Some (b, O) ->
  bufs st !! b = Some (Some old) -> hd true (oracle st) = true ->
  adjustMyStringLength (Some s) n st =
  Ok MYSTRING_SUCCESS
     (mkState
        (<[b := None]> (bufs st) ++
         [Some (take (Z.to_nat n) old ++ replicate (Z.to_nat n - length old) (junk st))])
        (<[s := Some (mkMyString (Some (length (bufs st), O)) n)]> (strs st))
        (files st) (tl (oracle st)) (junk st)).
Proof.
  intros Hs Hc Hb Ho. unfold adjustMyStringLength.
  rewrite (bind_ok _ _ _ _ _ (deref_run _ _ _ Hs)). rewrite Hc.
  rewrite (bind_ok _ _ _ _ _ (realloc_run _ _ _ _ Hb Ho)).
  erewrite (bind_ok (set_chars _ _)) by (apply set_chars_run; look).
  erewrite (bind_ok (set_length _ _)) by (eapply set_length_run; look).
  unfold ret. cbn [bufs strs files oracle junk _chars _length].
  now rewrite list_insert_insert_eq.
Qed.

(** A refused request: the struct keeps its length and loses its array. *)
Lemma adjustMyStringLength_refused st s v b old n :
  strs st !! s = Some (Some v) -> _chars v = Some (b, O) ->
  bufs st !! b = Some (Some old) -> hd true (oracle st) = false ->
  adjustMyStringLength (Some s) n st =
  Ok MYSTRING_ERROR
     (mkState (bufs st) (<[s := Some (mkMyString None (_length v))]> (strs st))
        (files st) (tl (oracle st)) (junk st)).
Proof.
  intros Hs Hc Hb Ho. unfold adjustMyStringLength.
  rewrite (bind_ok _ _ _ _ _ (deref_run _ _ _ Hs)). rewrite Hc.
  assert (Hr : realloc (Some (b, O)) n st =
               Ok None (mkState (bufs st) (strs st) (files st) (tl (oracle st)) (junk st))).
  { unfold realloc. rewrite (bind_ok _ _ _ _ _ (get_buf_ok _ _ _ Hb)).
    destruct (decide (0%nat = 0%nat)); [|congruence].
    unfold next_request, bind. rewrite Ho. reflexivity. }
  rewrite (bind_ok _ _ _ _ _ Hr).
  erewrite (bind_ok (set_chars _ _)) by (apply set_chars_run; look).
  reflexivity.
Qed.

Lemma myStringToCString_run st s xs :
  contents st (Some s) = Some xs -> hd true (oracle st) = true ->
  Z.of_nat (length xs) + 1 < ULONG_MOD ->
  myStringToCString (Some s) st =
  Ok (Some (length (bufs st), O))
     (mkState (bufs st ++ [Some (xs ++ [END_OF_C_STRING])])
        (strs st) (files st) (tl (oracle st)) (junk st)).
Proof.
  intros Hc Ho Hlen.
  pose proof (contents_inv _ _ _ Hc) as (v & b & buf & Hs & Hch & Hb & H0 & H1 & Hxs).
  pose proof (contents_length _ _ _ _ Hc Hs) as Hl.
  unfold myStringToCString.
  rewrite (bind_ok _ _ _ _ _ (myStringLen_run _ _ _ Hs)).
  assert (Hsz : ulong_add (_length v) 1 = _length v + 1).
  { unfold ulong_add, wrap_ulong. apply Z.mod_small. lia. }
  rewrite Hsz.
  rewrite (bind_ok _ _ _ _ _ (malloc_run _ _ Ho)).
  erewrite (bind_ok (deref _)) by (apply deref_run; look).
  rewrite Hch.
  assert (Hb' : (b < length (bufs st))%nat) by (eapply lookup_lt_Some; eauto).
  erewrite (bind_ok (memcpy _ _ _)).
  2:{ eapply memcpy_run; [look | look | | | left; lia].
      - rewrite length_replicate. lia.
      - lia. }
  erewrite (bind_ok (store _ _)).
  2:{ eapply store_run; [look|]. rewrite !length_app, length_take, length_drop, length_replicate. 
      simpl. rewrite ?length_take, ?length_drop, ?length_replicate. lia. }
  unfold ret. cbn [bufs strs files oracle junk]. do 2 f_equal.
  rewrite list_insert_insert_eq, insert_snoc. do 2 f_equal.
  rewrite drop_0, <- Hxs. cbn [take].
  rewrite drop_replicate, take_0, app_nil_l. f_equal.
  replace (Z.to_nat (_length v + 1) - (0 + Z.to_nat (_length v)))%nat with 1%nat by lia.
  rewrite insert_app_r_alt by lia.
  replace (0 + Z.to_nat (_length v) - length xs)%nat with 0%nat by lia.
  reflexivity.
Qed.

Lemma contents_intro st s v b buf xs :
  strs st !! s = Some (Some v) -> _chars v = Some (b, O) ->
  bufs st !! b = Some (Some buf) -> 0 <= _length v ->
  (Z.to_nat (_length v) <= length buf)%nat ->
  take (Z.to_nat (_length v)) buf = xs ->
  contents st (Some s) = Some xs.
Proof.
  intros Hs Hc Hb H0 H1 Hx. unfold contents. rewrite Hs, Hc, Hb.
  destruct (decide _) as [_|Hn]; [now rewrite Hx | lia].
Qed.

Lemma c_string_bounds l off text :
  until_nul (drop off l) = Some text -> (off + length text < length l)%nat.
Proof. intros H. apply until_nul_length in H. rewrite length_drop in H. lia. Qed.

Lemma myStringSetFromCString_run st s v b old cb off text :
  strs st !! s = Some (Some v) -> _chars v = Some (b, O) ->
  bufs st !! b = Some (Some old) ->
  c_string st (Some (cb, off)) = Some text -> cb <> b ->
  all_granted st ->
  exists st',
    myStringSetFromCString (Some s) (Some (cb, off)) st = Ok MYSTRING_SUCCESS st' /\
    contents st' (Some s) = Some text /\ all_granted st'.
Proof.
  intros Hs Hc Hb Hcs Hne Hg.
  pose proof (c_string_inv _ _ _ Hcs) as (cb' & off' & cbuf & Heq & Hcb & Hu).
  inversion Heq; subst cb' off'; clear Heq.
  pose proof (c_string_bounds _ _ _ Hu) as Hbound.
  pose proof (granted_hd _ Hg) as Ho1.
  pose proof (granted_hd _ (Forall_tl _ _ Hg)) as Ho2.
  assert (Hbl : (b < length (bufs st))%nat) by (eapply lookup_lt_Some; eauto).
  assert (Hcbl : (cb < length (bufs st))%nat) by (eapply lookup_lt_Some; eauto).
  unfold myStringSetFromCString.
  rewrite (bind_ok _ _ _ _ _ (getCStringLength_ok _ _ _ Hcs)).
  assert (Hnul : load (ptr_add (Some (cb, off)) (Z.of_nat (length text))) st =
                 Ok END_OF_C_STRING st).
  { simpl. eapply load_ok; [exact Hcb|]. rewrite Nat2Z.id.
    apply until_nul_lookup in Hu. now rewrite lookup_drop in Hu. }
  rewrite (bind_ok _ _ _ _ _ Hnul). rewrite Z.eqb_refl. cbn [negb].
  destruct text as [|c text].
  - (* the empty string: a new one-byte array, then resized to no byte *)
    change (Z.of_nat (@length Z [])) with 0. cbn [Z.eqb].
    rewrite bind_assoc.
    rewrite (bind_ok _ _ _ _ _ (emptyStringAlloc_run _ _ _ Hs Ho1)).
    unfold ret at 1. rewrite (bind_ok (fun st => Ok false st) _ _ false _ eq_refl).
    erewrite (bind_ok (adjustMyStringLength _ _)).
    2:{ eapply adjustMyStringLength_run; [look | reflexivity | look | exact Ho2]. }
    cbn [Z.eqb MYSTRING_SUCCESS MYSTRING_ERROR].
    erewrite (bind_ok (deref _)) by (apply deref_run; look).
    cbn [_chars].
    erewrite (bind_ok (memcpy _ _ _)).
    2:{ eapply memcpy_run; [look | look | simpl; lia | simpl in *; lia | left; cbn [bufs]; rewrite length_app; simpl; lia]. }
    eexists; split; [reflexivity|]. split.
    + eapply contents_intro; [look | reflexivity | look | simpl; lia | simpl; lia | reflexivity].
    + unfold all_granted. cbn [oracle]. now do 2 apply Forall_tl.
  - (* a non-empty string: one reallocation *)
    assert (Hz : (Z.of_nat (length (c :: text)) =? 0) = false).
    { apply Z.eqb_neq. simpl length. lia. }
    rewrite Hz. unfold ret at 1. rewrite (bind_ok (fun st => Ok false st) _ _ false _ eq_refl).
    rewrite (bind_ok _ _ _ _ _ (adjustMyStringLength_run _ _ _ _ _ _ Hs Hc Hb Ho1)).
    cbn [Z.eqb MYSTRING_SUCCESS MYSTRING_ERROR].
    erewrite (bind_ok (deref _)) by (apply deref_run; look).
    cbn [_chars].
    erewrite (bind_ok (memcpy _ _ _)).
    2:{ eapply memcpy_run; [look | look | | rewrite Nat2Z.id; len | left; lia].
        rewrite Nat2Z.id. len. }
    eexists; split; [reflexivity|]. split.
    + eapply contents_intro; [look | reflexivity | look | cbn [_length]; lia | | ].
      * cbn [_length]. rewrite Nat2Z.id. len.
      * cbn [_length]. rewrite Nat2Z.id, take_0, app_nil_l.
        rewrite take_app_length'; [| len].
        exact (until_nul_take _ _ Hu).
    + unfold all_granted. cbn [oracle]. now apply Forall_tl.
Qed.

Lemma chars_block_eq st s v b off :
  strs st !! s = Some (Some v) -> _chars v = Some (b, off) ->
  chars_block st (Some s) = Some b.
Proof. intros Hs Hc. unfold chars_block. now rewrite Hs, Hc. Qed.

Lemma memcmp_ok st b1 b2 buf1 buf2 n :
  bufs st !! b1 = Some (Some buf1) -> bufs st !! b2 = Some (Some buf2) ->
  (Z.to_nat n <= length buf1)%nat -> (Z.to_nat n <= length buf2)%nat ->
  memcmp (Some (b1, O)) (Some (b2, O)) n st =
  Ok (cmp_bytes (take (Z.to_nat n) buf1) (take (Z.to_nat n) buf2)) st.
Proof.
  intros H1 H2 Hn1 Hn2. unfold memcmp.
  rewrite (bind_ok _ _ _ _ _ (read_bytes_ok st b1 O _ buf1 H1 Hn1)).
  rewrite (bind_ok _ _ _ _ _ (read_bytes_ok st b2 O _ buf2 H2 Hn2)).
  reflexivity.
Qed.

Lemma myStringCompare_run st a b xs ys :
  contents st (Some a) = Some xs -> contents st (Some b) = Some ys ->
  myStringCompare (Some a) (Some b) st = Ok (compare_result xs ys) st.
Proof.
  intros Ha Hb.
  pose proof (contents_inv _ _ _ Ha) as (va & ba & bufa & Hsa & Hca & Hba & H0a & H1a & Hxs).
  pose proof (contents_inv _ _ _ Hb) as (vb & bb & bufb & Hsb & Hcb & Hbb & H0b & H1b & Hys).
  pose proof (contents_length _ _ _ _ Ha Hsa) as Hla.
  pose proof (contents_length _ _ _ _ Hb Hsb) as Hlb.
  unfold myStringCompare.
  rewrite (bind_ok _ _ _ _ _ (myStringLen_run _ _ _ Hsa)).
  rewrite (bind_ok _ _ _ _ _ (myStringLen_run _ _ _ Hsb)).
  rewrite (bind_ok _ _ _ _ _ (deref_run _ _ _ Hsa)).
  rewrite (bind_ok _ _ _ _ _ (deref_run _ _ _ Hsb)).
  rewrite Hca, Hcb.
  assert (Hta : forall n, (n <= length xs)%nat -> take n bufa = take n xs).
  { intros n Hn. rewrite Hxs, take_take. f_equal. lia. }
  assert (Htb : forall n, (n <= length ys)%nat -> take n bufb = take n ys).
  { intros n Hn. rewrite Hys, take_take. f_equal. lia. }
  unfold compare_result.
  destruct (Z.gtb_spec (_length va) (_length vb)) as [Hgt|Hle].
  - destruct (Nat.ltb_spec (length ys) (length xs)) as [_|]; [|lia].
    erewrite (bind_ok (memcmp _ _ _)) by (apply (memcmp_ok _ _ _ _ _ _ Hba Hbb); lia).
    rewrite Hta, Htb by lia.
    replace (Z.to_nat (_length vb)) with (Nat.min (length xs) (length ys)) by lia.
    reflexivity.
  - destruct (Nat.ltb_spec (length ys) (length xs)) as [|_]; [lia|].
    destruct (Z.ltb_spec (_length va) (_length vb)) as [Hlt|Hge].
    + destruct (Nat.ltb_spec (length xs) (length ys)) as [_|]; [|lia].
      erewrite (bind_ok (memcmp _ _ _)) by (apply (memcmp_ok _ _ _ _ _ _ Hba Hbb); lia).
      rewrite Hta, Htb by lia.
      replace (Z.to_nat (_length va)) with (Nat.min (length xs) (length ys)) by lia.
      reflexivity.
    + destruct (Nat.ltb_spec (length xs) (length ys)) as [|_]; [lia|].
      rewrite (memcmp_ok _ _ _ _ _ _ Hba Hbb) by lia.
      rewrite Hta, Htb by lia.
      replace (Z.to_nat (_length va)) with (Nat.min (length xs) (length ys)) by lia.
      reflexivity.
Qed.

Lemma myStringSetFromMyString_run st s v b old o ys :
  strs st !! s = Some (Some v) -> _chars v = Some (b, O) ->
  bufs st !! b = Some (Some old) ->
  contents st (Some o) = Some ys ->
  chars_block st (Some o) <> Some b ->
  all_granted st ->
  exists st',
    myStringSetFromMyString (Some s) (Some o) st = Ok MYSTRING_SUCCESS st' /\
    contents st' (Some s) = Some ys.
Proof.
  intros Hs Hc Hb Ho Hne Hg.
  pose proof (contents_inv _ _ _ Ho) as (vo & bo & bufo & Hso & Hco & Hbo & H0o & H1o & Hys).
  pose proof (contents_length _ _ _ _ Ho Hso) as Hlo.
  pose proof (granted_hd _ Hg) as Ho1.
  assert (Hbl : (b < length (bufs st))%nat) by (eapply lookup_lt_Some; eauto).
  assert (Hbol : (bo < length (bufs st))%nat) by (eapply lookup_lt_Some; eauto).
  assert (Hbb : bo <> b).
  { rewrite (chars_block_eq _ _ _ _ _ Hso Hco) in Hne. congruence. }
  unfold myStringSetFromMyString.
  rewrite (bind_ok _ _ _ _ _ (deref_run _ _ _ Hso)).
  destruct (Z.eqb_spec (_length vo) EMPTY_STRING_LENGTH) as [Hz|Hz].
  - rewrite (bind_ok _ _ _ _ _ (emptyStringAlloc_run _ _ _ Hs Ho1)).
    eexists; split; [reflexivity|].
    eapply contents_intro;
      [look | reflexivity | look | cbn [_length]; unfold EMPTY_STRING_LENGTH; lia
      | cbn [_length]; unfold EMPTY_STRING_LENGTH; simpl; lia |].
    cbn [_length]. rewrite Hys, Hz. reflexivity.
  - rewrite (bind_ok _ _ _ _ _ (myStringLen_run _ _ _ Hso)).
    rewrite (bind_ok _ _ _ _ _ (adjustMyStringLength_run _ _ _ _ _ _ Hs Hc Hb Ho1)).
    cbn [Z.eqb MYSTRING_SUCCESS MYSTRING_ERROR].
    erewrite (bind_ok (deref _)) by (apply deref_run; look).
    destruct (decide (s = o)) as [->|Hso'].
    { (* the instance itself: its array is [b] *) congruence. }
    erewrite (bind_ok (deref _)) by (apply deref_run; look).
    rewrite Hco. cbn [_chars].
    erewrite (bind_ok (memcpy _ _ _)).
    2:{ eapply memcpy_run; [look | look | len | lia | left; lia]. }
    eexists; split; [reflexivity|].
    eapply contents_intro; [look | reflexivity | look | cbn [_length]; lia | | ].
    + cbn [_length]. len.
    + cbn [_length]. rewrite take_0, app_nil_l, drop_0.
      rewrite take_app_length'; [| len]. now rewrite Hys.
Qed.

Lemma c_string_intro st cb pre s post :
  bufs st !! cb = Some (Some (pre ++ s ++ END_OF_C_STRING :: post)) ->
  Forall (fun c => c <> END_OF_C_STRING) s ->
  c_string st (Some (cb, length pre)) = Some s.
Proof.
  intros Hb Hs. unfold c_string. rewrite Hb, drop_app_length.
  now apply until_nul_app.
Qed.

Lemma myStringClone_run st a xs :
  contents st (Some a) = Some xs -> all_granted st ->
  exists st',
    myStringClone (Some a) st = Ok (Some (length (strs st))) st' /\
    contents st' (Some (length (strs st))) = Some xs.
Proof.
  intros Ha Hg.
  pose proof (contents_inv _ _ _ Ha) as (va & ba & bufa & Hsa & Hca & Hba & H0a & H1a & Hxs).
  pose proof (granted_hd _ Hg) as Ho1.
  pose proof (granted_hd _ (Forall_tl _ _ Hg)) as Ho2.
  assert (Hbal : (ba < length (bufs st))%nat) by (eapply lookup_lt_Some; eauto).
  unfold myStringClone.
  rewrite (bind_ok _ _ _ _ _ (myStringAlloc_run _ Ho1 Ho2)).
  set (st1 := mkState _ _ _ _ _).
  assert (Ha1 : contents st1 (Some a) = Some xs).
  { eapply contents_intro; [subst st1; look | exact Hca | subst st1; look | | | ]; auto. }
  destruct (myStringSetFromMyString_run st1 (length (strs st))
              (mkMyString (Some (length (bufs st), O)) EMPTY_STRING_LENGTH)
              (length (bufs st)) [END_OF_C_STRING] a xs)
    as (st2 & Hrun & Hc2); try (subst st1; look); auto.
  - rewrite (chars_block_eq st1 a va ba O); [intros H; inversion H; lia | subst st1; look | exact Hca].
  - unfold all_granted. subst st1. cbn [oracle]. now do 2 apply Forall_tl.
  - rewrite (bind_ok _ _ _ _ _ Hrun). cbn [Z.eqb MYSTRING_SUCCESS MYSTRING_ERROR].
    eexists. split; [reflexivity | exact Hc2].
Qed.


(** ** Inverting a run *)

Lemma bind_inv {A B} (m : M A) (k : A -> M B) st r st' :
  bind m k st = Ok r st' -> exists a st1, m st = Ok a st1 /\ k a st1 = Ok r st'.
Proof. unfold bind. destruct (m st) as [a st1|]; [eauto | discriminate]. Qed.

Lemma ret_inv {A} (a r : A) st st' : ret a st = Ok r st' -> r = a /\ st' = st.
Proof. unfold ret. now inversion 1. Qed.

Lemma get_str_inv s st v st' :
  get_str s st = Ok v st' -> st' = st /\ strs st !! s = Some (Some v).
Proof.
  unfold get_str. destruct (strs st !! s) as [[v'|]|]; try discriminate.
  now inversion 1.
Qed.

Lemma get_buf_inv b st bytes st' :
  get_buf b st = Ok bytes st' -> st' = st /\ bufs st !! b = Some (Some bytes).
Proof.
  unfold get_buf. destruct (bufs st !! b) as [[v'|]|]; try discriminate.
  now inversion 1.
Qed.

Lemma deref_inv p st v st' :
  deref p st = Ok v st' ->
  st' = st /\ exists s, p = Some s /\ strs st !! s = Some (Some v).
Proof.
  destruct p as [s|]; [|discriminate]. simpl. intros H.
  apply get_str_inv in H as [-> H]. eauto.
Qed.

Lemma put_str_inv s v st x st' :
  put_str s v st = Ok x st' ->
  st' = mkState (bufs st) (<[s := Some v]> (strs st)) (files st) (oracle st) (junk st) /\
  exists v0, strs st !! s = Some (Some v0).
Proof.
  unfold put_str. intros H. apply bind_inv in H as (v0 & st1 & H1 & H2).
  apply get_str_inv in H1 as [-> H1]. inversion H2. eauto.
Qed.

Lemma set_chars_inv p c st x st' :
  set_chars p c st = Ok x st' ->
  exists s v0, p = Some s /\ strs st !! s = Some (Some v0) /\
    st' = mkState (bufs st) (<[s := Some (mkMyString c (_length v0))]> (strs st))
            (files st) (oracle st) (junk st).
Proof.
  destruct p as [s|]; [|discriminate]. simpl. intros H.
  apply bind_inv in H as (v0 & st1 & H1 & H2).
  apply get_str_inv in H1 as [-> H1]. apply put_str_inv in H2 as [-> _]. eauto.
Qed.

Lemma set_length_inv p n st x st' :
  set_length p n st = Ok x st' ->
  exists s v0, p = Some s /\ strs st !! s = Some (Some v0) /\
    st' = mkState (bufs st) (<[s := Some (mkMyString (_chars v0) n)]> (strs st))
            (files st) (oracle st) (junk st).
Proof.
  destruct p as [s|]; [|discriminate]. simpl. intros H.
  apply bind_inv in H as (v0 & st1 & H1 & H2).
  apply get_str_inv in H1 as [-> H1]. apply put_str_inv in H2 as [-> _]. eauto.
Qed.

Lemma store_inv p v st x st' :
  store p v st = Ok x st' ->
  exists b off bytes, p = Some (b, off) /\ bufs st !! b = Some (Some bytes) /\
    (off < length bytes)%nat /\
    st' = mkState (<[b := Some (<[off := v]> bytes)]> (bufs st))
            (strs st) (files st) (oracle st) (junk st).
Proof.
  destruct p as [[b off]|]; [|discriminate]. simpl. intros H.
  apply bind_inv in H as (bytes & st1 & H1 & H2).
  apply get_buf_inv in H1 as [-> H1].
  destruct (decide _); [|discriminate]. inversion H2. eauto 10.
Qed.

Lemma malloc_inv n st c st' :
  malloc n st = Ok c st' ->
  (hd true (oracle st) = true /\ c = Some (length (bufs st), O) /\
   st' = mkState (bufs st ++ [Some (replicate (Z.to_nat n) (junk st))])
           (strs st) (files st) (tl (oracle st)) (junk st)) \/
  (hd true (oracle st) = false /\ c = None /\
   st' = mkState (bufs st) (strs st) (files st) (tl (oracle st)) (junk st)).
Proof.
  unfold malloc, next_request, bind.
  destruct (hd true (oracle st)); inversion 1; auto.
Qed.

Lemma realloc_inv p n st c st' :
  realloc p n st = Ok c st' ->
  (hd true (oracle st) = true /\ c = Some (length (bufs st), O) /\
   oracle st' = tl (oracle st)) \/
  (hd true (oracle st) = false /\ c = None /\
   st' = mkState (bufs st) (strs st) (files st) (tl (oracle st)) (junk st)).
Proof.
  destruct p as [[b off]|]; simpl.
  - intros H. apply bind_inv in H as (old & st1 & H1 & H2).
    apply get_buf_inv in H1 as [-> H1].
    destruct (decide _); [|discriminate].
    unfold next_request, bind in H2.
    destruct (hd true (oracle st)); inversion H2; auto.
  - intros H. apply malloc_inv in H as [(? & ? & ->)|(? & ? & ->)]; auto.
Qed.

Lemma emptyStringAlloc_inv p st c st' :
  emptyStringAlloc p st = Ok c st' ->
  oracle st' = tl (oracle st) /\ (c = None -> hd true (oracle st) = false).
Proof.
  unfold emptyStringAlloc. intros H.
  apply bind_inv in H as (c0 & st1 & H1 & H).
  apply bind_inv in H as (x & st2 & H2 & H).
  apply set_chars_inv in H2 as (s & v0 & -> & Hs & ->).
  apply malloc_inv in H1 as [(Ho & -> & ->)|(Ho & -> & ->)].
  - apply bind_inv in H as (x1 & st3 & H3 & H).
    apply bind_inv in H as (x2 & st4 & H4 & H).
    apply store_inv in H3 as (b & off & bytes & _ & _ & _ & ->).
    apply set_length_inv in H4 as (s' & v1 & _ & _ & ->).
    apply ret_inv in H as [-> ->]. split; [reflexivity | discriminate].
  - apply ret_inv in H as [-> ->]. split; [reflexivity | auto].
Qed.

Lemma adjustMyStringLength_inv p n st r st' :
  adjustMyStringLength p n st = Ok r st' ->
  oracle st' = tl (oracle st) /\
  (r = MYSTRING_ERROR -> hd true (oracle st) = false).
Proof.
  unfold adjustMyStringLength. intros H.
  apply bind_inv in H as (v & st1 & H1 & H).
  apply deref_inv in H1 as [-> _].
  apply bind_inv in H as (c & st1 & H1 & H).
  apply bind_inv in H as (x & st2 & H2 & H).
  apply set_chars_inv in H2 as (s & v0 & _ & _ & ->).
  apply realloc_inv in H1 as [(Ho & -> & Hor)|(Ho & -> & ->)].
  - apply bind_inv in H as (x1 & st3 & H3 & H).
    apply set_length_inv in H3 as (s' & v1 & _ & _ & ->).
    apply ret_inv in H as [-> ->]. split; [exact Hor | discriminate].
  - apply ret_inv in H as [-> ->]. split; [reflexivity | auto].
Qed.

Lemma get_file_inv f st v st' :
  get_file f st = Ok v st' -> st' = st /\ files st !! f = Some v /\ f_open v = true.
Proof.
  unfold get_file. destruct (files st !! f) as [v'|]; [|discriminate].
  destruct (f_open v') eqn:Ho; [|discriminate].
  intros H; inversion H; subst; auto.
Qed.

Lemma get_file_ok f st v :
  files st !! f = Some v -> f_open v = true -> get_file f st = Ok v st.
Proof. intros H Ho. unfold get_file. now rewrite H, Ho. Qed.

Lemma fclose_inv stream st x st' :
  fclose stream st = Ok x st' ->
  exists f v, stream = Some f /\ files st' !! f = Some v /\ f_open v = false.
Proof.
  destruct stream as [f|]; [|discriminate]. simpl. intros H.
  apply bind_inv in H as (v & st1 & H1 & H).
  apply get_file_inv in H1 as (-> & Hf & _).
  apply bind_inv in H as (u & st2 & H2 & H).
  unfold put_file in H2. inversion H2; subst st2.
  apply ret_inv in H as [_ ->].
  exists f, (mkFile false (f_bad v) (f_data v)). repeat split.
  cbn [files set_files]. eapply lookup_insert_same. exact Hf.
Qed.

Lemma until_nul_total xs : exists t, until_nul (xs ++ [END_OF_C_STRING]) = Some t.
Proof.
  induction xs as [|c xs [t IH]]; simpl.
  - eauto.
  - destruct (c =? END_OF_C_STRING); [eauto|]. rewrite IH. eauto.
Qed.


(** ** Digits *)

Lemma decimal_loop_length fuel :
  forall m k acc,
    0 < m < 2 ^ Z.of_nat fuel ->
    getNumOfDigits_loop fuel m k - k =
    Z.of_nat (length (decimal_loop fuel m acc)) - Z.of_nat (length acc).
Proof.
  induction fuel as [|fuel IH]; intros m k acc Hm.
  - simpl in Hm. lia.
  - cbn [getNumOfDigits_loop decimal_loop].
    destruct (Z.eqb_spec m 0) as [|_]; [lia|].
    unfold DIGIT_DIVIDER. rewrite Z.quot_div_nonneg by lia.
    assert (Hdiv : 0 <= m / 10 < 2 ^ Z.of_nat fuel).
    { split; [apply Z.div_pos; lia|].
      apply Z.div_lt_upper_bound; [lia|].
      rewrite Nat2Z.inj_succ, Z.pow_succ_r in Hm by lia. lia. }
    destruct (Z.eqb_spec (m / 10) 0) as [Hz|Hz].
    + rewrite Hz. destruct fuel; simpl; lia.
    + specialize (IH (m / 10) (k + 1) ((48 + m mod 10) :: acc) ltac:(lia)).
      cbn [length] in IH. lia.
Qed.

Lemma getNumOfDigits_loop_opp fuel :
  forall n k, getNumOfDigits_loop fuel (- n) k = getNumOfDigits_loop fuel n k.
Proof.
  induction fuel as [|fuel IH]; intros n k; cbn [getNumOfDigits_loop].
  - destruct (Z.eqb_spec (- n) 0), (Z.eqb_spec n 0); auto; lia.
  - destruct (Z.eqb_spec (- n) 0), (Z.eqb_spec n 0); auto; try lia.
    rewrite Z.quot_opp_l by (unfold DIGIT_DIVIDER; lia). apply IH.
Qed.

Lemma digit_fuel_bound n : n <> 0 -> 0 < Z.abs n < 2 ^ Z.of_nat (digit_fuel n).
Proof.
  intros Hn. unfold digit_fuel.
  rewrite Nat2Z.inj_succ, Z2Nat.id by apply Z.log2_nonneg.
  pose proof (Z.log2_spec (Z.abs n) ltac:(lia)). lia.
Qed.

(** The count of getNumOfDigits is the number of characters that [%d]
    prints, sign included. *)
Lemma getNumOfDigits_decimal n : getNumOfDigits n = Z.of_nat (length (decimal n)).
Proof.
  unfold getNumOfDigits, decimal.
  destruct (Z.eqb_spec n 0) as [->|Hn]; [reflexivity|].
  pose proof (digit_fuel_bound n Hn) as Hb.
  destruct (Z.leb_spec n 0) as [Hle|Hgt].
  - destruct (Z.ltb_spec n 0) as [Hlt|]; [|lia].
    rewrite <- getNumOfDigits_loop_opp.
    pose proof (decimal_loop_length (digit_fuel n) (- n) (0 + 1) [] ltac:(lia)) as H.
    cbn [length] in *. lia.
  - destruct (Z.ltb_spec n 0) as [|_]; [lia|].
    pose proof (decimal_loop_length (digit_fuel n) n 0 [] ltac:(lia)) as H.
    cbn [length] in *. lia.
Qed.

Lemma decimal_loop_short fuel :
  forall m acc, (length (decimal_loop fuel m acc) <= S fuel + length acc)%nat.
Proof.
  induction fuel as [|fuel IH]; intros m acc; cbn [decimal_loop].
  - destruct (_ =? _); simpl; lia.
  - destruct (_ =? _); [simpl; lia|].
    specialize (IH (m / 10) ((48 + m mod 10) :: acc)). simpl in IH. lia.
Qed.

Lemma decimal_loop_grows fuel :
  forall m acc, (length acc < length (decimal_loop fuel m acc))%nat.
Proof.
  induction fuel as [|fuel IH]; intros m acc; cbn [decimal_loop].
  - destruct (_ =? _); simpl; lia.
  - destruct (_ =? _); [simpl; lia|].
    specialize (IH (m / 10) ((48 + m mod 10) :: acc)). simpl in IH. lia.
Qed.

Lemma decimal_length_int n :
  in_int n = true -> (1 <= length (decimal n) <= 34)%nat.
Proof.
  unfold in_int, INT_MIN, INT_MAX. rewrite andb_true_iff, !Z.leb_le. intros Hn.
  assert (Hf : (digit_fuel n <= 32)%nat).
  { unfold digit_fuel.
    assert (H : Z.log2 (Z.abs n) <= Z.log2 (2 ^ 31)) by (apply Z.log2_le_mono; lia).
    rewrite Z.log2_pow2 in H by lia. lia. }
  unfold decimal. destruct (n <? 0).
  - pose proof (decimal_loop_short (digit_fuel n) (- n) []).
    pose proof (decimal_loop_grows (digit_fuel n) (- n) []).
    cbn [length] in *. lia.
  - pose proof (decimal_loop_short (digit_fuel n) n []).
    pose proof (decimal_loop_grows (digit_fuel n) n []).
    cbn [length] in *. lia.
Qed.

Lemma write_bytes_overflow st b off bytes data :
  bufs st !! b = Some (Some bytes) -> (length bytes < off + length data)%nat ->
  write_bytes (Some (b, off)) data st = Err OutOfBounds.
Proof.
  intros Hb H. unfold write_bytes. rewrite (bind_ok _ _ _ _ _ (get_buf_ok _ _ _ Hb)).
  destruct (decide _); [lia | reflexivity].
Qed.

(** Setting an instance from an int writes one byte past the array that was
    just resized to the number of digits. *)
Lemma myStringSetFromInt_overflow st s v b old n :
  strs st !! s = Some (Some v) -> _chars v = Some (b, O) ->
  bufs st !! b = Some (Some old) -> hd true (oracle st) = true ->
  in_int n = true ->
  myStringSetFromInt (Some s) n st = Err OutOfBounds.
Proof.
  intros Hs Hc Hb Ho Hn.
  pose proof (decimal_length_int n Hn) as Hd.
  unfold myStringSetFromInt.
  assert (Hw : wrap_ulong (getNumOfDigits n) = Z.of_nat (length (decimal n))).
  { rewrite getNumOfDigits_decimal. unfold wrap_ulong, ULONG_MOD.
    apply Z.mod_small. lia. }
  rewrite Hw.
  rewrite (bind_ok _ _ _ _ _ (adjustMyStringLength_run _ _ _ _ _ _ Hs Hc Hb Ho)).
  cbn [Z.eqb MYSTRING_SUCCESS MYSTRING_ERROR].
  erewrite (bind_ok (deref _)) by (apply deref_run; look).
  cbn [_chars].
  erewrite (bind_fail (sprintf_d _ _)); [reflexivity|].
  unfold sprintf_d.
  erewrite (bind_fail (write_bytes _ _)); [reflexivity|].
  eapply write_bytes_overflow; [look|]. rewrite Nat2Z.id. len.
Qed.


(** More fuel than the number of binary digits changes nothing: both loops
    stop because the number is exhausted. *)
Lemma getNumOfDigits_loop_fuel fuel :
  forall extra n k,
    Z.abs n < 2 ^ Z.of_nat fuel ->
    getNumOfDigits_loop (fuel + extra) n k = getNumOfDigits_loop fuel n k.
Proof.
  induction fuel as [|fuel IH]; intros extra n k Hn.
  - assert (n = 0) by (simpl in Hn; lia). subst n. destruct extra; reflexivity.
  - cbn [Nat.add getNumOfDigits_loop]. destruct (n =? 0); [reflexivity|].
    apply IH. unfold DIGIT_DIVIDER.
    rewrite Nat2Z.inj_succ, Z.pow_succ_r in Hn by lia.
    rewrite <- Z.quot_abs by lia. change (Z.abs 10) with 10.
    rewrite Z.quot_div_nonneg by lia.
    apply Z.div_lt_upper_bound; lia.
Qed.

Lemma decimal_loop_fuel fuel :
  forall extra m acc,
    0 <= m < 2 ^ Z.of_nat fuel ->
    decimal_loop (fuel + extra) m acc = decimal_loop fuel m acc.
Proof.
  induction fuel as [|fuel IH]; intros extra m acc Hm.
  - assert (m = 0) by (simpl in Hm; lia). subst m. destruct extra; reflexivity.
  - cbn [Nat.add decimal_loop]. destruct (m / 10 =? 0); [reflexivity|].
    apply IH. rewrite Nat2Z.inj_succ, Z.pow_succ_r in Hm by lia.
    split; [apply Z.div_pos; lia|]. apply Z.div_lt_upper_bound; lia.
Qed.


Lemma decimal_loop_digits fuel :
  forall m acc,
    0 <= m -> Forall is_digit_char acc ->
    Forall is_digit_char (decimal_loop fuel m acc).
Proof.
  induction fuel as [|fuel IH]; intros m acc Hm Hacc; cbn [decimal_loop].
  - assert (Hd : is_digit_char (48 + m mod 10)).
    { unfold is_digit_char. pose proof (Z.mod_pos_bound m 10 ltac:(lia)). lia. }
    destruct (_ =? _); constructor; auto.
  - assert (Hd : is_digit_char (48 + m mod 10)).
    { unfold is_digit_char. pose proof (Z.mod_pos_bound m 10 ltac:(lia)). lia. }
    destruct (_ =? _); [constructor; auto|].
    apply IH; [apply Z.div_pos; lia | constructor; auto].
Qed.

Lemma scan_digits_decimal_loop fuel :
  forall m acc,
    0 <= m < 2 ^ Z.of_nat fuel ->
    scan_digits (decimal_loop fuel m acc) 0 false = scan_digits acc m true.
Proof.
  induction fuel as [|fuel IH]; intros m acc Hm.
  - assert (m = 0) by (simpl in Hm; lia). subst m. reflexivity.
  - cbn [decimal_loop].
    pose proof (Z.mod_pos_bound m 10 ltac:(lia)) as Hmod.
    pose proof (Z.div_mod m 10 ltac:(lia)) as Hdm.
    assert (Hdig : is_digit (48 + m mod 10) = true).
    { unfold is_digit. apply andb_true_iff. rewrite !Z.leb_le. lia. }
    destruct (Z.eqb_spec (m / 10) 0) as [Hz|Hz].
    + cbn [scan_digits]. rewrite Hdig. f_equal. lia.
    + rewrite IH.
      * cbn [scan_digits]. rewrite Hdig. f_equal. lia.
      * rewrite Nat2Z.inj_succ, Z.pow_succ_r in Hm by lia.
        split; [apply Z.div_pos; lia|]. apply Z.div_lt_upper_bound; lia.
Qed.

(** What the code aims at: the text that [%d] prints for an int is read
    back by [%d] as that int. *)
Lemma scan_int_decimal n : in_int n = true -> scan_int (decimal n) = (1, n).
Proof.
  unfold in_int, INT_MIN, INT_MAX. rewrite andb_true_iff, !Z.leb_le. intros Hn.
  assert (Hw : wrap_int n = n).
  { unfold wrap_int. rewrite Z.mod_small by lia. lia. }
  assert (Hf : forall m, Z.abs n = m -> 0 <= m < 2 ^ Z.of_nat (digit_fuel n)).
  { intros m <-. destruct (Z.eq_dec n 0) as [->|Hne]; [simpl; lia|].
    pose proof (digit_fuel_bound n Hne). lia. }
  unfold decimal. destruct (Z.ltb_spec n 0) as [Hlt|Hge].
  - unfold scan_int. cbn [skip_spaces]. 
    change (is_space 45) with false. cbn iota.
    change (45 =? 45) with true. cbn iota.
    rewrite scan_digits_decimal_loop by (apply Hf; lia).
    cbn [scan_digits]. f_equal. replace (-1 * - n) with n by lia. exact Hw.
  - pose proof (decimal_loop_digits (digit_fuel n) n [] Hge ltac:(constructor)) as Hd.
    pose proof (scan_digits_decimal_loop (digit_fuel n) n [] (Hf n ltac:(lia))) as Hs.
    pose proof (decimal_loop_grows (digit_fuel n) n []) as Hg.
    destruct (decimal_loop (digit_fuel n) n []) as [|c rest]; [simpl in Hg; lia|].
    inversion Hd as [|? ? Hc _]; subst. unfold is_digit_char in Hc.
    unfold scan_int. cbn [skip_spaces].
    assert (Hsp : is_space c = false).
    { unfold is_space. apply orb_false_iff. split; [apply Z.eqb_neq; lia|].
      apply andb_false_iff. right. apply Z.leb_gt. lia. }
    rewrite Hsp.
    destruct (Z.eqb_spec c 45); [lia|]. destruct (Z.eqb_spec c 43); [lia|].
    rewrite Hs. cbn [scan_digits]. f_equal. rewrite Z.mul_1_l. exact Hw.
Qed.

(** [decimal] prints what the conversion of the Standard Library prints. *)
Example decimal_agrees :
  Forall (fun n => decimal n = bytes_of_string (NilZero.string_of_int (Z.to_int n)))
    [0; 7; -7; 10; 99; 100; 123456789; -123456789; INT_MAX; INT_MIN].
Proof. repeat constructor. Qed.

(** ** Frame: what a mutator leaves alone *)

Lemma preserves_bind {A B} I (m : M A) (k : A -> M B) Q R :
  preserves I m Q -> (forall a, Q a -> preserves I (k a) R) ->
  preserves I (bind m k) R.
Proof.
  intros Hm Hk st r st' HI H. apply bind_inv in H as (a & st1 & H1 & H2).
  destruct (Hm _ _ _ HI H1) as [HI1 HQ]. exact (Hk a HQ _ _ _ HI1 H2).
Qed.

Lemma preserves_ret {A} I (a : A) (Q : A -> Prop) : Q a -> preserves I (ret a) Q.
Proof. intros HQ st r st' HI H. apply ret_inv in H as [-> ->]. auto. Qed.

Lemma preserves_weaken {A} I (m : M A) (Q R : A -> Prop) :
  preserves I m Q -> (forall a, Q a -> R a) -> preserves I m R.
Proof. intros Hm HQR st r st' HI H. destruct (Hm _ _ _ HI H). auto. Qed.

Lemma preserves_fault {A} I f (Q : A -> Prop) : preserves I (fault f) Q.
Proof. intros st r st' _ H. discriminate. Qed.

Lemma preserves_read_only {A} I (m : M A) :
  read_only m -> preserves I m (fun _ => True).
Proof. intros Hm st r st' HI H. rewrite (Hm _ _ _ H). auto. Qed.

Lemma read_only_bind {A B} (m : M A) (k : A -> M B) :
  read_only m -> (forall a, read_only (k a)) -> read_only (bind m k).
Proof.
  intros Hm Hk st r st' H. apply bind_inv in H as (a & st1 & H1 & H2).
  rewrite (Hk _ _ _ _ H2). exact (Hm _ _ _ H1).
Qed.

Lemma read_only_ret {A} (a : A) : read_only (ret a).
Proof. intros st r st' H. now apply ret_inv in H. Qed.

Lemma read_only_fault {A} f : read_only (@fault A f).
Proof. intros st r st' H. discriminate. Qed.

Lemma read_only_get_buf b : read_only (get_buf b).
Proof. intros st r st' H. now apply get_buf_inv in H. Qed.

Lemma read_only_get_str s : read_only (get_str s).
Proof. intros st r st' H. now apply get_str_inv in H. Qed.

Lemma read_only_load p : read_only (load p).
Proof. intros st r st' H. exact (load_state _ _ _ _ H). Qed.

Lemma read_only_read_bytes p n : read_only (read_bytes p n).
Proof.
  destruct p as [[b off]|]; simpl; [|apply read_only_fault].
  apply read_only_bind; [apply read_only_get_buf|]. intros bytes.
  destruct (decide _); [apply read_only_ret | apply read_only_fault].
Qed.

Lemma read_only_getCStringLength p : read_only (getCStringLength p).
Proof. intros st r st' H. now apply getCStringLength_nul in H. Qed.

Lemma read_only_char_filter p c : read_only (char_filter p c).
Proof.
  apply read_only_bind; [apply read_only_load | intros; apply read_only_ret].
Qed.

Lemma read_only_deref p : read_only (deref p).
Proof. destruct p; [apply read_only_get_str | apply read_only_fault]. Qed.

Lemma read_only_myStringLen p : read_only (myStringLen p).
Proof.
  destruct p; simpl; [|apply read_only_ret].
  apply read_only_bind; [apply read_only_get_str | intros; apply read_only_ret].
Qed.

Section Frame.
Variables (a ba n0 : nat) (va : MyString) (bufa : list Z).

Local Abbreviation I := (separate a ba n0 va bufa).
Local Abbreviation apart := (apart ba).
Local Abbreviation later := (later_struct n0).

Lemma apart_null : apart None.
Proof. intros b o H. discriminate. Qed.

Lemma apart_ptr_add p k : apart p -> apart (ptr_add p k).
Proof.
  intros Hp b o H. destruct p as [[b' o']|]; [|discriminate].
  inversion H; subst. eapply Hp. reflexivity.
Qed.

Lemma later_null : later None.
Proof. intros s H. discriminate. Qed.

(** Updating the struct [s >= n0] with a struct whose array is apart. *)
Lemma separate_put_str st s v :
  I st -> (n0 <= s)%nat -> apart (_chars v) ->
  I (mkState (bufs st) (<[s := Some v]> (strs st)) (files st) (oracle st) (junk st)).
Proof.
  intros (Ha & Hba & Hlt & Hlen & Hown) Hs Hv.
  repeat split; cbn [bufs strs]; auto.
  - rewrite list_lookup_insert_ne by lia. exact Ha.
  - rewrite length_insert. exact Hlen.
  - intros s' v' Hs' Hl. destruct (decide (s = s')) as [->|Hne].
    + assert (Hin : (s' < length (strs st))%nat).
      { apply lookup_lt_Some in Hl. now rewrite length_insert in Hl. }
      rewrite list_lookup_insert_eq in Hl by exact Hin. now inversion Hl; subst.
    + rewrite list_lookup_insert_ne in Hl by exact Hne. eauto.
Qed.

(** Updating an array other than [ba]. *)
Lemma separate_put_buf st b e :
  I st -> b <> ba ->
  I (mkState (<[b := e]> (bufs st)) (strs st) (files st) (oracle st) (junk st)).
Proof.
  intros (Ha & Hba & Hlt & Hlen & Hown) Hb.
  repeat split; cbn [bufs strs]; auto.
  rewrite list_lookup_insert_ne by exact Hb. exact Hba.
Qed.

(** A new array. *)
Lemma separate_new_buf st e o :
  I st ->
  I (mkState (bufs st ++ [e]) (strs st) (files st) o (junk st)) /\
  apart (Some (length (bufs st), O)).
Proof.
  intros (Ha & Hba & Hlt & Hlen & Hown). split.
  - repeat split; cbn [bufs strs]; auto. now apply lookup_snoc_old.
  - intros b off H. inversion H; subst. apply lookup_lt_Some in Hba. lia.
Qed.

Lemma separate_oracle st o :
  I st -> I (mkState (bufs st) (strs st) (files st) o (junk st)).
Proof. intros (Ha & Hba & Hlt & Hlen & Hown). repeat split; auto. Qed.

Lemma sep_get_str s :
  (n0 <= s)%nat -> preserves I (get_str s) (fun v => apart (_chars v)).
Proof.
  intros Hs st v st' HI H. apply get_str_inv in H as [-> Hl].
  split; [exact HI|]. destruct HI as (_ & _ & _ & _ & Hown). eauto.
Qed.

Lemma sep_deref p :
  later p -> preserves I (deref p) (fun v => apart (_chars v)).
Proof.
  intros Hp. destruct p as [s|]; [|apply preserves_fault].
  apply sep_get_str. now apply Hp.
Qed.

Lemma sep_put_str s v :
  (n0 <= s)%nat -> apart (_chars v) -> preserves I (put_str s v) (fun _ => True).
Proof.
  intros Hs Hv st r st' HI H. apply put_str_inv in H as [-> _].
  split; [|exact Logic.I]. now apply separate_put_str.
Qed.

Lemma sep_set_chars p c :
  later p -> apart c -> preserves I (set_chars p c) (fun _ => True).
Proof.
  intros Hp Hc st r st' HI H.
  apply set_chars_inv in H as (s & v0 & -> & _ & ->).
  split; [|exact Logic.I]. apply separate_put_str; auto.
Qed.

Lemma sep_set_length p n :
  later p -> preserves I (set_length p n) (fun _ => True).
Proof.
  intros Hp st r st' HI H.
  apply set_length_inv in H as (s & v0 & -> & Hs & ->).
  split; [|exact Logic.I]. apply separate_put_str; [exact HI | now apply Hp |].
  destruct HI as (_ & _ & _ & _ & Hown). cbn [_chars].
  apply (Hown s v0); [now apply Hp | exact Hs].
Qed.

Lemma sep_malloc n : preserves I (malloc n) apart.
Proof.
  intros st c st' HI H.
  apply malloc_inv in H as [(_ & -> & ->)|(_ & -> & ->)].
  - now apply separate_new_buf.
  - split; [now apply separate_oracle | apply apart_null].
Qed.

Lemma sep_realloc p n : apart p -> preserves I (realloc p n) apart.
Proof.
  intros Hp. destruct p as [[b off]|]; simpl; [|apply sep_malloc].
  intros st c st' HI H.
  apply bind_inv in H as (old & st1 & H1 & H).
  apply get_buf_inv in H1 as [-> H1].
  destruct (decide _); [|discriminate].
  unfold next_request, bind in H.
  destruct (hd true (oracle st)); inversion H; subst.
  - split.
    + exact (proj1 (separate_new_buf
             (mkState (<[b := None]> (bufs st)) (strs st) (files st) (oracle st) (junk st))
             _ (tl (oracle st))
             (separate_put_buf st b None HI (Hp b _ eq_refl)))).
    + exact (proj2 (separate_new_buf st None [] HI)).
  - split; [now apply separate_oracle | apply apart_null].
Qed.

Lemma sep_free p : apart p -> preserves I (free p) (fun _ => True).
Proof.
  intros Hp. destruct p as [[b off]|]; simpl; [|now apply preserves_ret].
  intros st r st' HI H.
  apply bind_inv in H as (old & st1 & H1 & H).
  apply get_buf_inv in H1 as [-> H1].
  destruct (decide _); [|discriminate]. inversion H; subst.
  split; [|exact Logic.I]. apply separate_put_buf; [exact HI | now apply (Hp b _ eq_refl)].
Qed.

Lemma sep_store p v : apart p -> preserves I (store p v) (fun _ => True).
Proof.
  intros Hp st r st' HI H.
  apply store_inv in H as (b & off & bytes & -> & _ & _ & ->).
  split; [|exact Logic.I]. apply separate_put_buf; [exact HI | now apply (Hp b _ eq_refl)].
Qed.

Lemma sep_write_bytes p data :
  apart p -> preserves I (write_bytes p data) (fun _ => True).
Proof.
  intros Hp. destruct p as [[b off]|]; simpl; [|apply preserves_fault].
  intros st r st' HI H.
  apply bind_inv in H as (old & st1 & H1 & H).
  apply get_buf_inv in H1 as [-> H1].
  destruct (decide _); [|discriminate]. inversion H; subst.
  split; [|exact Logic.I]. apply separate_put_buf; [exact HI | now apply (Hp b _ eq_refl)].
Qed.

Lemma sep_memcpy dst src n :
  apart dst -> preserves I (memcpy dst src n) (fun _ => True).
Proof.
  intros Hd. unfold memcpy.
  eapply preserves_bind; [apply preserves_read_only, read_only_read_bytes|].
  intros data _.
  eapply preserves_bind; [apply preserves_read_only, read_only_read_bytes|].
  intros _ _. destruct (ranges_overlap _ _ _); [apply preserves_fault|].
  now apply sep_write_bytes.
Qed.

Lemma sep_malloc_str : preserves I malloc_str later.
Proof.
  intros st p st' HI H. unfold malloc_str, next_request, bind in H.
  destruct HI as (Ha & Hba & Hlt & Hlen & Hown).
  destruct (hd true (oracle st)); inversion H; subst.
  - split.
    + repeat split; cbn [bufs strs set_strs set_oracle set_bufs]; auto.
      * now apply lookup_snoc_old.
      * rewrite length_app. simpl. lia.
      * intros s v Hs Hl. destruct (decide (s = length (strs st))) as [->|Hne].
        -- rewrite lookup_snoc_new in Hl. inversion Hl; subst. apply apart_null.
        -- assert (s < length (strs st))%nat.
           { apply lookup_lt_Some in Hl. rewrite length_app in Hl. simpl in Hl. lia. }
           rewrite lookup_app_l in Hl by assumption. eauto.
    + intros s Hs. inversion Hs; subst. exact Hlen.
  - split; [repeat split; auto | apply later_null].
Qed.

Lemma sep_free_str s :
  (n0 <= s)%nat -> preserves I (free_str s) (fun _ => True).
Proof.
  intros Hs st r st' HI H. unfold free_str in H.
  apply bind_inv in H as (v & st1 & H1 & H).
  apply get_str_inv in H1 as [-> H1]. inversion H; subst.
  destruct HI as (Ha & Hba & Hlt & Hlen & Hown).
  split; [|exact Logic.I]. repeat split; cbn [bufs strs set_strs set_oracle set_bufs]; auto.
  - rewrite list_lookup_insert_ne by lia. exact Ha.
  - rewrite length_insert. exact Hlen.
  - intros s' v' Hs' Hl. destruct (decide (s = s')) as [->|Hne].
    + rewrite list_lookup_insert_eq in Hl; [discriminate|].
      apply lookup_lt_Some in H1. exact H1.
    + rewrite list_lookup_insert_ne in Hl by exact Hne. eauto.
Qed.

Ltac frame_bind lem := eapply preserves_bind; [apply lem | cbv beta].
Ltac frame_read lem :=
  eapply preserves_bind; [apply preserves_read_only, lem | cbv beta].
Ltac frame_done := apply preserves_ret; exact Logic.I.

Lemma sep_adjustMyStringLength p n :
  later p -> preserves I (adjustMyStringLength p n) (fun _ => True).
Proof.
  intros Hp. unfold adjustMyStringLength.
  frame_bind (sep_deref p Hp). intros v Hv.
  frame_bind (sep_realloc (_chars v) n Hv). intros c Hc.
  frame_bind (sep_set_chars p c Hp Hc). intros _ _.
  destruct c; [|frame_done].
  frame_bind (sep_set_length p n Hp). intros _ _. frame_done.
Qed.

Lemma sep_emptyStringAlloc p :
  later p -> preserves I (emptyStringAlloc p) apart.
Proof.
  intros Hp. unfold emptyStringAlloc.
  frame_bind (sep_malloc 1). intros c Hc.
  frame_bind (sep_set_chars p c Hp Hc). intros _ _.
  destruct c as [c|]; [|apply preserves_ret, apart_null].
  frame_bind (sep_store (Some c) END_OF_C_STRING Hc). intros _ _.
  frame_bind (sep_set_length p EMPTY_STRING_LENGTH Hp). intros _ _.
  now apply preserves_ret.
Qed.

Lemma sep_myStringAlloc : preserves I myStringAlloc later.
Proof.
  unfold myStringAlloc.
  frame_bind sep_malloc_str. intros p Hp.
  destruct p as [s|]; [|apply preserves_ret, later_null].
  frame_bind (sep_emptyStringAlloc (Some s) Hp). intros c _.
  destruct c; apply preserves_ret; [exact Hp | apply later_null].
Qed.

Lemma sep_myStringFree p :
  later p -> preserves I (myStringFree p) (fun _ => True).
Proof.
  intros Hp. destruct p as [s|]; simpl; [|frame_done].
  frame_bind (sep_get_str s (Hp s eq_refl)). intros v Hv.
  frame_bind (sep_free (_chars v) Hv). intros _ _.
  frame_bind (sep_set_chars (Some s) None Hp apart_null). intros _ _.
  apply sep_free_str. now apply Hp.
Qed.

Lemma read_only_getFilteredStringLength_loop p n :
  forall str k, read_only (getFilteredStringLength_loop n str (char_filter p) k).
Proof.
  induction n as [|n IH]; intros str k; simpl; [apply read_only_ret|].
  apply read_only_bind; [apply read_only_char_filter | intros keep; apply IH].
Qed.

Lemma read_only_getFilteredStringLength p str :
  read_only (getFilteredStringLength str (char_filter p)).
Proof.
  apply read_only_bind; [apply read_only_getCStringLength|].
  intros n. apply read_only_getFilteredStringLength_loop.
Qed.

Lemma sep_createFilteredString_loop p n :
  forall dst src,
    apart dst ->
    preserves I (createFilteredString_loop n dst src (char_filter p)) (fun _ => True).
Proof.
  induction n as [|n IH]; intros dst src Hd; simpl; [frame_done|].
  frame_read (read_only_char_filter p src). intros keep _.
  destruct keep; [|now apply IH].
  frame_read (read_only_load src). intros c _.
  frame_bind (sep_store dst c Hd). intros _ _.
  apply IH. now apply apart_ptr_add.
Qed.

Lemma sep_createFilteredString p dst src :
  apart dst ->
  preserves I (createFilteredString dst src (char_filter p)) (fun _ => True).
Proof.
  intros Hd. unfold createFilteredString.
  frame_read (read_only_getCStringLength src). intros n _.
  now apply sep_createFilteredString_loop.
Qed.

Lemma sep_myStringFilter str p :
  later str ->
  preserves I (myStringFilter str (Some (char_filter p))) (fun _ => True).
Proof.
  intros Hs. unfold myStringFilter. destruct str as [s|]; [|frame_done].
  frame_bind (sep_deref (Some s) Hs). intros v Hv.
  destruct (_ =? _); [frame_done|].
  frame_read (read_only_getFilteredStringLength p (_chars v)). intros n _.
  frame_bind sep_myStringAlloc. intros t Ht.
  frame_bind (sep_adjustMyStringLength t n Ht). intros r _.
  destruct (_ =? _); [frame_done|].
  frame_bind (sep_deref t Ht). intros f Hf.
  frame_bind (sep_deref (Some s) Hs). intros v' Hv'.
  frame_bind (sep_createFilteredString p (_chars f) (_chars v') Hf). intros _ _.
  frame_bind (sep_deref t Ht). intros f1 Hf1.
  frame_bind (sep_set_chars (Some s) (_chars f1) Hs Hf1). intros _ _.
  frame_bind (sep_deref t Ht). intros f2 _.
  frame_bind (sep_set_length (Some s) (_length f2) Hs). intros _ _.
  frame_bind (sep_myStringFree t Ht). intros _ _. frame_done.
Qed.

Lemma sep_myStringSetFromCString str cString :
  later str ->
  preserves I (myStringSetFromCString str cString) (fun _ => True).
Proof.
  intros Hs. unfold myStringSetFromCString.
  destruct str as [s|]; [|frame_done]. destruct cString as [cs|]; [|frame_done].
  frame_read (read_only_getCStringLength (Some cs)). intros n _.
  frame_read (read_only_load (ptr_add (Some cs) n)). intros c _.
  destruct (negb _); [frame_done|].
  eapply preserves_bind with (Q := fun _ => True).
  { destruct (_ =? _); [|frame_done].
    frame_bind (sep_emptyStringAlloc (Some s) Hs). intros e _.
    destruct e; frame_done. }
  intros early _. destruct early; [frame_done|].
  frame_bind (sep_adjustMyStringLength (Some s) n Hs). intros r _.
  destruct (_ =? _); [frame_done|].
  frame_bind (sep_deref (Some s) Hs). intros v Hv.
  frame_bind (sep_memcpy (_chars v) (Some cs) n Hv). intros _ _. frame_done.
Qed.

Lemma sep_myStringSetFromInt str n :
  later str -> preserves I (myStringSetFromInt str n) (fun _ => True).
Proof.
  intros Hs. unfold myStringSetFromInt. destruct str as [s|]; [|frame_done].
  frame_bind (sep_adjustMyStringLength (Some s) (wrap_ulong (getNumOfDigits n)) Hs).
  intros r _. destruct (_ =? _); [frame_done|].
  frame_bind (sep_deref (Some s) Hs). intros v Hv.
  eapply preserves_bind with (Q := fun _ => True).
  { unfold sprintf_d.
    frame_bind (sep_write_bytes (_chars v) (decimal n ++ [0]) Hv). intros _ _.
    frame_done. }
  intros k _. destruct (_ <? _); frame_done.
Qed.

Lemma sep_myStringSetFromMyString str other :
  later str -> preserves I (myStringSetFromMyString str other) (fun _ => True).
Proof.
  intros Hs. unfold myStringSetFromMyString.
  destruct str as [s|]; [|frame_done]. destruct other as [o|]; [|frame_done].
  frame_read (read_only_deref (Some o)). intros vo _.
  destruct (_ =? _).
  - frame_bind (sep_emptyStringAlloc (Some s) Hs). intros c _.
    destruct c; frame_done.
  - frame_read (read_only_myStringLen (Some o)). intros n _.
    frame_bind (sep_adjustMyStringLength (Some s) n Hs). intros r _.
    destruct (_ =? _); [frame_done|].
    frame_bind (sep_deref (Some s) Hs). intros v Hv.
    frame_read (read_only_deref (Some o)). intros vo' _.
    frame_bind (sep_memcpy (_chars v) (_chars vo') n Hv). intros _ _. frame_done.
Qed.

Lemma sep_myStringCat dest src :
  later dest -> preserves I (myStringCat dest src) (fun _ => True).
Proof.
  intros Hd. unfold myStringCat.
  destruct dest as [d|]; [|frame_done]. destruct src as [s|]; [|frame_done].
  frame_read (read_only_deref (Some s)). intros vs _.
  destruct (_ =? _); [frame_done|].
  frame_read (read_only_myStringLen (Some s)). intros n _.
  frame_read (read_only_myStringLen (Some d)). intros m _.
  frame_bind (sep_adjustMyStringLength (Some d) (ulong_add n m) Hd). intros r _.
  destruct (_ =? _); [frame_done|].
  frame_bind (sep_deref (Some d) Hd). intros v Hv.
  frame_read (read_only_deref (Some s)). intros vs' _.
  frame_bind (sep_memcpy (ptr_add (_chars v) m) (_chars vs') n (apart_ptr_add _ m Hv)).
  intros _ _. frame_done.
Qed.

Lemma sep_mutate str m :
  later str -> preserves I (mutate str m) (fun _ => True).
Proof.
  intros Hs. destruct m; simpl.
  - now apply sep_myStringSetFromCString.
  - now apply sep_myStringSetFromInt.
  - now apply sep_myStringSetFromMyString.
  - now apply sep_myStringFilter.
  - now apply sep_myStringCat.
Qed.

Lemma sep_mutate_all str ms :
  later str -> preserves I (mutate_all str ms) (fun _ => True).
Proof.
  intros Hs. induction ms as [|m ms IH]; simpl; [frame_done|].
  frame_bind (sep_mutate str m Hs). intros _ _. exact IH.
Qed.

(** What the invariant says about the instance [a]. *)
Lemma separate_contents st xs :
  _chars va = Some (ba, O) -> 0 <= _length va ->
  (Z.to_nat (_length va) <= length bufa)%nat ->
  take (Z.to_nat (_length va)) bufa = xs ->
  I st -> contents st (Some a) = Some xs.
Proof.
  intros Hc H0 H1 Hx (Ha & Hba & _). now apply (contents_intro st a va ba bufa).
Qed.

Lemma separate_initial st :
  strs st !! a = Some (Some va) -> bufs st !! ba = Some (Some bufa) ->
  n0 = length (strs st) -> I st.
Proof.
  intros Ha Hba ->. repeat split; auto.
  - eapply lookup_lt_Some; eauto.
  - intros s v Hs Hl. apply lookup_lt_Some in Hl. lia.
Qed.

Lemma sep_myStringClone str :
  preserves I (myStringClone str) later.
Proof.
  unfold myStringClone. destruct str as [s|]; [|apply preserves_ret, later_null].
  frame_bind sep_myStringAlloc. intros c Hc.
  frame_bind (sep_myStringSetFromMyString c (Some s) Hc). intros r _.
  destruct (_ =? _); apply preserves_ret; [apply later_null | exact Hc].
Qed.
End Frame.

Lemma myStringCustomCompare_loop_pure f n a b st :
  myStringCustomCompare_loop n a b (pure_comparator f) st =
  Ok (match n with
      | O => None
      | S _ =>
          if f st a b >? EQUAL_STRINGS then Some STR1_BIGGER
          else if f st a b <? EQUAL_STRINGS then Some STR2_BIGGER
          else None
      end) st.
Proof.
  induction n as [|n IH]; [reflexivity|].
  cbn [myStringCustomCompare_loop]. unfold bind.
  change (pure_comparator f a b st) with (Ok (f st a b) st). cbn beta iota.
  destruct (f st a b >? EQUAL_STRINGS) eqn:Hgt; [reflexivity|].
  change (pure_comparator f a b st) with (Ok (f st a b) st). cbn beta iota.
  destruct (f st a b <? EQUAL_STRINGS) eqn:Hlt; [reflexivity|].
  rewrite IH. destruct n; reflexivity.
Qed.


(** ** The temporary instance of myStringFilter *)

Lemma malloc_str_inv st p st' :
  malloc_str st = Ok p st' -> p = None \/ p = Some (length (strs st)).
Proof.
  unfold malloc_str, next_request, bind.
  destruct (hd true (oracle st)); inversion 1; auto.
Qed.

Lemma myStringAlloc_inv st p st' :
  myStringAlloc st = Ok p st' -> p = None \/ p = Some (length (strs st)).
Proof.
  unfold myStringAlloc. intros H.
  apply bind_inv in H as (q & st1 & H1 & H).
  apply malloc_str_inv in H1. destruct q as [q|].
  - apply bind_inv in H as (c & st2 & _ & H).
    destruct c; apply ret_inv in H as [-> _]; auto.
  - apply ret_inv in H as [-> _]. auto.
Qed.

Lemma free_inv p st u st' :
  free p st = Ok u st' ->
  strs st' = strs st /\ forall b o, p = Some (b, o) -> bufs st' !! b = Some None.
Proof.
  destruct p as [[b o]|]; simpl.
  - intros H. apply bind_inv in H as (old & st1 & H1 & H).
    apply get_buf_inv in H1 as [-> H1].
    destruct (decide _); [|discriminate]. inversion H; subst.
    split; [reflexivity|]. intros b' o' Heq. inversion Heq; subst.
    cbn [bufs set_bufs]. eapply lookup_insert_same. exact H1.
  - intros H. apply ret_inv in H as [_ ->]. split; [reflexivity | discriminate].
Qed.

(** myStringFree releases the array of the instance and leaves the other
    structs as they are. *)
Lemma myStringFree_inv t st u st' :
  myStringFree (Some t) st = Ok u st' ->
  exists v,
    strs st !! t = Some (Some v) /\
    (forall b o, _chars v = Some (b, o) -> bufs st' !! b = Some None) /\
    (forall s, s <> t -> strs st' !! s = strs st !! s).
Proof.
  intros H.
  change (myStringFree (Some t)) with
    (let* v := get_str t in
     let* _ := free (_chars v) in
     let* _ := set_chars (Some t) None in
     free_str t) in H.
  apply bind_inv in H as (v & st1 & H1 & H).
  apply get_str_inv in H1 as [-> Hv].
  apply bind_inv in H as (u1 & st2 & H2 & H).
  apply free_inv in H2 as [Hstrs Hfreed].
  apply bind_inv in H as (u2 & st3 & H3 & H).
  apply set_chars_inv in H3 as (t' & v0 & Heq & _ & ->). inversion Heq; subst t'.
  unfold free_str in H. apply bind_inv in H as (v1 & st4 & H4 & H).
  apply get_str_inv in H4 as [-> _]. inversion H; subst.
  exists v. split; [exact Hv|]. split.
  - intros b o Hc. cbn [bufs set_strs]. eauto.
  - intros s Hs. cbn [strs set_strs].
    rewrite !list_lookup_insert_ne by auto. now rewrite Hstrs.
Qed.

(** X22. Whenever myStringFilter returns success on a non-empty instance, with a
    filter that only reads the store, the instance is left without bytes:
    its array was released together with the temporary instance. *)
Lemma myStringFilter_releases st s v filt st' :
  (forall c, read_only (filt c)) ->
  strs st !! s = Some (Some v) -> _length v <> EMPTY_STRING_LENGTH ->
  myStringFilter (Some s) (Some filt) st = Ok MYSTRING_SUCCESS st' ->
  contents st' (Some s) = None.
Proof.
  intros Hro Hs Hlen H. unfold myStringFilter in H.
  rewrite (bind_ok _ _ _ _ _ (deref_run _ _ _ Hs)) in H.
  destruct (Z.eqb_spec (_length v) EMPTY_STRING_LENGTH) as [|_]; [contradiction|].
  apply bind_inv in H as (n & st0 & H0 & H).
  assert (st0 = st) as ->.
  { unfold getFilteredStringLength in H0.
    apply bind_inv in H0 as (k & st1 & H1 & H0).
    apply read_only_getCStringLength in H1. subst st1.
    clear -Hro H0. revert H0. generalize 0. generalize (_chars v).
    induction (Z.to_nat k) as [|m IH]; intros c acc H0; simpl in H0.
    - now apply ret_inv in H0.
    - apply bind_inv in H0 as (keep & st1 & H1 & H0).
      apply Hro in H1. subst st1. eapply IH. exact H0. }
  apply bind_inv in H as (t & st1 & H1 & H).
  apply myStringAlloc_inv in H1.
  apply bind_inv in H as (r & st2 & _ & H).
  destruct (r =? MYSTRING_ERROR); [apply ret_inv in H as [H _]; discriminate|].
  apply bind_inv in H as (f & st3 & H3 & H).
  apply deref_inv in H3 as [-> (ti & -> & _)].
  destruct H1 as [H1|H1]; [discriminate|]. inversion H1; subst ti. clear H1.
  assert (Hne : s <> length (strs st)) by (apply lookup_lt_Some in Hs; lia).
  apply bind_inv in H as (v' & st3 & _ & H).
  apply bind_inv in H as (u & st4 & _ & H).
  apply bind_inv in H as (f1 & st5 & H5 & H).
  apply deref_inv in H5 as [-> (ti & Heq & Hf1)]. inversion Heq; subst ti. clear Heq.
  apply bind_inv in H as (u1 & st5 & H5 & H).
  apply set_chars_inv in H5 as (s' & v0 & Heq & Hv0 & ->). inversion Heq; subst s'. clear Heq.
  apply bind_inv in H as (f2 & st6 & H6 & H).
  apply deref_inv in H6 as [-> (ti & Heq & Hf2)]. inversion Heq; subst ti. clear Heq.
  cbn [strs] in Hf2. rewrite list_lookup_insert_ne in Hf2 by exact Hne.
  assert (f2 = f1) by congruence. subst f2.
  apply bind_inv in H as (u2 & st6 & H6 & H).
  apply set_length_inv in H6 as (s' & v1 & Heq & Hv1 & ->). inversion Heq; subst s'. clear Heq.
  cbn [strs] in Hv1. rewrite (lookup_insert_same _ _ _ _ Hv0) in Hv1.
  inversion Hv1; subst v1. clear Hv1. cbn [_chars] in H.
  apply bind_inv in H as (u3 & st7 & H7 & H).
  apply ret_inv in H as [_ ->].
  apply myStringFree_inv in H7 as (vt & Hvt & Hfreed & Hother).
  cbn [strs bufs] in Hvt, Hother.
  rewrite list_lookup_insert_ne in Hvt by exact Hne.
  rewrite list_lookup_insert_ne in Hvt by exact Hne.
  assert (vt = f1) by congruence. subst vt.
  unfold contents. rewrite (Hother s Hne).
  erewrite lookup_insert_same by (eapply lookup_insert_same; exact Hv0).
  cbn [_chars]. destruct (_chars f1) as [[b [|o]]|] eqn:Hc; try reflexivity.
  now rewrite (Hfreed b 0%nat eq_refl).
Qed.

Lemma myStringFilter_releases_witness :
  exists st',
    myStringFilter (Some O) (Some filt) abcz_padded = Ok MYSTRING_SUCCESS st' /\
    contents st' (Some O) = None.
Proof.
  eexists. split; [vm_compute; reflexivity|].
  eapply (myStringFilter_releases abcz_padded 0 (mkMyString (Some (O, O)) 4) filt).
  - intros c. apply read_only_char_filter.
  - reflexivity.
  - discriminate.
  - vm_compute. reflexivity.
Defined.

(** ** The unit tests, run on the model *)

(** The tests that stay inside their arrays give what MyString.c expects;
    the tests of the filter and of the integer conversions leave them. *)

Example run_test_set_from_c_string :
  result_of (test_set_from_c_string (literals ["abcde"%string])) =
  Some (bytes_of_string "abcde").
Proof. vm_compute. reflexivity. Qed.

Example run_test_clone :
  result_of (test_clone (literals ["Hey there"%string])) =
  Some (bytes_of_string "Hey there", bytes_of_string "Hey there").
Proof. vm_compute. reflexivity. Qed.

Example run_test_compare :
  result_of (test_compare myStringCompare
               (literals ["abc"%string; "abcd"%string; "ab"%string])) =
  Some (STR2_BIGGER, STR1_BIGGER, EQUAL_STRINGS).
Proof. vm_compute. reflexivity. Qed.

Example run_test_custom_compare :
  result_of (test_compare
               (fun a b => myStringCustomCompare a b (Some reverseMyStringCompare))
               (literals ["abc"%string; "abcd"%string; "ab"%string])) =
  Some (STR1_BIGGER, STR2_BIGGER, EQUAL_STRINGS).
Proof. vm_compute. reflexivity. Qed.

Example run_test_equal :
  result_of (test_compare myStringEqual
               (literals ["abc"%string; "abcd"%string; "ab"%string])) =
  Some (FALSE, FALSE, TRUE).
Proof. vm_compute. reflexivity. Qed.

Example run_test_cat :
  result_of (test_cat (literals ["Hey there"%string; " Delilah"%string])) =
  Some (MYSTRING_SUCCESS, bytes_of_string "Hey there Delilah").
Proof. vm_compute. reflexivity. Qed.

Example run_test_custom_equal :
  result_of (test_compare
               (fun a b => myStringCustomEqual a b (Some reverseMyStringCompare))
               (literals ["abc"%string; "abcd"%string; "ab"%string])) =
  Some (FALSE, FALSE, TRUE).
Proof. vm_compute. reflexivity. Qed.

Example run_test_cat_to :
  result_of (test_cat_to (literals ["Hey there"%string; " Delilah"%string])) =
  Some (MYSTRING_SUCCESS, bytes_of_string "Hey there Delilah").
Proof. vm_compute. reflexivity. Qed.

Example run_test_mem_usage_len :
  result_of (test_mem_usage_len (literals ["abcde"%string])) = Some (21, 5).
Proof. vm_compute. reflexivity. Qed.

Example run_test_clone_mutate :
  result_of (test_clone_mutate test_store) =
  Some (Some (bytes_of_string "abcz"), Some (bytes_of_string "abdabcz")).
Proof. vm_compute. reflexivity. Qed.

Example run_test_write :
  result_of (test_write (literals ["abcdefghijklmnop"%string])) =
  Some MYSTRING_SUCCESS.
Proof. vm_compute. reflexivity. Qed.

Example run_test_filter :
  test_filter (literals ["abcz"%string]) = Err OutOfBounds.
Proof. vm_compute. reflexivity. Qed.

Example run_test_set_from_int :
  test_set_from_int 123456789 (literals []) = Err OutOfBounds /\
  test_set_from_int (-123456789) (literals []) = Err OutOfBounds.
Proof. split; vm_compute; reflexivity. Qed.

Example run_test_to_int :
  test_to_int (literals ["123456"%string]) = Err OutOfBounds.
Proof. vm_compute. reflexivity. Qed.

(** ** The properties of the specification *)

(** C1. myStringCompare orders two instances that hold [xs] and [ys] byte by
    byte, with the length as the last tiebreak: at the first index below the
    shorter length where the bytes differ, the sign of the result is the
    sign of the difference of the two bytes; when the common prefixes are
    equal, the result is positive if [xs] is longer, negative if [ys] is
    longer, and 0 if the lengths are equal too.  With a NULL argument the
    result is MYSTR_ERROR_CODE. *)
Theorem myStringCompare_order st a b xs ys :
  contents st (Some a) = Some xs ->
  contents st (Some b) = Some ys ->
  (myStringCompare None (Some b) st = Ok MYSTR_ERROR_CODE st /\
   myStringCompare (Some a) None st = Ok MYSTR_ERROR_CODE st /\
   myStringCompare None None st = Ok MYSTR_ERROR_CODE st) /\
  exists r,
    myStringCompare (Some a) (Some b) st = Ok r st /\
    (forall i x y,
       (i < Nat.min (length xs) (length ys))%nat ->
       take i xs = take i ys -> xs !! i = Some x -> ys !! i = Some y ->
       x <> y -> Z.sgn r = Z.sgn (x - y)) /\
    (take (Nat.min (length xs) (length ys)) xs =
     take (Nat.min (length xs) (length ys)) ys ->
     ((length ys < length xs)%nat -> 0 < r) /\
     ((length xs < length ys)%nat -> r < 0) /\
     (length xs = length ys -> r = 0)).
Proof.
  intros Ha Hb. split; [repeat split|].
  exists (compare_result xs ys). split; [now apply myStringCompare_run|].
  unfold compare_result, EQUAL_STRINGS, STR1_BIGGER, STR2_BIGGER. split.
  - intros i x y Hi Ht Hx Hy Hne.
    rewrite (cmp_bytes_take _ _ _ i x y Hi Ht Hx Hy Hne).
    destruct (Nat.ltb_spec (length ys) (length xs));
      [destruct (Z.geb_spec (x - y) 0); lia|].
    destruct (Nat.ltb_spec (length xs) (length ys));
      [destruct (Z.leb_spec (x - y) 0); lia|].
    reflexivity.
  - intros Heq. rewrite Heq, cmp_bytes_refl. cbn [Z.geb Z.leb Z.compare].
    destruct (Nat.ltb_spec (length ys) (length xs)); [lia|].
    destruct (Nat.ltb_spec (length xs) (length ys)); lia.
Qed.

Lemma myStringCompare_order_witness :
  contents test_store (Some O) = Some [97; 98; 100] /\
  contents test_store (Some 1%nat) = Some [97; 98; 99; 122] /\
  exists r,
    myStringCompare (Some O) (Some 1%nat) test_store = Ok r test_store /\
    Z.sgn r = 1.
Proof.
  split; [reflexivity|]. split; [reflexivity|].
  destruct (myStringCompare_order test_store 0 1 [97; 98; 100] [97; 98; 99; 122]
              eq_refl eq_refl) as [_ (r & Hr & Hd & _)].
  exists r. split; [exact Hr|].
  apply (Hd 2%nat 100 99); [simpl; lia | reflexivity | reflexivity | reflexivity | lia].
Defined.

(** C2. Round trip: for a text [s] without NUL byte, stored NUL-terminated
    somewhere in an array, allocating an instance, setting it from the text
    and exporting it (all allocation requests being granted) succeeds and
    returns a new array that holds exactly the bytes of [s] followed by a
    NUL. *)
Theorem set_from_text_round_trip st cb pre s post :
  Forall (fun c => c <> END_OF_C_STRING) s ->
  bufs st !! cb = Some (Some (pre ++ s ++ END_OF_C_STRING :: post)) ->
  Z.of_nat (length s) + 1 < ULONG_MOD ->
  all_granted st ->
  exists p t st',
    (let* p := myStringAlloc in
     let* r := myStringSetFromCString p (Some (cb, length pre)) in
     let* t := myStringToCString p in
     ret (p, r, t)) st = Ok (p, MYSTRING_SUCCESS, Some (t, O)) st' /\
    bufs st' !! t = Some (Some (s ++ [END_OF_C_STRING])).
Proof.
  intros Hs Hcb Hlen Hg.
  pose proof (granted_hd _ Hg) as Ho1.
  pose proof (granted_hd _ (Forall_tl _ _ Hg)) as Ho2.
  assert (Hcbl : (cb < length (bufs st))%nat) by (eapply lookup_lt_Some; eauto).
  rewrite (bind_ok _ _ _ _ _ (myStringAlloc_run _ Ho1 Ho2)).
  set (st1 := mkState _ _ _ _ _).
  assert (Hg1 : all_granted st1) by (unfold all_granted; cbn; now do 2 apply Forall_tl).
  assert (Hcs1 : c_string st1 (Some (cb, length pre)) = Some s).
  { eapply c_string_intro; [|exact Hs]. subst st1. look. }
  destruct (myStringSetFromCString_run st1 (length (strs st))
              (mkMyString (Some (length (bufs st), O)) EMPTY_STRING_LENGTH)
              (length (bufs st)) [END_OF_C_STRING] cb (length pre) s)
    as (st2 & Hrun2 & Hc2 & Hg2); try (subst st1; look); auto; try lia.
  rewrite (bind_ok _ _ _ _ _ Hrun2).
  rewrite (bind_ok _ _ _ _ _ (myStringToCString_run _ _ _ Hc2 (granted_hd _ Hg2) Hlen)).
  unfold ret. do 3 eexists. split; [reflexivity|]. look.
Qed.

Lemma set_from_text_round_trip_witness :
  exists p t st',
    (let* p := myStringAlloc in
     let* r := myStringSetFromCString p (Some (2%nat, O)) in
     let* t := myStringToCString p in
     ret (p, r, t)) test_store = Ok (p, MYSTRING_SUCCESS, Some (t, O)) st' /\
    bufs st' !! t = Some (Some [72; 101; 121; 0]).
Proof.
  apply (set_from_text_round_trip test_store 2 [] [72; 101; 121] []).
  - repeat constructor; unfold END_OF_C_STRING; lia.
  - reflexivity.
  - unfold ULONG_MOD. simpl. lia.
  - unfold all_granted. simpl. constructor.
Defined.

(** C3. Setting a fresh instance from an int and reading it back does not
    return the int: for every [int] value [n], myStringSetFromInt resizes the
    array to the number of characters of the decimal text and then lets
    sprintf write that text and its terminating NUL, one byte more than the
    array holds, so the run ends in an out-of-bounds fault. *)
Theorem set_from_integer_overflow st n :
  all_granted st -> in_int n = true ->
  (let* p := myStringAlloc in
   let* r := myStringSetFromInt p n in
   myStringToInt p) st = Err OutOfBounds.
Proof.
  intros Hg Hn.
  pose proof (granted_hd _ Hg) as Ho1.
  pose proof (granted_hd _ (Forall_tl _ _ Hg)) as Ho2.
  pose proof (granted_hd _ (Forall_tl _ _ (Forall_tl _ _ Hg))) as Ho3.
  rewrite (bind_ok _ _ _ _ _ (myStringAlloc_run _ Ho1 Ho2)).
  erewrite (bind_fail (myStringSetFromInt _ _)); [reflexivity|].
  eapply myStringSetFromInt_overflow; [look | reflexivity | look | exact Ho3 | exact Hn].
Qed.

Lemma set_from_integer_overflow_witness :
  all_granted (literals []) /\ in_int 0 = true /\
  (let* p := myStringAlloc in
   let* r := myStringSetFromInt p 0 in
   myStringToInt p) (literals []) = Err OutOfBounds.
Proof.
  assert (Hg : all_granted (literals [])) by (unfold all_granted; simpl; constructor).
  split; [exact Hg|]. split; [reflexivity|].
  exact (set_from_integer_overflow _ 0 Hg eq_refl).
Defined.

(** C4. myStringCustomCompare equals the reference definition: with a
    comparator that only inspects the store, the result is the one that the
    sign of the comparator on the whole pair and the length tiebreak give;
    and when one of the two strings is empty the comparator is never
    called: whatever it would do, the result is the length tiebreak and the
    store is unchanged. *)
Theorem myStringCustomCompare_reference st a b xs ys :
  contents st (Some a) = Some xs ->
  contents st (Some b) = Some ys ->
  (forall f,
     myStringCustomCompare (Some a) (Some b) (Some (pure_comparator f)) st =
     Ok (custom_compare_reference (Z.of_nat (length xs)) (Z.of_nat (length ys))
           (f st (Some a) (Some b))) st) /\
  (xs = [] \/ ys = [] ->
   forall comparator,
     myStringCustomCompare (Some a) (Some b) (Some comparator) st =
     Ok (length_tiebreak (Z.of_nat (length xs)) (Z.of_nat (length ys))) st).
Proof.
  intros Ha Hb.
  pose proof (contents_inv _ _ _ Ha) as (va & ba & bufa & Hsa & _ & _ & H0a & _ & _).
  pose proof (contents_inv _ _ _ Hb) as (vb & bb & bufb & Hsb & _ & _ & H0b & _ & _).
  pose proof (contents_length _ _ _ _ Ha Hsa) as Hla.
  pose proof (contents_length _ _ _ _ Hb Hsb) as Hlb.
  split.
  - intros f. unfold myStringCustomCompare.
    rewrite (bind_ok _ _ _ _ _ (myStringLen_run _ _ _ Hsa)).
    rewrite (bind_ok _ _ _ _ _ (myStringLen_run _ _ _ Hsb)).
    rewrite Hla, Hlb.
    rewrite (bind_ok _ _ _ _ _ (myStringCustomCompare_loop_pure _ _ _ _ _)).
    unfold custom_compare_reference, length_tiebreak.
    destruct (Z.to_nat (Z.min (Z.of_nat (length xs)) (Z.of_nat (length ys)))) eqn:Hmin.
    + assert (Hz : (Z.of_nat (length xs) =? 0) || (Z.of_nat (length ys) =? 0) = true).
      { apply orb_true_iff. rewrite !Z.eqb_eq. lia. }
      rewrite Hz. destruct (_ >? _); [reflexivity|]. destruct (_ <? _); reflexivity.
    + assert (Hz : (Z.of_nat (length xs) =? 0) || (Z.of_nat (length ys) =? 0) = false).
      { apply orb_false_iff. rewrite !Z.eqb_neq. lia. }
      rewrite Hz. unfold EQUAL_STRINGS, STR1_BIGGER, STR2_BIGGER.
      destruct (f st (Some a) (Some b) >? 0); [reflexivity|].
      destruct (f st (Some a) (Some b) <? 0); [reflexivity|].
      destruct (_ >? _); [reflexivity|]. destruct (_ <? _); reflexivity.
  - intros Hempty comparator. unfold myStringCustomCompare.
    rewrite (bind_ok _ _ _ _ _ (myStringLen_run _ _ _ Hsa)).
    rewrite (bind_ok _ _ _ _ _ (myStringLen_run _ _ _ Hsb)).
    rewrite Hla, Hlb.
    replace (Z.to_nat (Z.min (Z.of_nat (length xs)) (Z.of_nat (length ys)))) with O.
    + cbn [myStringCustomCompare_loop]. unfold bind, ret, length_tiebreak.
      destruct (_ >? _); [reflexivity|]. destruct (_ <? _); reflexivity.
    + destruct Hempty as [-> | ->]; simpl length; lia.
Qed.

Lemma myStringCustomCompare_reference_witness :
  myStringCustomCompare (Some O) (Some 1%nat)
    (Some (pure_comparator (fun _ _ _ => -5))) test_store =
  Ok STR2_BIGGER test_store /\
  forall comparator,
    myStringCustomCompare (Some O) (Some 2%nat) (Some comparator) test_store =
    Ok STR1_BIGGER test_store.
Proof.
  split.
  - exact (proj1 (myStringCustomCompare_reference test_store 0 1
                    [97; 98; 100] [97; 98; 99; 122] eq_refl eq_refl)
             (fun _ _ _ => -5)).
  - exact (proj2 (myStringCustomCompare_reference test_store 0 2
                    [97; 98; 100] [] eq_refl eq_refl)
             (or_intror eq_refl)).
Defined.

(** C5. myStringCat: when the source is empty the call returns success and
    leaves the store as it is; otherwise the call succeeds exactly when the
    reallocation is granted, and then the destination holds its previous
    bytes followed by the bytes of the source, its length being the sum of
    the two previous lengths.  The source may be the destination itself. *)
Theorem myStringCat_appends st d s xs ys :
  contents st (Some d) = Some xs ->
  contents st (Some s) = Some ys ->
  d = s \/ chars_block st (Some d) <> chars_block st (Some s) ->
  Z.of_nat (length xs) + Z.of_nat (length ys) < ULONG_MOD ->
  (ys = [] -> myStringCat (Some d) (Some s) st = Ok MYSTRING_SUCCESS st) /\
  (ys <> [] ->
   exists st',
     myStringCat (Some d) (Some s) st =
     Ok (if hd true (oracle st) then MYSTRING_SUCCESS else MYSTRING_ERROR) st' /\
     (hd true (oracle st) = true ->
      contents st' (Some d) = Some (xs ++ ys) /\
      myStringLen (Some d) st' =
      Ok (Z.of_nat (length xs) + Z.of_nat (length ys)) st')).
Proof.
  intros Hd Hs Hsep Hsum.
  pose proof (contents_inv _ _ _ Hd) as (vd & bd & bufd & Hsd & Hcd & Hbd & H0d & H1d & Hxs).
  pose proof (contents_inv _ _ _ Hs) as (vs & bs & bufs_ & Hss & Hcs & Hbs & H0s & H1s & Hys).
  pose proof (contents_length _ _ _ _ Hd Hsd) as Hld.
  pose proof (contents_length _ _ _ _ Hs Hss) as Hls.
  assert (Hbdl : (bd < length (bufs st))%nat) by (eapply lookup_lt_Some; eauto).
  assert (Hbsl : (bs < length (bufs st))%nat) by (eapply lookup_lt_Some; eauto).
  unfold myStringCat.
  rewrite (bind_ok _ _ _ _ _ (deref_run _ _ _ Hss)).
  split.
  { intros ->. rewrite Hls. reflexivity. }
  intros Hne.
  assert (Hpos : (0 < length ys)%nat) by (destruct ys; [congruence | simpl; lia]).
  destruct (Z.eqb_spec (_length vs) EMPTY_STRING_LENGTH) as [Hz|_];
    [unfold EMPTY_STRING_LENGTH in Hz; lia|].
  rewrite (bind_ok _ _ _ _ _ (myStringLen_run _ _ _ Hss)).
  rewrite (bind_ok _ _ _ _ _ (myStringLen_run _ _ _ Hsd)).
  assert (Hadd : ulong_add (_length vs) (_length vd) = _length vs + _length vd).
  { unfold ulong_add, wrap_ulong. apply Z.mod_small. lia. }
  rewrite Hadd.
  destruct (hd true (oracle st)) eqn:Ho.
  2:{ rewrite (bind_ok _ _ _ _ _ (adjustMyStringLength_refused _ _ _ _ _ _ Hsd Hcd Hbd Ho)).
      eexists. split; [reflexivity | discriminate]. }
  rewrite (bind_ok _ _ _ _ _ (adjustMyStringLength_run _ _ _ _ _ _ Hsd Hcd Hbd Ho)).
  cbn [Z.eqb MYSTRING_SUCCESS MYSTRING_ERROR].
  erewrite (bind_ok (deref _)) by (apply deref_run; look).
  cbn [_chars ptr_add].
  set (n := Z.to_nat (_length vs + _length vd)).
  assert (Htx : take (Z.to_nat (_length vd)) bufd = xs) by (now rewrite Hxs).
  assert (Hty : take (Z.to_nat (_length vs)) bufs_ = ys) by (now rewrite Hys).
  assert (Hnew : forall junk,
            take (Z.to_nat (_length vd))
              (take n bufd ++ replicate (n - length bufd) junk) = xs).
  { intros junk. rewrite take_app_le by (subst n; len).
    rewrite take_take. rewrite <- Htx. f_equal. subst n. lia. }
  destruct (decide (d = s)) as [->|Hds].
  - (* the source is the destination itself *)
    assert (vs = vd) by congruence. subst vs.
    assert (bs = bd) by congruence. subst bs.
    assert (bufs_ = bufd) by congruence. subst bufs_.
    erewrite (bind_ok (deref _)) by (apply deref_run; look).
    cbn [_chars].
    erewrite (bind_ok (memcpy _ _ _)).
    2:{ eapply memcpy_run; [look | look | subst n; len | subst n; len | right; left; lia]. }
    eexists. split; [reflexivity|]. intros _. split.
    + eapply contents_intro; [look | reflexivity | look | cbn [_length]; lia | | ].
      * cbn [_length]. subst n. len.
      * cbn [_length]. fold n. rewrite drop_0.
        rewrite (take_ge (_ ++ _ ++ _)) by (subst n; len).
        rewrite Hnew. f_equal.
        rewrite drop_ge by (subst n; len). rewrite app_nil_r.
        rewrite Hnew. congruence.
    + erewrite myStringLen_run by look. cbn [_length]. f_equal. lia.
  - (* two instances with separate arrays *)
    assert (Hbb : bd <> bs).
    { destruct Hsep as [|Hsep]; [contradiction|].
      rewrite (chars_block_eq _ _ _ _ _ Hsd Hcd), (chars_block_eq _ _ _ _ _ Hss Hcs) in Hsep.
      congruence. }
    erewrite (bind_ok (deref _)) by (apply deref_run; look).
    rewrite Hcs.
    erewrite (bind_ok (memcpy _ _ _)).
    2:{ eapply memcpy_run; [look | look | subst n; len | lia | left; lia]. }
    eexists. split; [reflexivity|]. intros _. split.
    + eapply contents_intro; [look | reflexivity | look | cbn [_length]; lia | | ].
      * cbn [_length]. subst n. len.
      * cbn [_length]. fold n. rewrite drop_0.
        rewrite (take_ge (_ ++ _ ++ _)) by (subst n; len).
        rewrite Hnew, Hty. f_equal.
        rewrite drop_ge by (subst n; len). now rewrite app_nil_r.
    + erewrite myStringLen_run by look. cbn [_length]. f_equal. lia.
Qed.

Lemma myStringCat_appends_witness :
  exists st',
    myStringCat (Some O) (Some 1%nat) test_store = Ok MYSTRING_SUCCESS st' /\
    contents st' (Some O) = Some [97; 98; 100; 97; 98; 99; 122].
Proof.
  destruct (myStringCat_appends test_store 0 1 [97; 98; 100] [97; 98; 99; 122])
    as [_ H].
  - reflexivity.
  - reflexivity.
  - right. vm_compute. discriminate.
  - unfold ULONG_MOD. simpl. lia.
  - destruct (H ltac:(discriminate)) as (st' & Hrun & Hok).
    exists st'. split; [exact Hrun|]. exact (proj1 (Hok eq_refl)).
Defined.

(** C6. The filter scenario of the unit tests does not produce ["bc"]: on
    the instance that myStringSetFromCString builds from ["abcz"], whose
    array holds exactly the four characters, myStringFilter scans the array
    for a NUL and leaves it (an out-of-bounds fault); and on an instance
    whose array does hold a NUL after the four characters, myStringFilter
    returns success but has released the array it has just given to the
    instance, so that the instance holds no bytes and exporting it is a use
    after free. *)
Theorem myStringFilter_abcz :
  (exists s st,
     (let* s := myStringAlloc in
      let* r := myStringSetFromCString s (Some (O, O)) in
      ret (s, r)) abcz_literal = Ok (s, MYSTRING_SUCCESS) st /\
     contents st s = Some [97; 98; 99; 122] /\
     myStringFilter s (Some filt) st = Err OutOfBounds) /\
  (exists st',
     contents abcz_padded (Some O) = Some [97; 98; 99; 122] /\
     myStringFilter (Some O) (Some filt) abcz_padded = Ok MYSTRING_SUCCESS st' /\
     contents st' (Some O) = None /\
     myStringToCString (Some O) st' = Err UseAfterFree).
Proof.
  split.
  - eexists. eexists. split; [vm_compute; reflexivity|].
    split; vm_compute; reflexivity.
  - eexists. split; [reflexivity|]. split; [vm_compute; reflexivity|].
    split; vm_compute; reflexivity.
Qed.

(** C7. myStringClone, all allocation requests being granted, returns a new
    instance that is a different struct with a different array, holds the
    same bytes as the original, and is equal to it under myStringEqual; and
    after any sequence of mutators applied to the clone that runs without a
    fault, the original still holds the same bytes (hence the same
    length). *)
Theorem myStringClone_independent st a xs :
  contents st (Some a) = Some xs -> all_granted st ->
  exists c st1,
    myStringClone (Some a) st = Ok (Some c) st1 /\
    c <> a /\
    chars_block st1 (Some c) <> chars_block st1 (Some a) /\
    contents st1 (Some a) = Some xs /\
    contents st1 (Some c) = Some xs /\
    myStringEqual (Some c) (Some a) st1 = Ok TRUE st1 /\
    forall ms u st2,
      mutate_all (Some c) ms st1 = Ok u st2 ->
      contents st2 (Some a) = Some xs.
Proof.
  intros Ha Hg.
  pose proof (contents_inv _ _ _ Ha) as (va & ba & bufa & Hsa & Hca & Hba & H0a & H1a & Hxs).
  destruct (myStringClone_run st a xs Ha Hg) as (st1 & Hrun & Hc).
  set (c := length (strs st)) in *.
  assert (HI : separate a ba c va bufa st) by (now apply separate_initial).
  destruct (sep_myStringClone a ba c va bufa (Some a) st (Some c) st1 HI Hrun) as [HI1 Hlater].
  assert (Hac : (a < c)%nat) by (apply lookup_lt_Some in Hsa; exact Hsa).
  assert (Ha1 : contents st1 (Some a) = Some xs).
  { apply (separate_contents a ba c va bufa); auto. }
  exists c, st1. repeat split; auto.
  - lia.
  - destruct HI1 as (Hsa1 & _ & _ & _ & Hown).
    rewrite (chars_block_eq st1 a va ba O Hsa1 Hca).
    pose proof (contents_inv _ _ _ Hc) as (vc & bc & bufc & Hsc & Hcc & _).
    rewrite (chars_block_eq st1 c vc bc O Hsc Hcc).
    intros H. inversion H; subst bc. eapply (Hown c vc); eauto.
  - unfold myStringEqual.
    rewrite (bind_ok _ _ _ _ _ (myStringCompare_run _ _ _ _ _ Hc Ha1)).
    unfold compare_result. rewrite Nat.ltb_irrefl, cmp_bytes_refl. reflexivity.
  - intros ms u st2 Hm.
    destruct (sep_mutate_all a ba c va bufa (Some c) ms
                ltac:(intros s Hs; inversion Hs; lia) st1 u st2 HI1 Hm) as [HI2 _].
    apply (separate_contents a ba c va bufa); auto.
Qed.

Lemma myStringClone_independent_witness :
  exists c st1,
    myStringClone (Some 1%nat) test_store = Ok (Some c) st1 /\
    c <> 1%nat /\
    chars_block st1 (Some c) <> chars_block st1 (Some 1%nat) /\
    contents st1 (Some 1%nat) = Some [97; 98; 99; 122] /\
    contents st1 (Some c) = Some [97; 98; 99; 122] /\
    myStringEqual (Some c) (Some 1%nat) st1 = Ok TRUE st1 /\
    forall ms u st2,
      mutate_all (Some c) ms st1 = Ok u st2 ->
      contents st2 (Some 1%nat) = Some [97; 98; 99; 122].
Proof.
  apply (myStringClone_independent test_store 1 [97; 98; 99; 122]).
  - reflexivity.
  - unfold all_granted. simpl. constructor.
Defined.

(** C8. With a NULL argument myStringToInt returns MYSTRING_ERROR, the status
    of the mutators, which is not the sentinel MYSTR_ERROR_CODE and is the
    value of a string that parses, ["-1"]. *)
Theorem myStringToInt_null_status :
  forall st,
    myStringToInt None st = Ok MYSTRING_ERROR st /\
    MYSTRING_ERROR <> MYSTR_ERROR_CODE /\
    scan_int (decimal MYSTRING_ERROR) = (1, MYSTRING_ERROR).
Proof. intros st. repeat split. discriminate. Qed.

(** C9. myStringWrite on an instance and an open stream that accepts the
    output returns success when the allocation of the temporary C string is
    granted; and whenever it returns success the stream is closed in the
    resulting store. *)
Theorem myStringWrite_closes_stream st s f xs v :
  contents st (Some s) = Some xs ->
  files st !! f = Some v -> f_open v = true -> f_bad v = false ->
  hd true (oracle st) = true ->
  Z.of_nat (length xs) + 1 < ULONG_MOD ->
  (exists st', myStringWrite (Some s) (Some f) st = Ok MYSTRING_SUCCESS st') /\
  (forall st',
     myStringWrite (Some s) (Some f) st = Ok MYSTRING_SUCCESS st' ->
     exists v', files st' !! f = Some v' /\ f_open v' = false).
Proof.
  intros Hc Hf Hopen Hbad Ho Hlen.
  assert (Hclosed : forall st',
            myStringWrite (Some s) (Some f) st = Ok MYSTRING_SUCCESS st' ->
            exists v', files st' !! f = Some v' /\ f_open v' = false).
  { intros st' H. unfold myStringWrite in H.
    apply bind_inv in H as (cStr & st1 & _ & H).
    apply bind_inv in H as (w & st2 & _ & H).
    destruct (w <? 0).
    - apply ret_inv in H as [H _]. discriminate.
    - apply bind_inv in H as (u1 & st3 & _ & H).
      apply bind_inv in H as (u2 & st4 & H4 & H).
      apply ret_inv in H as [_ ->].
      apply fclose_inv in H4 as (f' & v' & Heq & Hl & Hcl).
      inversion Heq; subst f'. eauto. }
  split; [|exact Hclosed].
  unfold myStringWrite.
  rewrite (bind_ok _ _ _ _ _ (myStringToCString_run _ _ _ Hc Ho Hlen)).
  destruct (until_nul_total xs) as [t Ht].
  set (st1 := mkState _ _ _ _ _).
  assert (Hb1 : bufs st1 !! length (bufs st) = Some (Some (xs ++ [END_OF_C_STRING])))
    by (subst st1; look).
  assert (Hcs : c_string st1 (Some (length (bufs st), O)) = Some t).
  { unfold c_string. now rewrite Hb1, drop_0. }
  pose proof (until_nul_length _ _ Ht) as Htl.
  unfold fprintf_s.
  erewrite (bind_ok (bind _ _)).
  2:{ rewrite (bind_ok _ _ _ _ _ (get_file_ok f st1 v Hf Hopen)).
      rewrite (bind_ok _ _ _ _ _ (getCStringLength_ok _ _ _ Hcs)).
      erewrite (bind_ok (read_bytes _ _)).
      2:{ eapply read_bytes_ok; [exact Hb1 | rewrite Nat2Z.id; lia]. }
      rewrite Hbad. unfold put_file, bind, ret. reflexivity. }
  destruct (Z.ltb_spec (Z.of_nat (length t)) 0) as [|_]; [lia|].
  erewrite (bind_ok (free _)) by (eapply free_run; look).
  unfold fclose.
  erewrite (bind_ok (bind _ _)).
  2:{ erewrite (bind_ok (get_file _)).
      2:{ eapply get_file_ok; [cbn [files set_files]; eapply lookup_insert_same; exact Hf
                              | exact Hopen]. }
      unfold put_file, bind, ret. reflexivity. }
  eexists. reflexivity.
Qed.

Lemma myStringWrite_closes_stream_witness :
  (exists st', myStringWrite (Some O) (Some O) test_store = Ok MYSTRING_SUCCESS st') /\
  (forall st',
     myStringWrite (Some O) (Some O) test_store = Ok MYSTRING_SUCCESS st' ->
     exists v', files st' !! O = Some v' /\ f_open v' = false).
Proof.
  apply (myStringWrite_closes_stream test_store 0 0 [97; 98; 100] (mkFile true false [])).
  - reflexivity.
  - reflexivity.
  - reflexivity.
  - reflexivity.
  - reflexivity.
  - unfold ULONG_MOD. simpl. lia.
Defined.

(** C10. In myStringSetFromCString the test of the terminator never fires:
    whenever getCStringLength returns a length, the byte at that length is
    the NUL; and with non-null arguments and all allocation requests
    granted the function never returns the error status. *)
Theorem set_from_text_check_unreachable st s cs :
  (forall n st1,
     getCStringLength (Some cs) st = Ok n st1 ->
     st1 = st /\ load (ptr_add (Some cs) n) st1 = Ok END_OF_C_STRING st1) /\
  (all_granted st ->
   forall r st',
     myStringSetFromCString (Some s) (Some cs) st = Ok r st' ->
     r = MYSTRING_SUCCESS).
Proof.
  split.
  { intros n st1 H. apply getCStringLength_nul in H as [-> H]. auto. }
  intros Hg r st' H. unfold myStringSetFromCString in H.
  apply bind_inv in H as (n & st1 & H1 & H).
  apply getCStringLength_nul in H1 as [-> Hnul].
  rewrite (bind_ok _ _ _ _ _ Hnul) in H. rewrite Z.eqb_refl in H. cbn [negb] in H.
  apply bind_inv in H as (early & st2 & H2 & H).
  assert (Hearly : early = false /\ all_granted st2).
  { destruct (n =? 0).
    - apply bind_inv in H2 as (e & st3 & H3 & H2).
      apply emptyStringAlloc_inv in H3 as [Hor Hnone].
      destruct e as [e|].
      + apply ret_inv in H2 as [-> ->]. split; [reflexivity|].
        unfold all_granted. rewrite Hor. now apply Forall_tl.
      + rewrite (granted_hd _ Hg) in Hnone. specialize (Hnone eq_refl). discriminate.
    - apply ret_inv in H2 as [-> ->]. auto. }
  destruct Hearly as [-> Hg2].
  apply bind_inv in H as (a & st3 & H3 & H).
  apply adjustMyStringLength_inv in H3 as [_ Herr].
  destruct (Z.eqb_spec a MYSTRING_ERROR) as [Ha|_].
  - rewrite (granted_hd _ Hg2) in Herr. specialize (Herr Ha). discriminate.
  - apply bind_inv in H as (v & st4 & _ & H).
    apply bind_inv in H as (x & st5 & _ & H).
    now apply ret_inv in H as [-> _].
Qed.

Lemma set_from_text_check_unreachable_witness :
  all_granted test_store /\
  exists r st',
    myStringSetFromCString (Some O) (Some (2%nat, O)) test_store = Ok r st' /\
    r = MYSTRING_SUCCESS.
Proof.
  assert (Hg : all_granted test_store) by (unfold all_granted; simpl; constructor).
  split; [exact Hg|].
  eexists. eexists. split; [vm_compute; reflexivity|].
  eapply (proj2 (set_from_text_check_unreachable test_store 0 (2%nat, O)) Hg).
  vm_compute. reflexivity.
Defined.

(** * Further properties of the code *)

(** ** myStringCompare as an order *)

Lemma compare_result_cons x y xs ys :
  compare_result (x :: xs) (y :: ys) =
  if x =? y then compare_result xs ys
  else if (length ys <? length xs)%nat
       then (if x - y >=? EQUAL_STRINGS then STR1_BIGGER else STR2_BIGGER)
       else if (length xs <? length ys)%nat
            then (if x - y <=? EQUAL_STRINGS then STR2_BIGGER else STR1_BIGGER)
            else x - y.
Proof.
  unfold compare_result. cbn [length]. rewrite <- Nat.succ_min_distr.
  cbn [take cmp_bytes].
  change (S (length ys) <? S (length xs))%nat with (length ys <? length xs)%nat.
  change (S (length xs) <? S (length ys))%nat with (length xs <? length ys)%nat.
  destruct (x =? y); reflexivity.
Qed.

Lemma compare_result_sign xs :
  forall ys, Z.sgn (compare_result xs ys) = sign_of (lex_compare xs ys).
Proof.
  induction xs as [|x xs IH]; intros [|y ys].
  - reflexivity.
  - reflexivity.
  - reflexivity.
  - rewrite compare_result_cons. cbn [lex_compare].
    destruct (Z.eqb_spec x y) as [->|Hne].
    + rewrite Z.compare_refl. apply IH.
    + unfold EQUAL_STRINGS, STR1_BIGGER, STR2_BIGGER.
      destruct (Z.compare_spec x y) as [|Hlt|Hgt]; [contradiction| |]; cbn [sign_of].
      * destruct (_ <? _)%nat; [destruct (Z.geb_spec (x - y) 0); lia|].
        destruct (_ <? _)%nat; [destruct (Z.leb_spec (x - y) 0); lia|]. lia.
      * destruct (_ <? _)%nat; [destruct (Z.geb_spec (x - y) 0); lia|].
        destruct (_ <? _)%nat; [destruct (Z.leb_spec (x - y) 0); lia|]. lia.
Qed.

Lemma lex_compare_refl xs : lex_compare xs xs = Eq.
Proof. induction xs as [|x xs IH]; simpl; [reflexivity|]. now rewrite Z.compare_refl. Qed.

Lemma lex_compare_antisym xs :
  forall ys, lex_compare ys xs = CompOpp (lex_compare xs ys).
Proof.
  induction xs as [|x xs IH]; intros [|y ys]; simpl; try reflexivity.
  rewrite (Z.compare_antisym x y). destruct (x ?= y); simpl; auto.
Qed.

Lemma lex_compare_eq xs :
  forall ys, lex_compare xs ys = Eq -> xs = ys.
Proof.
  induction xs as [|x xs IH]; intros [|y ys]; simpl; try discriminate; auto.
  destruct (Z.compare_spec x y) as [->| |]; try discriminate. intros Hl. f_equal. auto.
Qed.

Lemma lex_le_trans xs :
  forall ys zs, lex_le xs ys -> lex_le ys zs -> lex_le xs zs.
Proof.
  unfold lex_le.
  induction xs as [|x xs IH]; intros [|y ys] [|z zs]; simpl; try congruence.
  destruct (Z.compare_spec x y), (Z.compare_spec y z), (Z.compare_spec x z);
    subst; try congruence; try lia; eauto.
Qed.

Lemma lex_le_total xs ys : lex_le xs ys \/ lex_le ys xs.
Proof.
  unfold lex_le. rewrite (lex_compare_antisym xs ys).
  destruct (lex_compare xs ys); simpl; auto; left + right; congruence.
Qed.

Lemma sign_of_le c : sign_of c <= 0 <-> c <> Gt.
Proof. destruct c; simpl; split; try congruence; try lia. Qed.

Lemma compare_result_zero xs ys : compare_result xs ys = 0 <-> xs = ys.
Proof.
  pose proof (compare_result_sign xs ys) as Hs. split.
  - intros H. rewrite H in Hs. apply lex_compare_eq.
    destruct (lex_compare xs ys); simpl in Hs; auto; discriminate.
  - intros ->. rewrite lex_compare_refl in Hs. simpl in Hs.
    now apply Z.sgn_null_iff.
Qed.

(** X1. myStringCompare is antisymmetric on the bytes of two instances: the
    two orders of the arguments give results of opposite signs, and the
    result is 0 exactly when the two instances hold the same bytes. *)
Theorem myStringCompare_antisymmetric st a b xs ys :
  contents st (Some a) = Some xs ->
  contents st (Some b) = Some ys ->
  exists r r',
    myStringCompare (Some a) (Some b) st = Ok r st /\
    myStringCompare (Some b) (Some a) st = Ok r' st /\
    Z.sgn r' = - Z.sgn r /\
    (r = 0 <-> xs = ys).
Proof.
  intros Ha Hb. exists (compare_result xs ys), (compare_result ys xs).
  split; [now apply myStringCompare_run|]. split; [now apply myStringCompare_run|].
  split; [|apply compare_result_zero].
  rewrite !compare_result_sign, (lex_compare_antisym xs ys).
  destruct (lex_compare xs ys); reflexivity.
Qed.

Lemma myStringCompare_antisymmetric_witness :
  exists r r',
    myStringCompare (Some O) (Some 1%nat) test_store = Ok r test_store /\
    myStringCompare (Some 1%nat) (Some O) test_store = Ok r' test_store /\
    Z.sgn r' = - Z.sgn r /\
    (r = 0 <-> [97; 98; 100] = [97; 98; 99; 122]).
Proof.
  exact (myStringCompare_antisymmetric test_store 0 1 _ _ eq_refl eq_refl).
Defined.

(** X2. myStringCompare is transitive: when a is not bigger than b and b is
    not bigger than c, a is not bigger than c.  With antisymmetry this makes
    it a total preorder on instances, as a comparator of qsort has to be. *)
Theorem myStringCompare_transitive st a b c xs ys zs :
  contents st (Some a) = Some xs ->
  contents st (Some b) = Some ys ->
  contents st (Some c) = Some zs ->
  exists r1 r2 r3,
    myStringCompare (Some a) (Some b) st = Ok r1 st /\
    myStringCompare (Some b) (Some c) st = Ok r2 st /\
    myStringCompare (Some a) (Some c) st = Ok r3 st /\
    (r1 <= 0 -> r2 <= 0 -> r3 <= 0).
Proof.
  intros Ha Hb Hc.
  exists (compare_result xs ys), (compare_result ys zs), (compare_result xs zs).
  repeat (split; [now apply myStringCompare_run|]).
  intros H1 H2.
  apply Z.sgn_nonpos in H1, H2. apply Z.sgn_nonpos.
  rewrite compare_result_sign in *. rewrite sign_of_le in *.
  exact (lex_le_trans xs ys zs H1 H2).
Qed.

Lemma myStringCompare_transitive_witness :
  exists r1 r2 r3,
    myStringCompare (Some 2%nat) (Some 1%nat) test_store = Ok r1 test_store /\
    myStringCompare (Some 1%nat) (Some O) test_store = Ok r2 test_store /\
    myStringCompare (Some 2%nat) (Some O) test_store = Ok r3 test_store /\
    (r1 <= 0 -> r2 <= 0 -> r3 <= 0).
Proof.
  exact (myStringCompare_transitive test_store 2 1 0 _ _ _ eq_refl eq_refl eq_refl).
Defined.

(** X3. myStringEqual returns TRUE exactly when the two instances hold the
    same bytes and FALSE otherwise; with a NULL argument it returns
    MYSTR_ERROR_CODE. *)
Theorem myStringEqual_same_bytes st a b xs ys :
  contents st (Some a) = Some xs ->
  contents st (Some b) = Some ys ->
  myStringEqual (Some a) (Some b) st =
    Ok (if decide (xs = ys) then TRUE else FALSE) st /\
  myStringEqual None (Some b) st = Ok MYSTR_ERROR_CODE st /\
  myStringEqual (Some a) None st = Ok MYSTR_ERROR_CODE st.
Proof.
  intros Ha Hb. split; [|split; reflexivity].
  unfold myStringEqual.
  rewrite (bind_ok _ _ _ _ _ (myStringCompare_run _ _ _ _ _ Ha Hb)).
  unfold ret, EQUAL_STRINGS. f_equal.
  destruct (Z.eqb_spec (compare_result xs ys) 0) as [H|H];
    rewrite compare_result_zero in H; destruct (decide (xs = ys)); congruence.
Qed.

Lemma myStringEqual_same_bytes_witness :
  myStringEqual (Some O) (Some 1%nat) test_store = Ok FALSE test_store /\
  myStringEqual (Some 1%nat) (Some 1%nat) test_store = Ok TRUE test_store.
Proof.
  split.
  - exact (proj1 (myStringEqual_same_bytes test_store 0 1 _ _ eq_refl eq_refl)).
  - exact (proj1 (myStringEqual_same_bytes test_store 1 1 _ _ eq_refl eq_refl)).
Defined.

(** ** Equality under a custom comparator *)

Lemma myStringCustomCompare_run st a b xs ys f :
  contents st (Some a) = Some xs ->
  contents st (Some b) = Some ys ->
  myStringCustomCompare (Some a) (Some b) (Some (pure_comparator f)) st =
  Ok (custom_compare_reference (Z.of_nat (length xs)) (Z.of_nat (length ys))
        (f st (Some a) (Some b))) st.
Proof.
  intros Ha Hb.
  pose proof (contents_inv _ _ _ Ha) as (va & ba & bufa & Hsa & _ & _ & H0a & _ & _).
  pose proof (contents_inv _ _ _ Hb) as (vb & bb & bufb & Hsb & _ & _ & H0b & _ & _).
  pose proof (contents_length _ _ _ _ Ha Hsa) as Hla.
  pose proof (contents_length _ _ _ _ Hb Hsb) as Hlb.
  unfold myStringCustomCompare.
  rewrite (bind_ok _ _ _ _ _ (myStringLen_run _ _ _ Hsa)).
  rewrite (bind_ok _ _ _ _ _ (myStringLen_run _ _ _ Hsb)).
  rewrite Hla, Hlb.
  rewrite (bind_ok _ _ _ _ _ (myStringCustomCompare_loop_pure _ _ _ _ _)).
  unfold custom_compare_reference, length_tiebreak.
  destruct (Z.to_nat (Z.min (Z.of_nat (length xs)) (Z.of_nat (length ys)))) eqn:Hmin.
  - assert (Hz : (Z.of_nat (length xs) =? 0) || (Z.of_nat (length ys) =? 0) = true).
    { apply orb_true_iff. rewrite !Z.eqb_eq. lia. }
    rewrite Hz. destruct (_ >? _); [reflexivity|]. destruct (_ <? _); reflexivity.
  - assert (Hz : (Z.of_nat (length xs) =? 0) || (Z.of_nat (length ys) =? 0) = false).
    { apply orb_false_iff. rewrite !Z.eqb_neq. lia. }
    rewrite Hz. unfold EQUAL_STRINGS, STR1_BIGGER, STR2_BIGGER.
    destruct (f st (Some a) (Some b) >? 0); [reflexivity|].
    destruct (f st (Some a) (Some b) <? 0); [reflexivity|].
    destruct (_ >? _); [reflexivity|]. destruct (_ <? _); reflexivity.
Qed.

(** X4. myStringCustomEqual, with a comparator that only inspects the store,
    returns TRUE exactly when the two instances have the same length and
    either are empty or the comparator yields 0 on the pair; the function
    itself never looks at the bytes.  With a NULL comparator it returns FALSE,
    not MYSTR_ERROR_CODE: only the two instances are tested for NULL. *)
Theorem myStringCustomEqual_lengths st a b xs ys :
  contents st (Some a) = Some xs ->
  contents st (Some b) = Some ys ->
  (forall f,
     myStringCustomEqual (Some a) (Some b) (Some (pure_comparator f)) st =
     Ok (if (length xs =? length ys)%nat &&
            ((length xs =? 0)%nat || (f st (Some a) (Some b) =? 0))
         then TRUE else FALSE) st) /\
  myStringCustomEqual (Some a) (Some b) None st = Ok FALSE st.
Proof.
  intros Ha Hb. split; [|reflexivity]. intros f. unfold myStringCustomEqual.
  rewrite (bind_ok _ _ _ _ _ (myStringCustomCompare_run _ _ _ _ _ f Ha Hb)).
  unfold ret. f_equal.
  unfold custom_compare_reference, length_tiebreak, EQUAL_STRINGS, STR1_BIGGER, STR2_BIGGER.
  destruct (Nat.eqb_spec (length xs) (length ys)) as [He|He];
    destruct (Nat.eqb_spec (length xs) 0) as [Hx|Hx];
    destruct (Z.eqb_spec (Z.of_nat (length xs)) 0); try lia;
    destruct (Z.eqb_spec (Z.of_nat (length ys)) 0); try lia;
    cbn [orb andb];
    destruct (Z.gtb_spec (Z.of_nat (length xs)) (Z.of_nat (length ys))); try lia;
    destruct (Z.ltb_spec (Z.of_nat (length xs)) (Z.of_nat (length ys))); try lia;
    try reflexivity;
    destruct (Z.gtb_spec (f st (Some a) (Some b)) 0);
    destruct (Z.ltb_spec (f st (Some a) (Some b)) 0);
    destruct (Z.eqb_spec (f st (Some a) (Some b)) 0); try lia; reflexivity.
Qed.

Lemma myStringCustomEqual_lengths_witness :
  myStringCustomEqual (Some O) (Some O)
    (Some (pure_comparator (fun _ _ _ => 0))) test_store = Ok TRUE test_store /\
  myStringCustomEqual (Some O) (Some 1%nat) None test_store = Ok FALSE test_store.
Proof.
  split.
  - exact (proj1 (myStringCustomEqual_lengths test_store 0 0 _ _ eq_refl eq_refl)
             (fun _ _ _ => 0)).
  - exact (proj2 (myStringCustomEqual_lengths test_store 0 1 _ _ eq_refl eq_refl)).
Defined.

(** ** Copying and concatenating *)

(** X5. myStringCatTo: for two source instances that hold [xs] and [ys] (they
    may be the same instance) and a result instance that is another struct
    with an array of its own, the call succeeds when the allocation request
    is granted, the result then holds [xs] followed by [ys], and the two
    sources hold what they held. *)
Theorem myStringCatTo_concatenates st a b r xs ys vr br old :
  contents st (Some a) = Some xs ->
  contents st (Some b) = Some ys ->
  strs st !! r = Some (Some vr) -> _chars vr = Some (br, O) ->
  bufs st !! br = Some (Some old) ->
  r <> a -> r <> b ->
  chars_block st (Some a) <> Some br ->
  chars_block st (Some b) <> Some br ->
  Z.of_nat (length xs) + Z.of_nat (length ys) < ULONG_MOD ->
  hd true (oracle st) = true ->
  exists st',
    myStringCatTo (Some a) (Some b) (Some r) st = Ok MYSTRING_SUCCESS st' /\
    contents st' (Some r) = Some (xs ++ ys) /\
    contents st' (Some a) = Some xs /\
    contents st' (Some b) = Some ys.
Proof.
  intros Ha Hb Hr Hcr Hbr Hra Hrb Hna Hnb Hsum Ho.
  pose proof (contents_inv _ _ _ Ha) as (va & ba & bufa & Hsa & Hca & Hba & H0a & H1a & Hxs).
  pose proof (contents_inv _ _ _ Hb) as (vb & bb & bufb & Hsb & Hcb & Hbb & H0b & H1b & Hys).
  pose proof (contents_length _ _ _ _ Ha Hsa) as Hla.
  pose proof (contents_length _ _ _ _ Hb Hsb) as Hlb.
  rewrite (chars_block_eq _ _ _ _ _ Hsa Hca) in Hna.
  rewrite (chars_block_eq _ _ _ _ _ Hsb Hcb) in Hnb.
  assert (Hbal : (ba < length (bufs st))%nat) by (eapply lookup_lt_Some; eauto).
  assert (Hbbl : (bb < length (bufs st))%nat) by (eapply lookup_lt_Some; eauto).
  assert (Hbrl : (br < length (bufs st))%nat) by (eapply lookup_lt_Some; eauto).
  assert (Hnea : ba <> br) by congruence.
  assert (Hneb : bb <> br) by congruence.
  unfold myStringCatTo.
  rewrite (bind_ok _ _ _ _ _ (deref_run _ _ _ Hsa)).
  assert (Hboth :
    (if _length va =? EMPTY_STRING_LENGTH
     then let* s2 := deref (Some b) in ret (_length s2 =? EMPTY_STRING_LENGTH)
     else ret false) st =
    Ok ((_length va =? EMPTY_STRING_LENGTH) && (_length vb =? EMPTY_STRING_LENGTH)) st).
  { destruct (_length va =? EMPTY_STRING_LENGTH); [|reflexivity].
    now rewrite (bind_ok _ _ _ _ _ (deref_run _ _ _ Hsb)). }
  rewrite (bind_ok _ _ _ _ _ Hboth).
  destruct ((_length va =? EMPTY_STRING_LENGTH) && (_length vb =? EMPTY_STRING_LENGTH))
    eqn:Hempty.
  - (* both sources are empty *)
    apply andb_true_iff in Hempty as [Hza Hzb].
    apply Z.eqb_eq in Hza, Hzb.
    rewrite (bind_ok _ _ _ _ _ (emptyStringAlloc_run _ _ _ Hr Ho)).
    assert (xs = []) as -> by (rewrite Hxs, Hza; reflexivity).
    assert (ys = []) as -> by (rewrite Hys, Hzb; reflexivity).
    eexists. split; [reflexivity|]. split; [|split].
    + eapply contents_intro;
        [look | reflexivity | look | cbn [_length]; unfold EMPTY_STRING_LENGTH; lia
        | cbn [_length]; unfold EMPTY_STRING_LENGTH; simpl; lia | reflexivity].
    + eapply contents_intro; [look | exact Hca | look | | | ]; auto.
    + eapply contents_intro; [look | exact Hcb | look | | | ]; auto.
  - clear Hempty Hboth.
    rewrite (bind_ok _ _ _ _ _ (myStringLen_run _ _ _ Hsa)).
    rewrite (bind_ok _ _ _ _ _ (myStringLen_run _ _ _ Hsb)).
    assert (Hadd : ulong_add (_length va) (_length vb) = _length va + _length vb).
    { unfold ulong_add, wrap_ulong. apply Z.mod_small. lia. }
    rewrite Hadd.
    rewrite (bind_ok _ _ _ _ _ (adjustMyStringLength_run _ _ _ _ _ _ Hr Hcr Hbr Ho)).
    cbn [Z.eqb MYSTRING_SUCCESS MYSTRING_ERROR].
    set (n := Z.to_nat (_length va + _length vb)).
    erewrite (bind_ok (deref _)) by (apply deref_run; look).
    erewrite (bind_ok (deref _)) by (apply deref_run; look).
    cbn [_chars]. rewrite Hca.
    erewrite (bind_ok (memcpy _ _ _)).
    2:{ eapply memcpy_run; [look | look | subst n; len | lia | left; lia]. }
    erewrite (bind_ok (deref _)) by (apply deref_run; look).
    erewrite (bind_ok (deref _)) by (apply deref_run; look).
    cbn [_chars ptr_add]. rewrite Hcb.
    erewrite (bind_ok (memcpy _ _ _)).
    2:{ eapply memcpy_run; [look | look | subst n; len | lia | left; lia]. }
    eexists. split; [reflexivity|]. split; [|split].
    + eapply contents_intro; [look | reflexivity | look | cbn [_length]; lia | | ].
      * cbn [_length]. subst n. len.
      * cbn [_length]. fold n. rewrite !drop_0, take_0, app_nil_l.
        rewrite <- Hxs, <- Hys.
        rewrite (take_ge (_ ++ _ ++ _)) by (subst n; len).
        rewrite take_app_length' by (subst n; len).
        f_equal. rewrite drop_ge by (subst n; len). now rewrite app_nil_r.
    + eapply contents_intro; [look | exact Hca | look | | | ]; auto.
    + eapply contents_intro; [look | exact Hcb | look | | | ]; auto.
Qed.

Lemma myStringCatTo_concatenates_witness :
  exists st',
    myStringCatTo (Some O) (Some 1%nat) (Some 2%nat) test_store =
      Ok MYSTRING_SUCCESS st' /\
    contents st' (Some 2%nat) = Some ([97; 98; 100] ++ [97; 98; 99; 122]) /\
    contents st' (Some O) = Some [97; 98; 100] /\
    contents st' (Some 1%nat) = Some [97; 98; 99; 122].
Proof.
  apply (myStringCatTo_concatenates test_store 0 1 2 _ _
           (mkMyString (Some (3%nat, O)) 0) 3 [0]);
    try reflexivity; try (vm_compute; discriminate); try lia.
Defined.

Lemma myStringSetFromMyString_head st s v b old o ys :
  strs st !! s = Some (Some v) -> _chars v = Some (b, O) ->
  bufs st !! b = Some (Some old) ->
  contents st (Some o) = Some ys ->
  chars_block st (Some o) <> Some b ->
  hd true (oracle st) = true ->
  exists st',
    myStringSetFromMyString (Some s) (Some o) st = Ok MYSTRING_SUCCESS st' /\
    contents st' (Some s) = Some ys /\
    contents st' (Some o) = Some ys.
Proof.
  intros Hs Hc Hb Ho Hne Ho1.
  pose proof (contents_inv _ _ _ Ho) as (vo & bo & bufo & Hso & Hco & Hbo & H0o & H1o & Hys).
  assert (Hbl : (b < length (bufs st))%nat) by (eapply lookup_lt_Some; eauto).
  assert (Hbol : (bo < length (bufs st))%nat) by (eapply lookup_lt_Some; eauto).
  assert (Hbb : bo <> b).
  { rewrite (chars_block_eq _ _ _ _ _ Hso Hco) in Hne. congruence. }
  assert (Hso' : s <> o) by congruence.
  unfold myStringSetFromMyString.
  rewrite (bind_ok _ _ _ _ _ (deref_run _ _ _ Hso)).
  destruct (Z.eqb_spec (_length vo) EMPTY_STRING_LENGTH) as [Hz|Hz].
  - rewrite (bind_ok _ _ _ _ _ (emptyStringAlloc_run _ _ _ Hs Ho1)).
    eexists; split; [reflexivity|]. split.
    + eapply contents_intro;
        [look | reflexivity | look | cbn [_length]; unfold EMPTY_STRING_LENGTH; lia
        | cbn [_length]; unfold EMPTY_STRING_LENGTH; simpl; lia |].
      cbn [_length]. rewrite Hys, Hz. reflexivity.
    + eapply contents_intro; [look | exact Hco | look | | | ]; auto.
  - rewrite (bind_ok _ _ _ _ _ (myStringLen_run _ _ _ Hso)).
    rewrite (bind_ok _ _ _ _ _ (adjustMyStringLength_run _ _ _ _ _ _ Hs Hc Hb Ho1)).
    cbn [Z.eqb MYSTRING_SUCCESS MYSTRING_ERROR].
    erewrite (bind_ok (deref _)) by (apply deref_run; look).
    erewrite (bind_ok (deref _)) by (apply deref_run; look).
    rewrite Hco. cbn [_chars].
    erewrite (bind_ok (memcpy _ _ _)).
    2:{ eapply memcpy_run; [look | look | len | lia | left; lia]. }
    eexists; split; [reflexivity|]. split.
    + eapply contents_intro; [look | reflexivity | look | cbn [_length]; lia | | ].
      * cbn [_length]. len.
      * cbn [_length]. rewrite take_0, app_nil_l, drop_0.
        rewrite take_app_length'; [| len]. now rewrite Hys.
    + eapply contents_intro; [look | exact Hco | look | | | ]; auto.
Qed.

(** X6. myStringSetFromMyString: for a receiver with an array of its own and
    another instance that holds [ys], the call succeeds when the allocation
    request is granted, the receiver then holds [ys] and the other instance
    still holds [ys]; with a NULL receiver or a NULL source the call returns
    the error status and leaves the store as it is. *)
Theorem myStringSetFromMyString_copies st s v b old o ys :
  strs st !! s = Some (Some v) -> _chars v = Some (b, O) ->
  bufs st !! b = Some (Some old) ->
  contents st (Some o) = Some ys ->
  chars_block st (Some o) <> Some b ->
  hd true (oracle st) = true ->
  (exists st',
    myStringSetFromMyString (Some s) (Some o) st = Ok MYSTRING_SUCCESS st' /\
    contents st' (Some s) = Some ys /\
    contents st' (Some o) = Some ys) /\
  myStringSetFromMyString None (Some o) st = Ok MYSTRING_ERROR st /\
  myStringSetFromMyString (Some s) None st = Ok MYSTRING_ERROR st.
Proof.
  intros Hs Hc Hb Ho Hne Ho1. split; [|split; reflexivity].
  eapply myStringSetFromMyString_head; eauto.
Qed.

Lemma myStringSetFromMyString_copies_witness :
  (exists st',
    myStringSetFromMyString (Some 2%nat) (Some 1%nat) test_store =
      Ok MYSTRING_SUCCESS st' /\
    contents st' (Some 2%nat) = Some [97; 98; 99; 122] /\
    contents st' (Some 1%nat) = Some [97; 98; 99; 122]) /\
  myStringSetFromMyString None (Some 1%nat) test_store = Ok MYSTRING_ERROR test_store /\
  myStringSetFromMyString (Some 2%nat) None test_store = Ok MYSTRING_ERROR test_store.
Proof.
  apply (myStringSetFromMyString_copies test_store 2
           (mkMyString (Some (3%nat, O)) 0) 3 [0] 1);
    try reflexivity. vm_compute. discriminate.
Defined.

(** ** Refused allocation requests *)

Lemma malloc_refused st n :
  hd true (oracle st) = false ->
  malloc n st =
  Ok None (mkState (bufs st) (strs st) (files st) (tl (oracle st)) (junk st)).
Proof. intros H. unfold malloc, next_request, bind. rewrite H. reflexivity. Qed.

Lemma malloc_str_refused st :
  hd true (oracle st) = false ->
  malloc_str st =
  Ok None (mkState (bufs st) (strs st) (files st) (tl (oracle st)) (junk st)).
Proof. intros H. unfold malloc_str, next_request, bind. rewrite H. reflexivity. Qed.

Lemma emptyStringAlloc_refused st s v0 :
  strs st !! s = Some (Some v0) -> hd true (oracle st) = false ->
  emptyStringAlloc (Some s) st =
  Ok None
     (mkState (bufs st) (<[s := Some (mkMyString None (_length v0))]> (strs st))
        (files st) (tl (oracle st)) (junk st)).
Proof.
  intros Hs Ho. unfold emptyStringAlloc.
  rewrite (bind_ok _ _ _ _ _ (malloc_refused _ _ Ho)).
  erewrite (bind_ok (set_chars _ _)) by (apply set_chars_run; look).
  reflexivity.
Qed.

(** X7. The three outcomes of myStringAlloc.  When both requests are granted
    it returns a new struct that holds the empty string in a new one-byte
    array.  When the struct is refused it returns NULL and allocates
    nothing.  When the struct is granted and the array refused it returns
    NULL and the struct it obtained stays allocated. *)
Theorem myStringAlloc_outcomes st :
  (hd true (oracle st) = true -> hd true (tl (oracle st)) = true ->
   exists st',
     myStringAlloc st = Ok (Some (length (strs st))) st' /\
     contents st' (Some (length (strs st))) = Some [] /\
     bufs st' = bufs st ++ [Some [END_OF_C_STRING]] /\
     take (length (strs st)) (strs st') = strs st) /\
  (hd true (oracle st) = false ->
   exists st',
     myStringAlloc st = Ok None st' /\
     bufs st' = bufs st /\ strs st' = strs st) /\
  (hd true (oracle st) = true -> hd true (tl (oracle st)) = false ->
   exists st',
     myStringAlloc st = Ok None st' /\
     bufs st' = bufs st /\
     strs st' = strs st ++ [Some (mkMyString None (junk st))]).
Proof.
  split; [|split].
  - intros H1 H2. rewrite (myStringAlloc_run _ H1 H2).
    eexists. split; [reflexivity|]. split; [|split].
    + eapply contents_intro; [look | reflexivity | look | | | ];
        cbn [_length]; unfold EMPTY_STRING_LENGTH; simpl; auto; lia.
    + reflexivity.
    + cbn [strs]. now rewrite take_app_length.
  - intros H1. unfold myStringAlloc.
    rewrite (bind_ok _ _ _ _ _ (malloc_str_refused _ H1)).
    eexists. split; [reflexivity|]. split; reflexivity.
  - intros H1 H2. unfold myStringAlloc.
    rewrite (bind_ok _ _ _ _ _ (malloc_str_run _ H1)).
    erewrite (bind_ok (emptyStringAlloc _)).
    2:{ eapply emptyStringAlloc_refused; [look | exact H2]. }
    eexists. split; [reflexivity|]. split; [reflexivity|].
    cbn [strs _length]. now rewrite insert_snoc.
Qed.

Lemma myStringAlloc_outcomes_witness :
  (exists st',
     myStringAlloc test_store = Ok (Some 3%nat) st' /\
     contents st' (Some 3%nat) = Some []) /\
  (exists st',
     myStringAlloc (set_oracle test_store [false]) = Ok None st' /\
     bufs st' = bufs test_store /\ strs st' = strs test_store) /\
  (exists st',
     myStringAlloc (set_oracle test_store [true; false]) = Ok None st' /\
     strs st' = strs test_store ++ [Some (mkMyString None 0)]).
Proof.
  split; [|split].
  - destruct (proj1 (myStringAlloc_outcomes test_store) eq_refl eq_refl)
      as (st' & H1 & H2 & _).
    exists st'. split; [exact H1 | exact H2].
  - exact (proj1 (proj2 (myStringAlloc_outcomes (set_oracle test_store [false]))) eq_refl).
  - destruct (proj2 (proj2 (myStringAlloc_outcomes (set_oracle test_store [true; false])))
                eq_refl eq_refl) as (st' & H1 & _ & H2).
    exists st'. split; [exact H1 | exact H2].
Defined.

Lemma myStringFree_run st s v b bytes :
  strs st !! s = Some (Some v) -> _chars v = Some (b, O) ->
  bufs st !! b = Some (Some bytes) ->
  myStringFree (Some s) st =
  Ok tt (mkState (<[b := None]> (bufs st)) (<[s := None]> (strs st))
           (files st) (oracle st) (junk st)).
Proof.
  intros Hs Hc Hb.
  change (myStringFree (Some s)) with
    (let* v := get_str s in
     let* _ := free (_chars v) in
     let* _ := set_chars (Some s) None in
     free_str s).
  rewrite (bind_ok _ _ _ _ _ (get_str_ok _ _ _ Hs)). rewrite Hc.
  rewrite (bind_ok _ _ _ _ _ (free_run _ _ _ Hb)).
  erewrite (bind_ok (set_chars _ _)) by (apply set_chars_run; look).
  unfold free_str.
  erewrite (bind_ok (get_str _)) by (apply get_str_ok; look).
  cbn [bufs strs files oracle junk set_strs]. now rewrite list_insert_insert_eq.
Qed.

(** X8. myStringFree releases the struct and its array and nothing else; a
    second release of the same instance, or any use of it, is a use after
    free.  For NULL it does nothing. *)
Theorem myStringFree_releases st s xs :
  contents st (Some s) = Some xs ->
  exists b st',
    chars_block st (Some s) = Some b /\
    myStringFree (Some s) st = Ok tt st' /\
    strs st' = <[s := None]> (strs st) /\
    bufs st' = <[b := None]> (bufs st) /\
    files st' = files st /\
    myStringFree (Some s) st' = Err UseAfterFree /\
    myStringLen (Some s) st' = Err UseAfterFree /\
    myStringFree None st = Ok tt st.
Proof.
  intros Hc.
  pose proof (contents_inv _ _ _ Hc) as (v & b & buf & Hs & Hch & Hb & _).
  exists b. eexists. split; [exact (chars_block_eq _ _ _ _ _ Hs Hch)|].
  split; [exact (myStringFree_run _ _ _ _ _ Hs Hch Hb)|].
  repeat split.
  - simpl. unfold bind, get_str. cbn [strs].
    now rewrite (lookup_insert_same _ _ _ _ Hs).
  - simpl. unfold bind, get_str. cbn [strs].
    now rewrite (lookup_insert_same _ _ _ _ Hs).
Qed.

Lemma myStringFree_releases_witness :
  exists b st',
    chars_block test_store (Some 1%nat) = Some b /\
    myStringFree (Some 1%nat) test_store = Ok tt st' /\
    strs st' = <[1%nat := None]> (strs test_store) /\
    bufs st' = <[b := None]> (bufs test_store) /\
    files st' = files test_store /\
    myStringFree (Some 1%nat) st' = Err UseAfterFree /\
    myStringLen (Some 1%nat) st' = Err UseAfterFree /\
    myStringFree None test_store = Ok tt test_store.
Proof.
  exact (myStringFree_releases test_store 1 _ eq_refl).
Defined.

(** X9. Allocating an instance and releasing it leaks nothing: when both
    requests are granted, the store afterwards is the previous one followed
    by a released struct and a released array. *)
Theorem myStringAlloc_then_free st :
  hd true (oracle st) = true -> hd true (tl (oracle st)) = true ->
  exists st',
    (let* p := myStringAlloc in myStringFree p) st = Ok tt st' /\
    strs st' = strs st ++ [None] /\
    bufs st' = bufs st ++ [None] /\
    files st' = files st.
Proof.
  intros H1 H2. rewrite (bind_ok _ _ _ _ _ (myStringAlloc_run _ H1 H2)).
  erewrite myStringFree_run; [| look | reflexivity | look].
  eexists. split; [reflexivity|]. cbn [bufs strs files].
  now rewrite !insert_snoc.
Qed.

Lemma myStringAlloc_then_free_witness :
  exists st',
    (let* p := myStringAlloc in myStringFree p) test_store = Ok tt st' /\
    strs st' = strs test_store ++ [None] /\
    bufs st' = bufs test_store ++ [None] /\
    files st' = files test_store.
Proof. exact (myStringAlloc_then_free test_store eq_refl eq_refl). Defined.

(** X10. A refused reallocation in myStringCat: the call returns the error
    status, the destination loses its array (its [_chars] is NULL while its
    [_length] is still the old one, so it holds no bytes any more) although
    the old array stays allocated, and a source that is another instance is
    unchanged. *)
Theorem myStringCat_refused st d s xs ys :
  contents st (Some d) = Some xs ->
  contents st (Some s) = Some ys ->
  ys <> [] ->
  Z.of_nat (length xs) + Z.of_nat (length ys) < ULONG_MOD ->
  hd true (oracle st) = false ->
  exists st',
    myStringCat (Some d) (Some s) st = Ok MYSTRING_ERROR st' /\
    strs st' !! d = Some (Some (mkMyString None (Z.of_nat (length xs)))) /\
    contents st' (Some d) = None /\
    bufs st' = bufs st /\
    (d <> s -> contents st' (Some s) = Some ys).
Proof.
  intros Hd Hs Hne Hsum Ho.
  pose proof (contents_inv _ _ _ Hd) as (vd & bd & bufd & Hsd & Hcd & Hbd & H0d & H1d & Hxs).
  pose proof (contents_inv _ _ _ Hs) as (vs & bs & bufs_ & Hss & Hcs & Hbs & H0s & H1s & Hys).
  pose proof (contents_length _ _ _ _ Hd Hsd) as Hld.
  pose proof (contents_length _ _ _ _ Hs Hss) as Hls.
  assert (Hpos : (0 < length ys)%nat) by (destruct ys; [congruence | simpl; lia]).
  unfold myStringCat.
  rewrite (bind_ok _ _ _ _ _ (deref_run _ _ _ Hss)).
  destruct (Z.eqb_spec (_length vs) EMPTY_STRING_LENGTH) as [Hz|_];
    [unfold EMPTY_STRING_LENGTH in Hz; lia|].
  rewrite (bind_ok _ _ _ _ _ (myStringLen_run _ _ _ Hss)).
  rewrite (bind_ok _ _ _ _ _ (myStringLen_run _ _ _ Hsd)).
  rewrite (bind_ok _ _ _ _ _ (adjustMyStringLength_refused _ _ _ _ _ _ Hsd Hcd Hbd Ho)).
  eexists. split; [reflexivity|]. cbn [strs bufs].
  assert (Hl : <[d := Some (mkMyString None (_length vd))]> (strs st) !! d =
               Some (Some (mkMyString None (Z.of_nat (length xs))))).
  { rewrite (lookup_insert_same _ _ _ _ Hsd). now rewrite Hld. }
  split; [exact Hl|]. split; [|split; [reflexivity|]].
  - unfold contents. cbn [strs]. now rewrite Hl.
  - intros Hds. eapply contents_intro; [look | exact Hcs | look | | | ]; auto.
Qed.

Lemma myStringCat_refused_witness :
  exists st',
    myStringCat (Some O) (Some 1%nat) (set_oracle test_store [false]) =
      Ok MYSTRING_ERROR st' /\
    strs st' !! O = Some (Some (mkMyString None 3)) /\
    contents st' (Some O) = None /\
    bufs st' = bufs test_store /\
    (O <> 1%nat -> contents st' (Some 1%nat) = Some [97; 98; 99; 122]).
Proof.
  apply (myStringCat_refused (set_oracle test_store [false]) 0 1 [97; 98; 100]);
    try reflexivity. discriminate.
Defined.

(** X11. Setting an instance from an empty instance replaces its array by a
    new one-byte array without releasing the old one: after the call the
    receiver is empty and points to the new array, and the array it had is
    still allocated with its bytes. *)
Theorem myStringSetFromMyString_empty_keeps_array st s v b old o :
  strs st !! s = Some (Some v) -> _chars v = Some (b, O) ->
  bufs st !! b = Some (Some old) ->
  contents st (Some o) = Some [] ->
  hd true (oracle st) = true ->
  exists st',
    myStringSetFromMyString (Some s) (Some o) st = Ok MYSTRING_SUCCESS st' /\
    contents st' (Some s) = Some [] /\
    chars_block st' (Some s) = Some (length (bufs st)) /\
    bufs st' = bufs st ++ [Some [END_OF_C_STRING]] /\
    bufs st' !! b = Some (Some old).
Proof.
  intros Hs Hc Hb Ho Ho1.
  pose proof (contents_inv _ _ _ Ho) as (vo & bo & bufo & Hso & Hco & Hbo & H0o & H1o & Hys).
  pose proof (contents_length _ _ _ _ Ho Hso) as Hlo.
  unfold myStringSetFromMyString.
  rewrite (bind_ok _ _ _ _ _ (deref_run _ _ _ Hso)).
  destruct (Z.eqb_spec (_length vo) EMPTY_STRING_LENGTH) as [_|Hz];
    [|unfold EMPTY_STRING_LENGTH in Hz; simpl in Hlo; lia].
  rewrite (bind_ok _ _ _ _ _ (emptyStringAlloc_run _ _ _ Hs Ho1)).
  eexists. split; [reflexivity|]. split; [|split; [|split]].
  - eapply contents_intro;
      [look | reflexivity | look | cbn [_length]; unfold EMPTY_STRING_LENGTH; lia
      | cbn [_length]; unfold EMPTY_STRING_LENGTH; simpl; lia | reflexivity].
  - eapply chars_block_eq; [look | reflexivity].
  - reflexivity.
  - look.
Qed.

Lemma myStringSetFromMyString_empty_keeps_array_witness :
  exists st',
    myStringSetFromMyString (Some O) (Some 2%nat) test_store =
      Ok MYSTRING_SUCCESS st' /\
    contents st' (Some O) = Some [] /\
    chars_block st' (Some O) = Some 4%nat /\
    bufs st' = bufs test_store ++ [Some [END_OF_C_STRING]] /\
    bufs st' !! O = Some (Some [97; 98; 100]).
Proof.
  exact (myStringSetFromMyString_empty_keeps_array test_store 0
           (mkMyString (Some (O, O)) 3) 0 [97; 98; 100] 2
           eq_refl eq_refl eq_refl eq_refl eq_refl).
Defined.

(** X12. myStringClone under every outcome of the allocator: the call never
    faults on a well-formed instance, it returns a clone that holds the same
    bytes when its three allocation requests are granted and NULL as soon
    as one of them is refused, and in every case the source holds what it
    held. *)
Theorem myStringClone_outcomes st a xs :
  contents st (Some a) = Some xs ->
  exists r st',
    myStringClone (Some a) st = Ok r st' /\
    contents st' (Some a) = Some xs /\
    (hd true (oracle st) && hd true (tl (oracle st)) &&
     hd true (tl (tl (oracle st))) = true ->
     exists c, r = Some c /\ c <> a /\ contents st' (Some c) = Some xs) /\
    (hd true (oracle st) && hd true (tl (oracle st)) &&
     hd true (tl (tl (oracle st))) = false -> r = None).
Proof.
  intros Ha.
  pose proof (contents_inv _ _ _ Ha) as (va & ba & bufa & Hsa & Hca & Hba & H0a & H1a & Hxs).
  assert (Hbal : (ba < length (bufs st))%nat) by (eapply lookup_lt_Some; eauto).
  assert (Hal : (a < length (strs st))%nat) by (eapply lookup_lt_Some; eauto).
  assert (Hrun : exists r st',
            myStringClone (Some a) st = Ok r st' /\
            (hd true (oracle st) && hd true (tl (oracle st)) &&
             hd true (tl (tl (oracle st))) = true ->
             exists c, r = Some c /\ c <> a /\ contents st' (Some c) = Some xs) /\
            (hd true (oracle st) && hd true (tl (oracle st)) &&
             hd true (tl (tl (oracle st))) = false -> r = None)).
  { unfold myStringClone.
    destruct (hd true (oracle st)) eqn:H1.
    2:{ unfold myStringAlloc.
        rewrite bind_assoc, (bind_ok _ _ _ _ _ (malloc_str_refused _ H1)).
        do 2 eexists. split; [reflexivity|]. split; [discriminate | reflexivity]. }
    destruct (hd true (tl (oracle st))) eqn:H2.
    2:{ unfold myStringAlloc.
        rewrite bind_assoc, (bind_ok _ _ _ _ _ (malloc_str_run _ H1)).
        rewrite bind_assoc.
        erewrite (bind_ok (emptyStringAlloc _)).
        2:{ eapply emptyStringAlloc_refused; [look | exact H2]. }
        do 2 eexists. split; [reflexivity|]. split; [discriminate | reflexivity]. }
    rewrite (bind_ok _ _ _ _ _ (myStringAlloc_run _ H1 H2)).
    set (st1 := mkState _ _ _ _ _).
    assert (Ha1 : contents st1 (Some a) = Some xs).
    { eapply contents_intro; [subst st1; look | exact Hca | subst st1; look | | | ]; auto. }
    assert (Hc1 : strs st1 !! length (strs st) =
                  Some (Some (mkMyString (Some (length (bufs st), O)) EMPTY_STRING_LENGTH)))
      by (subst st1; look).
    assert (Hb1 : bufs st1 !! length (bufs st) = Some (Some [END_OF_C_STRING]))
      by (subst st1; look).
    assert (Hsa1 : strs st1 !! a = Some (Some va)) by (subst st1; look).
    cbn [andb].
    destruct (hd true (tl (tl (oracle st)))) eqn:H3.
    - destruct (myStringSetFromMyString_head st1 (length (strs st)) _
                  (length (bufs st)) _ a xs Hc1 eq_refl Hb1 Ha1)
        as (st2 & Hrun & Hc2 & _).
      + rewrite (chars_block_eq st1 a va ba O Hsa1 Hca). intros H; inversion H; lia.
      + exact H3.
      + rewrite (bind_ok _ _ _ _ _ Hrun). cbn [Z.eqb MYSTRING_SUCCESS MYSTRING_ERROR].
        do 2 eexists. split; [reflexivity|]. split; [|discriminate].
        intros _. eexists. split; [reflexivity|]. split; [lia | exact Hc2].
    - assert (Hfail : exists st2,
                myStringSetFromMyString (Some (length (strs st))) (Some a) st1 =
                Ok MYSTRING_ERROR st2).
      { unfold myStringSetFromMyString.
        rewrite (bind_ok _ _ _ _ _ (deref_run _ _ _ Hsa1)).
        destruct (_ =? _).
        - erewrite (bind_ok (emptyStringAlloc _)).
          2:{ eapply emptyStringAlloc_refused; [exact Hc1 | exact H3]. }
          eexists. reflexivity.
        - rewrite (bind_ok _ _ _ _ _ (myStringLen_run _ _ _ Hsa1)).
          erewrite (bind_ok (adjustMyStringLength _ _)).
          2:{ eapply adjustMyStringLength_refused; [exact Hc1 | reflexivity | exact Hb1 | exact H3]. }
          eexists. reflexivity. }
      destruct Hfail as (st2 & Hfail). rewrite (bind_ok _ _ _ _ _ Hfail).
      cbn [Z.eqb MYSTRING_SUCCESS MYSTRING_ERROR].
      do 2 eexists. split; [reflexivity|]. split; [discriminate | reflexivity]. }
  destruct Hrun as (r & st' & Hrun & Hok & Hno).
  exists r, st'. split; [exact Hrun|]. split; [|split; assumption].
  assert (HI : separate a ba (length (strs st)) va bufa st) by (now apply separate_initial).
  destruct (sep_myStringClone a ba (length (strs st)) va bufa (Some a) st r st' HI Hrun)
    as [HI1 _].
  apply (separate_contents a ba (length (strs st)) va bufa); auto.
Qed.

Lemma myStringClone_outcomes_witness :
  exists r st',
    myStringClone (Some 1%nat) (set_oracle test_store [true; true; false]) = Ok r st' /\
    contents st' (Some 1%nat) = Some [97; 98; 99; 122] /\
    r = None.
Proof.
  destruct (myStringClone_outcomes (set_oracle test_store [true; true; false]) 1
              [97; 98; 99; 122] eq_refl) as (r & st' & Hrun & Ha & _ & Hno).
  exists r, st'. split; [exact Hrun|]. split; [exact Ha|]. exact (Hno eq_refl).
Defined.

(** ** Reading the array as a C string *)

Lemma getCStringLength_loop_no_nul st b off buf :
  bufs st !! b = Some (Some buf) ->
  Forall (fun c => c <> END_OF_C_STRING) buf ->
  forall fuel k, 0 <= k ->
    getCStringLength_loop fuel (Some (b, off)) k st = Err OutOfBounds.
Proof.
  intros Hb Hall. induction fuel as [|fuel IH]; intros k Hk.
  - simpl. destruct (buf !! (off + Z.to_nat k)%nat) as [c|] eqn:Hl.
    + rewrite (bind_ok _ _ _ _ _ (load_ok _ _ _ _ _ Hb Hl)).
      pose proof (proj1 (Forall_lookup _ _) Hall _ _ Hl) as Hc.
      destruct (Z.eqb_spec c END_OF_C_STRING); [contradiction | reflexivity].
    + apply bind_fail. unfold load.
      rewrite (bind_ok _ _ _ _ _ (get_buf_ok _ _ _ Hb)). now rewrite Hl.
  - simpl. destruct (buf !! (off + Z.to_nat k)%nat) as [c|] eqn:Hl.
    + rewrite (bind_ok _ _ _ _ _ (load_ok _ _ _ _ _ Hb Hl)).
      pose proof (proj1 (Forall_lookup _ _) Hall _ _ Hl) as Hc.
      destruct (Z.eqb_spec c END_OF_C_STRING); [contradiction|].
      apply IH. lia.
    + apply bind_fail. unfold load.
      rewrite (bind_ok _ _ _ _ _ (get_buf_ok _ _ _ Hb)). now rewrite Hl.
Qed.

Lemma getCStringLength_no_nul st b off buf :
  bufs st !! b = Some (Some buf) ->
  Forall (fun c => c <> END_OF_C_STRING) buf ->
  getCStringLength (Some (b, off)) st = Err OutOfBounds.
Proof.
  intros Hb Hall. unfold getCStringLength.
  now apply (getCStringLength_loop_no_nul st b off buf).
Qed.




Lemma fprintf_s_run st f v b buf t :
  files st !! f = Some v -> f_open v = true -> f_bad v = false ->
  bufs st !! b = Some (Some buf) -> until_nul buf = Some t ->
  fprintf_s (Some f) (Some (b, O)) st =
  Ok (Z.of_nat (length t))
     (set_files st (<[f := mkFile true false (f_data v ++ t)]> (files st))).
Proof.
  intros Hf Hopen Hbad Hb Ht. unfold fprintf_s.
  assert (Hcs : c_string st (Some (b, O)) = Some t).
  { unfold c_string. now rewrite Hb, drop_0. }
  rewrite (bind_ok _ _ _ _ _ (get_file_ok f st v Hf Hopen)).
  rewrite (bind_ok _ _ _ _ _ (getCStringLength_ok _ _ _ Hcs)).
  erewrite (bind_ok (read_bytes _ _)).
  2:{ eapply read_bytes_ok; [exact Hb|].
      apply until_nul_length in Ht. rewrite Nat2Z.id. lia. }
  rewrite Nat2Z.id, drop_0, (until_nul_take _ _ Ht).
  rewrite Hbad, Hopen. reflexivity.
Qed.

Lemma fprintf_s_bad st f v b buf t :
  files st !! f = Some v -> f_open v = true -> f_bad v = true ->
  bufs st !! b = Some (Some buf) -> until_nul buf = Some t ->
  fprintf_s (Some f) (Some (b, O)) st = Ok (-1) st.
Proof.
  intros Hf Hopen Hbad Hb Ht. unfold fprintf_s.
  assert (Hcs : c_string st (Some (b, O)) = Some t).
  { unfold c_string. now rewrite Hb, drop_0. }
  rewrite (bind_ok _ _ _ _ _ (get_file_ok f st v Hf Hopen)).
  rewrite (bind_ok _ _ _ _ _ (getCStringLength_ok _ _ _ Hcs)).
  erewrite (bind_ok (read_bytes _ _)).
  2:{ eapply read_bytes_ok; [exact Hb|].
      apply until_nul_length in Ht. rewrite Nat2Z.id. lia. }
  rewrite Hbad. reflexivity.
Qed.

Lemma until_nul_clean xs :
  Forall (fun c => c <> END_OF_C_STRING) xs ->
  until_nul (xs ++ [END_OF_C_STRING]) = Some xs.
Proof. intros H. now apply (until_nul_app xs []). Qed.

Lemma myStringWrite_run st s f xs v t :
  contents st (Some s) = Some xs ->
  files st !! f = Some v -> f_open v = true -> f_bad v = false ->
  hd true (oracle st) = true ->
  Z.of_nat (length xs) + 1 < ULONG_MOD ->
  until_nul (xs ++ [END_OF_C_STRING]) = Some t ->
  myStringWrite (Some s) (Some f) st =
  Ok MYSTRING_SUCCESS
     (mkState (bufs st ++ [None]) (strs st)
        (<[f := mkFile false false (f_data v ++ t)]> (files st))
        (tl (oracle st)) (junk st)).
Proof.
  intros Hc Hf Hopen Hbad Ho Hlen Ht.
  assert (Hfl : (f < length (files st))%nat) by (eapply lookup_lt_Some; eauto).
  unfold myStringWrite.
  rewrite (bind_ok _ _ _ _ _ (myStringToCString_run _ _ _ Hc Ho Hlen)).
  erewrite (bind_ok (fprintf_s _ _)).
  2:{ eapply fprintf_s_run; [exact Hf | exact Hopen | exact Hbad | look | exact Ht]. }
  destruct (Z.ltb_spec (Z.of_nat (length t)) 0) as [|_]; [lia|].
  erewrite (bind_ok (free _)) by (eapply free_run; look).
  unfold fclose.
  erewrite (bind_ok (bind _ _)).
  2:{ erewrite (bind_ok (get_file _)).
      2:{ eapply get_file_ok; [cbn [files set_files]; eapply lookup_insert_same; exact Hf
                              | reflexivity]. }
      unfold put_file, bind, ret. reflexivity. }
  unfold ret. f_equal. unfold set_files, set_bufs. cbn [bufs strs files oracle junk f_bad f_data].
  f_equal.
  - now rewrite insert_snoc.
  - now rewrite list_insert_insert_eq.
Qed.

(** X14. What a successful myStringWrite leaves behind: the stream has
    received the bytes of the instance that come before its first NUL byte
    (all of them when it holds none) after what it held, and is closed; the
    temporary C string has been released; no instance has changed. *)
Theorem myStringWrite_output st s f xs v t :
  contents st (Some s) = Some xs ->
  files st !! f = Some v -> f_open v = true -> f_bad v = false ->
  hd true (oracle st) = true ->
  Z.of_nat (length xs) + 1 < ULONG_MOD ->
  until_nul (xs ++ [END_OF_C_STRING]) = Some t ->
  exists st',
    myStringWrite (Some s) (Some f) st = Ok MYSTRING_SUCCESS st' /\
    files st' !! f = Some (mkFile false false (f_data v ++ t)) /\
    bufs st' = bufs st ++ [None] /\
    strs st' = strs st /\
    (Forall (fun c => c <> END_OF_C_STRING) xs -> t = xs).
Proof.
  intros Hc Hf Hopen Hbad Ho Hlen Ht.
  eexists. split; [eapply myStringWrite_run; eauto|].
  cbn [files bufs strs]. split; [|split; [|split]]; try reflexivity.
  - eapply lookup_insert_same; exact Hf.
  - intros Hall. rewrite (until_nul_clean _ Hall) in Ht. congruence.
Qed.

Lemma myStringWrite_output_witness :
  exists st',
    myStringWrite (Some 1%nat) (Some O) test_store = Ok MYSTRING_SUCCESS st' /\
    files st' !! O = Some (mkFile false false ([] ++ [97; 98; 99; 122])) /\
    bufs st' = bufs test_store ++ [None] /\
    strs st' = strs test_store /\
    (Forall (fun c => c <> END_OF_C_STRING) [97; 98; 99; 122] ->
     [97; 98; 99; 122] = [97; 98; 99; 122]).
Proof.
  exact (myStringWrite_output test_store 1 0 [97; 98; 99; 122]
           (mkFile true false []) [97; 98; 99; 122]
           eq_refl eq_refl eq_refl eq_refl eq_refl ltac:(vm_compute; reflexivity) eq_refl).
Defined.

(** X15. myStringWrite on a stream that refuses the output returns the error
    status and returns early: the stream is left open and unchanged, and the
    temporary C string is never released. *)
Theorem myStringWrite_refused_output st s f xs v :
  contents st (Some s) = Some xs ->
  files st !! f = Some v -> f_open v = true -> f_bad v = true ->
  hd true (oracle st) = true ->
  Z.of_nat (length xs) + 1 < ULONG_MOD ->
  exists st',
    myStringWrite (Some s) (Some f) st = Ok MYSTRING_ERROR st' /\
    files st' = files st /\
    bufs st' = bufs st ++ [Some (xs ++ [END_OF_C_STRING])] /\
    strs st' = strs st.
Proof.
  intros Hc Hf Hopen Hbad Ho Hlen.
  destruct (until_nul_total xs) as [t Ht].
  unfold myStringWrite.
  rewrite (bind_ok _ _ _ _ _ (myStringToCString_run _ _ _ Hc Ho Hlen)).
  erewrite (bind_ok (fprintf_s _ _)).
  2:{ eapply fprintf_s_bad; [exact Hf | exact Hopen | exact Hbad | look | exact Ht]. }
  cbn [Z.ltb Z.compare]. eexists. split; [reflexivity|]. repeat split.
Qed.

Lemma myStringWrite_refused_output_witness :
  exists st',
    myStringWrite (Some 1%nat) (Some O)
      (set_files test_store [mkFile true true []]) = Ok MYSTRING_ERROR st' /\
    files st' = [mkFile true true []] /\
    bufs st' = bufs test_store ++ [Some ([97; 98; 99; 122] ++ [END_OF_C_STRING])] /\
    strs st' = strs test_store.
Proof.
  exact (myStringWrite_refused_output (set_files test_store [mkFile true true []])
           1 0 [97; 98; 99; 122] (mkFile true true [])
           eq_refl eq_refl eq_refl eq_refl eq_refl ltac:(vm_compute; reflexivity)).
Defined.

(** X16. myStringWrite closes the stream it is given, so a second call on the
    same stream uses a closed stream: after a successful call, a call with
    any live instance and the same stream is a fault. *)
Theorem myStringWrite_twice st s f xs v s2 v2 :
  contents st (Some s) = Some xs ->
  files st !! f = Some v -> f_open v = true -> f_bad v = false ->
  hd true (oracle st) = true ->
  Z.of_nat (length xs) + 1 < ULONG_MOD ->
  contents st (Some s2) = Some v2 ->
  Z.of_nat (length v2) + 1 < ULONG_MOD ->
  exists st',
    myStringWrite (Some s) (Some f) st = Ok MYSTRING_SUCCESS st' /\
    myStringWrite (Some s2) (Some f) st' = Err BadStream.
Proof.
  intros Hc Hf Hopen Hbad Ho Hlen Hc2 Hlen2.
  destruct (until_nul_total xs) as [t Ht].
  eexists. split; [eapply myStringWrite_run; eauto|].
  set (st' := mkState _ _ _ _ _).
  assert (Hc2' : contents st' (Some s2) = Some v2).
  { pose proof (contents_inv _ _ _ Hc2) as (w & b & buf & Hs & Hch & Hb & H0 & H1 & Hx).
    eapply contents_intro; [exact Hs | exact Hch | subst st'; look | | | ]; auto. }
  assert (Hclosed : forall p, fprintf_s (Some f) p st' = Err BadStream).
  { intros p. unfold fprintf_s. apply bind_fail. unfold get_file. subst st'.
    cbn [files]. now rewrite (lookup_insert_same _ _ _ _ Hf). }
  unfold myStringWrite.
  pose proof (contents_inv _ _ _ Hc2') as (w & b & buf & Hs & Hch & Hb & H0 & H1 & Hx).
  pose proof (contents_length _ _ _ _ Hc2' Hs) as Hl.
  destruct (hd true (oracle st')) eqn:Ho'.
  - rewrite (bind_ok _ _ _ _ _ (myStringToCString_run _ _ _ Hc2' Ho' Hlen2)).
    apply bind_fail. unfold fprintf_s. apply bind_fail. unfold get_file.
    cbn [files]. subst st'. cbn [files]. now rewrite (lookup_insert_same _ _ _ _ Hf).
  - assert (Hnull : myStringToCString (Some s2) st' = Ok None (set_oracle st' (tl (oracle st')))).
    { unfold myStringToCString.
      rewrite (bind_ok _ _ _ _ _ (myStringLen_run _ _ _ Hs)).
      now rewrite (bind_ok _ _ _ _ _ (malloc_refused _ _ Ho')). }
    rewrite (bind_ok _ _ _ _ _ Hnull).
    apply bind_fail. unfold fprintf_s. apply bind_fail. unfold get_file.
    subst st'. cbn [files set_oracle]. now rewrite (lookup_insert_same _ _ _ _ Hf).
Qed.

Lemma myStringWrite_twice_witness :
  exists st',
    myStringWrite (Some 1%nat) (Some O) test_store = Ok MYSTRING_SUCCESS st' /\
    myStringWrite (Some O) (Some O) st' = Err BadStream.
Proof.
  exact (myStringWrite_twice test_store 1 0 [97; 98; 99; 122]
           (mkFile true false []) 0 [97; 98; 100]
           eq_refl eq_refl eq_refl eq_refl eq_refl ltac:(vm_compute; reflexivity)
           eq_refl ltac:(vm_compute; reflexivity)).
Defined.

(** X17. myStringWrite does not check the temporary C string: when its
    allocation is refused, NULL is handed to the [%s] conversion of fprintf,
    which reads through it. *)
Theorem myStringWrite_unchecked_allocation st s f xs v :
  contents st (Some s) = Some xs ->
  files st !! f = Some v -> f_open v = true ->
  hd true (oracle st) = false ->
  myStringToCString (Some s) st = Ok None (set_oracle st (tl (oracle st))) /\
  myStringWrite (Some s) (Some f) st = Err NullDeref.
Proof.
  intros Hc Hf Hopen Ho.
  pose proof (contents_inv _ _ _ Hc) as (w & b & buf & Hs & Hch & Hb & H0 & H1 & Hx).
  assert (Hnull : myStringToCString (Some s) st = Ok None (set_oracle st (tl (oracle st)))).
  { unfold myStringToCString.
    rewrite (bind_ok _ _ _ _ _ (myStringLen_run _ _ _ Hs)).
    now rewrite (bind_ok _ _ _ _ _ (malloc_refused _ _ Ho)). }
  split; [exact Hnull|].
  unfold myStringWrite. rewrite (bind_ok _ _ _ _ _ Hnull).
  apply bind_fail. unfold fprintf_s.
  erewrite (bind_ok (get_file _)) by (eapply get_file_ok; [exact Hf | exact Hopen]).
  apply bind_fail. reflexivity.
Qed.

Lemma myStringWrite_unchecked_allocation_witness :
  myStringToCString (Some 1%nat) (set_oracle test_store [false]) =
    Ok None (set_oracle (set_oracle test_store [false]) []) /\
  myStringWrite (Some 1%nat) (Some O) (set_oracle test_store [false]) = Err NullDeref.
Proof.
  exact (myStringWrite_unchecked_allocation (set_oracle test_store [false])
           1 0 [97; 98; 99; 122] (mkFile true false [])
           eq_refl eq_refl eq_refl eq_refl).
Defined.

(** ** Digits, filter and sizes *)

Lemma getNumOfDigits_loop_pow fuel :
  forall m k,
    0 < m < 2 ^ Z.of_nat fuel ->
    1 <= getNumOfDigits_loop fuel m k - k /\
    10 ^ (getNumOfDigits_loop fuel m k - k - 1) <= m <
    10 ^ (getNumOfDigits_loop fuel m k - k).
Proof.
  induction fuel as [|fuel IH]; intros m k Hm.
  - simpl in Hm. lia.
  - cbn [getNumOfDigits_loop].
    destruct (Z.eqb_spec m 0) as [|_]; [lia|].
    unfold DIGIT_DIVIDER. rewrite Z.quot_div_nonneg by lia.
    pose proof (Z.div_mod m 10 ltac:(lia)) as Hdm.
    pose proof (Z.mod_pos_bound m 10 ltac:(lia)) as Hmod.
    destruct (Z.eq_dec (m / 10) 0) as [Hz|Hz].
    + rewrite Hz.
      replace (getNumOfDigits_loop fuel 0 (k + 1)) with (k + 1)
        by (destruct fuel; reflexivity).
      replace (k + 1 - k) with 1 by lia. simpl. lia.
    + assert (Hdiv : 0 < m / 10 < 2 ^ Z.of_nat fuel).
      { split; [pose proof (Z.div_pos m 10); lia|].
        apply Z.div_lt_upper_bound; [lia|].
        rewrite Nat2Z.inj_succ, Z.pow_succ_r in Hm by lia. lia. }
      destruct (IH (m / 10) (k + 1) Hdiv) as (H1 & Hlo & Hhi).
      set (r := getNumOfDigits_loop fuel (m / 10) (k + 1)) in *.
      replace (r - k) with (Z.succ (r - (k + 1))) by lia.
      replace (Z.succ (r - (k + 1)) - 1) with (Z.succ (r - (k + 1) - 1)) by lia.
      rewrite !Z.pow_succ_r by lia. lia.
Qed.

(** X18. getNumOfDigits counts the decimal digits, and one more character for
    the sign of a negative number: for [n] other than 0 the count without
    the sign is the [d] with [10^(d-1) <= |n| < 10^d]; for 0 the count is 1. *)
Theorem getNumOfDigits_powers_of_ten n :
  n <> 0 ->
  let d := getNumOfDigits n - (if n <? 0 then 1 else 0) in
  1 <= d /\ 10 ^ (d - 1) <= Z.abs n < 10 ^ d /\ getNumOfDigits 0 = 1.
Proof.
  intros Hn d. subst d. unfold getNumOfDigits.
  destruct (Z.eqb_spec n 0) as [|_]; [contradiction|].
  pose proof (digit_fuel_bound n Hn) as Hb.
  destruct (Z.leb_spec n 0) as [Hle|Hgt].
  - destruct (Z.ltb_spec n 0) as [Hlt|]; [|lia].
    rewrite <- getNumOfDigits_loop_opp.
    destruct (getNumOfDigits_loop_pow (digit_fuel n) (- n) (0 + 1) ltac:(lia))
      as (H1 & H2).
    replace (Z.abs n) with (- n) by lia. auto.
  - destruct (Z.ltb_spec n 0) as [|_]; [lia|].
    destruct (getNumOfDigits_loop_pow (digit_fuel n) n 0 ltac:(lia)) as (H1 & H2).
    replace (Z.abs n) with n by lia.
    rewrite !Z.sub_0_r in *. auto.
Qed.

Lemma getNumOfDigits_powers_of_ten_witness :
  - 2147483648 <> 0 /\
  let d := getNumOfDigits (- 2147483648) - 1 in
  1 <= d /\ 10 ^ (d - 1) <= 2147483648 < 10 ^ d /\ getNumOfDigits 0 = 1.
Proof.
  split; [lia|]. exact (getNumOfDigits_powers_of_ten (- 2147483648) ltac:(lia)).
Defined.

(** X19. myStringFilter depends on a terminator that the instances do not
    have: on a non-empty instance whose array holds no NUL byte, as after
    every successful set from a text or from another instance, the scan of
    the array leaves it, whatever the filter; on an empty instance the call
    returns success without calling the filter and without any change. *)
Theorem myStringFilter_no_terminator st s v b buf filt :
  strs st !! s = Some (Some v) -> _chars v = Some (b, O) ->
  bufs st !! b = Some (Some buf) ->
  (_length v = EMPTY_STRING_LENGTH ->
     myStringFilter (Some s) (Some filt) st = Ok MYSTRING_SUCCESS st) /\
  (_length v <> EMPTY_STRING_LENGTH ->
   Forall (fun c => c <> END_OF_C_STRING) buf ->
     myStringFilter (Some s) (Some filt) st = Err OutOfBounds).
Proof.
  intros Hs Hc Hb. split.
  - intros Hz. unfold myStringFilter.
    rewrite (bind_ok _ _ _ _ _ (deref_run _ _ _ Hs)).
    destruct (Z.eqb_spec (_length v) EMPTY_STRING_LENGTH); [reflexivity | contradiction].
  - intros Hz Hall. unfold myStringFilter.
    rewrite (bind_ok _ _ _ _ _ (deref_run _ _ _ Hs)).
    destruct (Z.eqb_spec (_length v) EMPTY_STRING_LENGTH); [contradiction|].
    apply bind_fail. unfold getFilteredStringLength. apply bind_fail.
    rewrite Hc. now apply (getCStringLength_no_nul st b O buf).
Qed.

Lemma myStringFilter_no_terminator_witness :
  myStringFilter (Some 2%nat) (Some filt) test_store = Ok MYSTRING_SUCCESS test_store /\
  myStringFilter (Some 1%nat) (Some filt) test_store = Err OutOfBounds.
Proof.
  split.
  - exact (proj1 (myStringFilter_no_terminator test_store 2
                    (mkMyString (Some (3%nat, O)) 0) 3 [0] filt
                    eq_refl eq_refl eq_refl) eq_refl).
  - apply (proj2 (myStringFilter_no_terminator test_store 1
                    (mkMyString (Some (1%nat, O)) 4) 1 [97; 98; 99; 122] filt
                    eq_refl eq_refl eq_refl)).
    + discriminate.
    + repeat constructor; discriminate.
Defined.

(** X20. myStringLen and myStringMemUsage on an instance that holds [xs]: the
    length is the number of bytes, the memory usage is the size of the
    struct plus the length, and neither changes the store.  On NULL the
    length is the error status converted to unsigned long, the largest
    value of the type, and the memory usage is 0. *)
Theorem myStringMemUsage_counts st s xs :
  contents st (Some s) = Some xs ->
  Z.of_nat (length xs) + SIZEOF_MYSTRING < ULONG_MOD ->
  myStringLen (Some s) st = Ok (Z.of_nat (length xs)) st /\
  myStringMemUsage (Some s) st = Ok (SIZEOF_MYSTRING + Z.of_nat (length xs)) st /\
  myStringLen None st = Ok (ULONG_MOD - 1) st /\
  myStringMemUsage None st = Ok 0 st.
Proof.
  intros Hc Hlen.
  pose proof (contents_inv _ _ _ Hc) as (v & b & buf & Hs & Hch & Hb & H0 & H1 & Hx).
  pose proof (contents_length _ _ _ _ Hc Hs) as Hl.
  split; [|split; [|split]].
  - rewrite (myStringLen_run _ _ _ Hs). now rewrite Hl.
  - unfold myStringMemUsage.
    rewrite (bind_ok _ _ _ _ _ (get_str_ok _ _ _ Hs)). unfold ret. f_equal.
    unfold ulong_add, wrap_ulong. rewrite Hl. apply Z.mod_small.
    unfold SIZEOF_MYSTRING in *. lia.
  - reflexivity.
  - reflexivity.
Qed.

Lemma myStringMemUsage_counts_witness :
  myStringLen (Some 1%nat) test_store = Ok 4 test_store /\
  myStringMemUsage (Some 1%nat) test_store = Ok 20 test_store /\
  myStringLen None test_store = Ok (ULONG_MOD - 1) test_store /\
  myStringMemUsage None test_store = Ok 0 test_store.
Proof.
  exact (myStringMemUsage_counts test_store 1 [97; 98; 99; 122] eq_refl
           ltac:(vm_compute; reflexivity)).
Defined.

(** ** A set followed by a conversion *)





(** ** The two loops of myStringFilter *)

Lemma char_filter_run st b off buf c p :
  bufs st !! b = Some (Some buf) -> buf !! off = Some c ->
  char_filter p (Some (b, off)) st = Ok (p (char_of_byte c)) st.
Proof.
  intros Hb Hc. unfold char_filter.
  now rewrite (bind_ok _ _ _ _ _ (load_ok _ _ _ _ _ Hb Hc)).
Qed.

Lemma kept_chars_cons p c text :
  kept_chars p (c :: text) =
  if p (char_of_byte c) then c :: kept_chars p text else kept_chars p text.
Proof. reflexivity. Qed.

Lemma getFilteredStringLength_loop_count st b buf p :
  bufs st !! b = Some (Some buf) ->
  forall n off acc,
    (off + n <= length buf)%nat ->
    getFilteredStringLength_loop n (Some (b, off)) (char_filter p) acc st =
    Ok (acc + Z.of_nat (length (kept_chars p (take n (drop off buf))))) st.
Proof.
  intros Hb. induction n as [|n IH]; intros off acc Hn.
  - rewrite take_0. simpl. unfold ret. f_equal. lia.
  - destruct (lookup_lt_is_Some_2 buf off ltac:(lia)) as [c Hc].
    cbn [getFilteredStringLength_loop].
    rewrite (bind_ok _ _ _ _ _ (char_filter_run _ _ _ _ _ p Hb Hc)).
    rewrite (drop_S _ _ _ Hc). cbn [take]. rewrite kept_chars_cons.
    change (ptr_add (Some (b, off)) 1) with (Some (b, (off + 1)%nat)).
    replace (off + 1)%nat with (S off) by lia.
    rewrite IH by lia.
    destruct (p (char_of_byte c)); f_equal; cbn [length]; lia.
Qed.

Lemma set_bufs_same st : set_bufs st (bufs st) = st.
Proof. now destruct st. Qed.

Lemma createFilteredString_loop_run p bs sbuf bd :
  bd <> bs ->
  forall n st os od dbuf,
    bufs st !! bs = Some (Some sbuf) -> bufs st !! bd = Some (Some dbuf) ->
    (os + n <= length sbuf)%nat ->
    (od + length (kept_chars p (take n (drop os sbuf))) <= length dbuf)%nat ->
    createFilteredString_loop n (Some (bd, od)) (Some (bs, os)) (char_filter p) st =
    Ok tt (set_bufs st
             (<[bd := Some (take od dbuf ++ kept_chars p (take n (drop os sbuf)) ++
                            drop (od + length (kept_chars p (take n (drop os sbuf)))) dbuf)]>
                (bufs st))).
Proof.
  intros Hne. induction n as [|n IH]; intros st os od dbuf Hs Hd Hn Hroom.
  - rewrite take_0. cbn [kept_chars List.filter length app createFilteredString_loop].
    rewrite Nat.add_0_r, take_drop, (list_insert_id _ _ _ Hd), set_bufs_same.
    reflexivity.
  - destruct (lookup_lt_is_Some_2 sbuf os ltac:(lia)) as [c Hc].
    cbn [createFilteredString_loop].
    rewrite (bind_ok _ _ _ _ _ (char_filter_run _ _ _ _ _ p Hs Hc)).
    rewrite (drop_S _ _ _ Hc) in Hroom |- *. cbn [take] in Hroom |- *.
    rewrite kept_chars_cons in Hroom |- *.
    change (ptr_add (Some (bs, os)) 1) with (Some (bs, (os + 1)%nat)).
    change (ptr_add (Some (bd, od)) 1) with (Some (bd, (od + 1)%nat)).
    replace (os + 1)%nat with (S os) by lia.
    replace (od + 1)%nat with (S od) by lia.
    destruct (p (char_of_byte c)).
    + cbn [length] in Hroom.
      rewrite (bind_ok _ _ _ _ _ (load_ok _ _ _ _ _ Hs Hc)).
      erewrite (bind_ok (store _ _)) by (eapply store_run; [exact Hd | lia]).
      erewrite IH; [| look | look | lia | len].
      unfold set_bufs. cbn [bufs strs files oracle junk]. f_equal. f_equal.
      rewrite list_insert_insert_eq. f_equal. f_equal.
      rewrite (take_S_r _ _ c) by (apply list_lookup_insert_eq; lia).
      rewrite take_insert_ge by lia.
      rewrite drop_insert_lt by lia.
      rewrite <- app_assoc. cbn [app length].
      now rewrite Nat.add_succ_r.
    + apply IH; [assumption | assumption | lia | assumption].
Qed.

(** X23. The two loops of myStringFilter are right on a terminated string.
    For a filter that tests the character it is given, getFilteredStringLength
    returns the number of characters of the C string that pass the filter,
    and createFilteredString writes exactly these characters, in their
    order, at the start of a destination array that has room for them; the
    rest of the destination, the source and the instances are unchanged. *)
Theorem filter_loops_keep_passing_chars st bs os text bd dbuf p :
  c_string st (Some (bs, os)) = Some text ->
  bufs st !! bd = Some (Some dbuf) -> bd <> bs ->
  (length (kept_chars p text) <= length dbuf)%nat ->
  getFilteredStringLength (Some (bs, os)) (char_filter p) st =
    Ok (Z.of_nat (length (kept_chars p text))) st /\
  createFilteredString (Some (bd, O)) (Some (bs, os)) (char_filter p) st =
    Ok tt (set_bufs st
             (<[bd := Some (kept_chars p text ++
                            drop (length (kept_chars p text)) dbuf)]> (bufs st))).
Proof.
  intros Hcs Hd Hne Hroom.
  pose proof (c_string_inv _ _ _ Hcs) as (b' & o' & sbuf & Heq & Hs & Hu).
  inversion Heq; subst b' o'; clear Heq.
  pose proof (c_string_bounds _ _ _ Hu) as Hb.
  pose proof (until_nul_take _ _ Hu) as Ht.
  split.
  - unfold getFilteredStringLength.
    rewrite (bind_ok _ _ _ _ _ (getCStringLength_ok _ _ _ Hcs)).
    rewrite Nat2Z.id.
    rewrite (getFilteredStringLength_loop_count st bs sbuf p Hs) by lia.
    now rewrite Ht.
  - unfold createFilteredString.
    rewrite (bind_ok _ _ _ _ _ (getCStringLength_ok _ _ _ Hcs)).
    rewrite Nat2Z.id.
    rewrite (createFilteredString_loop_run p bs sbuf bd Hne _ st os O dbuf Hs Hd)
      by (rewrite ?Ht; lia).
    now rewrite Ht, take_0.
Qed.

Lemma filter_loops_keep_passing_chars_witness :
  getFilteredStringLength (Some (O, O)) filt
    (set_bufs abcz_padded (bufs abcz_padded ++ [Some [0; 0]])) =
  Ok 2 (set_bufs abcz_padded (bufs abcz_padded ++ [Some [0; 0]])) /\
  createFilteredString (Some (1%nat, O)) (Some (O, O)) filt
    (set_bufs abcz_padded (bufs abcz_padded ++ [Some [0; 0]])) =
  Ok tt (set_bufs abcz_padded (bufs abcz_padded ++ [Some [98; 99]])).
Proof.
  exact (filter_loops_keep_passing_chars
           (set_bufs abcz_padded (bufs abcz_padded ++ [Some [0; 0]]))
           0 0 [97; 98; 99; 122]
           1 [0; 0] (fun c => (c <? 103) && (97 <? c))
           eq_refl eq_refl ltac:(discriminate) ltac:(simpl; lia)).
Defined.
